(** * SmartFix backend core: circuit breaker, retry executor, cache, monitoring

    A shallow embedding of [backend/app/core/retry.py], [cache.py] and
    [monitoring.py], followed by the properties established about them.

    Conventions of the embedding:
    - Python [float] values (delays, [time.time()] readings, metric values)
      are exact rationals [Q]: no rounding. A [float] operation that raises
      in the source raises in the model: a power or the conversion of an
      [int] whose result is too large for a [float] is an [OverflowError].
      A product or a sum too large for a [float] is an infinity in the
      source and a rational here, so the statements on delays are about
      computations whose floats stay in range ([delay_in_range]).
    - [datetime] values are integers [Z] counting microseconds, the
      resolution of [datetime.utcnow()], from [datetime.min] on;
      [timedelta(seconds=s)] is [1000000 * s]. Building a [timedelta] or a
      [datetime] outside the range of its type is an [OverflowError].
    - Reads of the clock, draws of the random generator and the behaviour
      of user supplied callables are inputs of the model. What a callable
      raises is an instance of [BaseException]; whether an [except] clause
      catches it is decided by a predicate on it.
    - A Python object mutated in place is a value threaded through the
      functions that mutate it. *)

From stdpp Require Import gmap strings list fin_maps pretty.
From Stdlib Require Import ZArith QArith Qabs Qpower Lia Lqa Ascii.

Local Close Scope Q_scope.
Local Open Scope Z_scope.

(** ** Builtin pieces of Python used by the source *)

(** Exceptions raised by the interpreter itself. *)
Inductive builtin_error := TypeError | ZeroDivisionError | OverflowError.

(** [x > y] on floats. *)
Definition Qgtb (x y : Q) : bool := negb (Qle_bool x y).

(** [min(a, b)]: the first argument unless the second is smaller. *)
Definition py_min (a b : Q) : Q := if Qgtb a b then b else a.

(** The magnitude from which a number is too large for a [float]: the
    largest [float] is [2 ** 1024 - 2 ** 971], and what reaches
    [2 ** 1024 - 2 ** 970] rounds to an infinity. *)
Definition float_limit : Z := 2 ^ 1024 - 2 ^ 970.

(** A number in the range of the finite floats. *)
Definition float_in_range (x : Q) : bool :=
  negb (Qle_bool (inject_Z float_limit) (Qabs x)).

(** [float(n)], the conversion the interpreter applies to an int operand
    of a float operation: ["int too large to convert to float"]. *)
Definition py_float (n : Z) : builtin_error + Q :=
  if float_in_range (inject_Z n) then inr (inject_Z n) else inl OverflowError.

(** [x ** n] for a float [x] and an int [n]: the exponent is converted
    first; zero to a negative power raises [ZeroDivisionError]; a result
    too large for a float raises [OverflowError], while a result too
    small is rounded without an exception. *)
Definition py_pow (x : Q) (n : Z) : builtin_error + Q :=
  match py_float n with
  | inl err => inl err
  | inr _ =>
      if (n <? 0) && Qeq_bool x 0 then inl ZeroDivisionError
      else if float_in_range (Qpower x n) then inr (Qpower x n)
      else inl OverflowError
  end.

(** [random.uniform(a, b)] is [a + (b - a) * random()]; [r] is the value
    drawn by [random()]. *)
Definition uniform (a b r : Q) : Q := (a + (b - a) * r)%Q.

(** [range(lo, hi)]. *)
Definition py_range (lo hi : Z) : list Z :=
  map (fun i : nat => lo + Z.of_nat i) (seq 0 (Z.to_nat (hi - lo))).

(** [sub in s] on strings. *)
Fixpoint str_contains (sub s : string) : bool :=
  String.prefix sub s ||
  match s with
  | EmptyString => false
  | String _ s' => str_contains sub s'
  end.

(** [s.replace(c, '')] for a one character [c]. *)
Fixpoint str_remove (c : Ascii.ascii) (s : string) : string :=
  match s with
  | EmptyString => EmptyString
  | String a s' =>
      if Ascii.eqb a c then str_remove c s' else String a (str_remove c s')
  end.

(** One microsecond resolution of [datetime]. *)
Definition timedelta_seconds (s : Z) : Z := 1000000 * s.

(** [datetime.max], in microseconds from [datetime.min]: the last
    microsecond of the year 9999. *)
Definition datetime_max : Z := 315537897599999999.

(** A number of microseconds that is a [datetime]. *)
Definition is_datetime (d : Z) : bool := (0 <=? d) && (d <=? datetime_max).

(** [timedelta(seconds=s)] for an int [s]: the days of a [timedelta] have
    a magnitude of 999999999 at most. *)
Definition timedelta (s : Z) : builtin_error + Z :=
  if (-999999999 <=? s / 86400) && (s / 86400 <=? 999999999)
  then inr (timedelta_seconds s)
  else inl OverflowError.

(** [d + td] for a [datetime] and a [timedelta]: ["date value out of
    range"] when the sum is no [datetime]. *)
Definition datetime_add (d td : Z) : builtin_error + Z :=
  if is_datetime (d + td) then inr (d + td) else inl OverflowError.

(** [d + timedelta(seconds=s)]. *)
Definition datetime_after (d s : Z) : builtin_error + Z :=
  match timedelta s with
  | inl err => inl err
  | inr td => datetime_add d td
  end.

(** ** retry.py *)

Module Retry.

Inductive RetryStrategy := FIXED | EXPONENTIAL | LINEAR.

Inductive CircuitState := CLOSED | OPEN | HALF_OPEN.

Definition CircuitState_eqb (a b : CircuitState) : bool :=
  match a, b with
  | CLOSED, CLOSED | OPEN, OPEN | HALF_OPEN, HALF_OPEN => true
  | _, _ => false
  end.

(** [settings.MAX_RETRIES] and [settings.RETRY_DELAY] of config.py, read
    from the environment. *)
Record Settings := mkSettings {
  MAX_RETRIES : Z;
  RETRY_DELAY : Q
}.

(** The values config.py uses when the environment sets nothing. *)
Definition default_settings : Settings :=
  {| MAX_RETRIES := 3; RETRY_DELAY := 1 |}.

Record RetryConfig := mkRetryConfig {
  max_retries : Z;
  base_delay : Q;
  max_delay : Q;
  strategy : RetryStrategy;
  jitter : bool;
  backoff_factor : Q
}.

(** [RetryConfig()] with every argument at its default. *)
Definition RetryConfig_default (s : Settings) : RetryConfig :=
  {| max_retries := MAX_RETRIES s;
     base_delay := RETRY_DELAY s;
     max_delay := 60;
     strategy := EXPONENTIAL;
     jitter := true;
     backoff_factor := 2 |}.

Definition set_max_retries (n : Z) (c : RetryConfig) : RetryConfig :=
  {| max_retries := n; base_delay := base_delay c; max_delay := max_delay c;
     strategy := strategy c; jitter := jitter c;
     backoff_factor := backoff_factor c |}.

Definition set_base_delay (d : Q) (c : RetryConfig) : RetryConfig :=
  {| max_retries := max_retries c; base_delay := d; max_delay := max_delay c;
     strategy := strategy c; jitter := jitter c;
     backoff_factor := backoff_factor c |}.

Definition set_strategy (s : RetryStrategy) (c : RetryConfig) : RetryConfig :=
  {| max_retries := max_retries c; base_delay := base_delay c;
     max_delay := max_delay c; strategy := s; jitter := jitter c;
     backoff_factor := backoff_factor c |}.

Record CircuitBreaker := mkCircuitBreaker {
  failure_threshold : Z;
  recovery_timeout : Q;
  state : CircuitState;
  failure_count : Z;
  last_failure_time : option Q;
  success_count : Z
}.

(** [CircuitBreaker.__init__]. *)
Definition CircuitBreaker_init (threshold : Z) (timeout : Q) : CircuitBreaker :=
  {| failure_threshold := threshold;
     recovery_timeout := timeout;
     state := CLOSED;
     failure_count := 0;
     last_failure_time := None;
     success_count := 0 |}.

(** [CircuitBreaker()]: threshold 5, recovery after 60 seconds. *)
Definition CircuitBreaker_default : CircuitBreaker := CircuitBreaker_init 5 60.

Definition set_state (s : CircuitState) (cb : CircuitBreaker) : CircuitBreaker :=
  {| failure_threshold := failure_threshold cb;
     recovery_timeout := recovery_timeout cb;
     state := s;
     failure_count := failure_count cb;
     last_failure_time := last_failure_time cb;
     success_count := success_count cb |}.

Definition set_failure_count (n : Z) (cb : CircuitBreaker) : CircuitBreaker :=
  {| failure_threshold := failure_threshold cb;
     recovery_timeout := recovery_timeout cb;
     state := state cb;
     failure_count := n;
     last_failure_time := last_failure_time cb;
     success_count := success_count cb |}.

Definition set_last_failure_time (t : option Q) (cb : CircuitBreaker)
  : CircuitBreaker :=
  {| failure_threshold := failure_threshold cb;
     recovery_timeout := recovery_timeout cb;
     state := state cb;
     failure_count := failure_count cb;
     last_failure_time := t;
     success_count := success_count cb |}.

Definition set_success_count (n : Z) (cb : CircuitBreaker) : CircuitBreaker :=
  {| failure_threshold := failure_threshold cb;
     recovery_timeout := recovery_timeout cb;
     state := state cb;
     failure_count := failure_count cb;
     last_failure_time := last_failure_time cb;
     success_count := n |}.

(** [CircuitBreaker.can_execute]; [now] is the reading of [time.time()].
    Subtracting the initial [None] of [last_failure_time] from a float
    raises [TypeError]. *)
Definition can_execute (now : Q) (cb : CircuitBreaker)
  : builtin_error + (bool * CircuitBreaker) :=
  if CircuitState_eqb (state cb) CLOSED then inr (true, cb)
  else if CircuitState_eqb (state cb) OPEN then
    match last_failure_time cb with
    | None => inl TypeError
    | Some last =>
        if Qgtb (now - last)%Q (recovery_timeout cb)
        then inr (true, set_state HALF_OPEN cb)
        else inr (false, cb)
    end
  else if CircuitState_eqb (state cb) HALF_OPEN then inr (true, cb)
  else inr (false, cb).

(** [CircuitBreaker.on_success]. *)
Definition on_success (cb : CircuitBreaker) : CircuitBreaker :=
  if CircuitState_eqb (state cb) HALF_OPEN then
    let cb := set_success_count (success_count cb + 1) cb in
    if 2 <=? success_count cb then
      let cb := set_state CLOSED cb in
      let cb := set_failure_count 0 cb in
      set_success_count 0 cb
    else cb
  else cb.

(** [CircuitBreaker.on_failure]; [now] is the reading of [time.time()]. *)
Definition on_failure (now : Q) (cb : CircuitBreaker) : CircuitBreaker :=
  let cb := set_failure_count (failure_count cb + 1) cb in
  let cb := set_last_failure_time (Some now) cb in
  if CircuitState_eqb (state cb) CLOSED
     && (failure_threshold cb <=? failure_count cb)
  then set_state OPEN cb
  else if CircuitState_eqb (state cb) HALF_OPEN then set_state OPEN cb
  else cb.

(** [RetryManager.calculate_delay]; [r] is the value [random()] returns
    inside [random.uniform], used only when [config.jitter] is set. The
    int [attempt] is converted for the product with the float
    [base_delay]; the products, the sum and [min] raise nothing. *)
Definition calculate_delay (attempt : Z) (config : RetryConfig) (r : Q)
  : builtin_error + Q :=
  let delay :=
    match strategy config with
    | FIXED => inr (base_delay config)
    | LINEAR =>
        match py_float attempt with
        | inl err => inl err
        | inr a => inr (base_delay config * a)%Q
        end
    | EXPONENTIAL =>
        match py_pow (backoff_factor config) (attempt - 1) with
        | inl err => inl err
        | inr p => inr (base_delay config * p)%Q
        end
    end in
  match delay with
  | inl err => inl err
  | inr delay =>
      let delay :=
        if jitter config then
          let jitter := uniform 0 ((1 # 10) * delay)%Q r in
          (delay + jitter)%Q
        else delay in
      inr (py_min delay (max_delay config))
  end.

(** [RetryManager]: the two registries, keyed by service name. *)
Record RetryManager := mkRetryManager {
  circuit_breakers : gmap string CircuitBreaker;
  retry_configs : gmap string RetryConfig
}.

Definition RetryManager_init : RetryManager :=
  {| circuit_breakers := ∅; retry_configs := ∅ |}.

(** [RetryManager.get_circuit_breaker]: get or create. *)
Definition get_circuit_breaker (service_name : string) (m : RetryManager)
  : CircuitBreaker * RetryManager :=
  match circuit_breakers m !! service_name with
  | Some cb => (cb, m)
  | None =>
      (CircuitBreaker_default,
       {| circuit_breakers :=
            <[service_name := CircuitBreaker_default]> (circuit_breakers m);
          retry_configs := retry_configs m |})
  end.

(** [RetryManager.get_retry_config]: get or create. *)
Definition get_retry_config (s : Settings) (service_name : string)
  (m : RetryManager) : RetryConfig * RetryManager :=
  match retry_configs m !! service_name with
  | Some c => (c, m)
  | None =>
      (RetryConfig_default s,
       {| circuit_breakers := circuit_breakers m;
          retry_configs :=
            <[service_name := RetryConfig_default s]> (retry_configs m) |})
  end.

(** [reset_circuit_breaker]. *)
Definition reset_circuit_breaker (service_name : string) (m : RetryManager)
  : RetryManager :=
  match circuit_breakers m !! service_name with
  | Some cb =>
      let cb := set_state CLOSED cb in
      let cb := set_failure_count 0 cb in
      let cb := set_success_count 0 cb in
      let cb := set_last_failure_time None cb in
      {| circuit_breakers := <[service_name := cb]> (circuit_breakers m);
         retry_configs := retry_configs m |}
  | None => m
  end.

(** *** The wrapper built by [retry_with_circuit_breaker] *)

Section Wrapper.
Context {V E : Type}.

(** One call of the wrapped function: it returns a value or raises. *)
Inductive outcome := Returns (v : V) | Raises (e : E).

(** What leaves the wrapper as an exception:
    [Exception("Circuit breaker is open for " + service_name)], an
    exception of the interpreter, or an exception of the wrapped
    function. *)
Inductive raised :=
| CircuitOpen (service_name : string)
| Builtin (err : builtin_error)
| Propagated (e : E).

(** The calls the wrapper makes, in the order it makes them. *)
Inductive event :=
| EvCall (attempt : Z)
| EvOnSuccess
| EvOnFailure (now : Q)
| EvSleep (delay : Q).

(** The surroundings of one run of the wrapper: what the wrapped
    function does at each attempt, which of its exceptions the
    [exceptions] tuple matches, the readings of [time.time()] and the
    draws of [random()]. *)
Record Environment := mkEnvironment {
  func : Z -> outcome;
  exceptions : E -> bool;
  time_at_entry : Q;
  time_at_failure : Z -> Q;
  random_at : Z -> Q
}.

(** [raise last_exception]; raising [None] is a [TypeError]. *)
Definition raise_last (last_exception : option E) : raised :=
  match last_exception with
  | Some e => Propagated e
  | None => Builtin TypeError
  end.

(** The [for attempt in range(1, config.max_retries + 2)] loop of
    [async_wrapper] and the [raise last_exception] after it. *)
Fixpoint attempt_loop (env : Environment) (config : RetryConfig)
  (attempts : list Z) (circuit_breaker : CircuitBreaker)
  (last_exception : option E) (trace : list event)
  : (raised + V) * CircuitBreaker * list event :=
  match attempts with
  | [] => (inl (raise_last last_exception), circuit_breaker, trace)
  | attempt :: rest =>
      match func env attempt with
      | Returns result =>
          (inr result, on_success circuit_breaker,
           trace ++ [EvCall attempt; EvOnSuccess])
      | Raises e =>
          if exceptions env e then
            let last_exception := Some e in
            let now := time_at_failure env attempt in
            let circuit_breaker := on_failure now circuit_breaker in
            let trace := trace ++ [EvCall attempt; EvOnFailure now] in
            if attempt <=? max_retries config then
              match calculate_delay attempt config (random_at env attempt) with
              | inl err => (inl (Builtin err), circuit_breaker, trace)
              | inr delay =>
                  attempt_loop env config rest circuit_breaker
                    last_exception (trace ++ [EvSleep delay])
              end
            else (inl (raise_last last_exception), circuit_breaker, trace)
          else (inl (Propagated e), circuit_breaker, trace ++ [EvCall attempt])
      end
  end.

(** The decorator's optional arguments written over the shared config. *)
Definition override_config (max_retries_arg : option Z)
  (base_delay_arg : option Q) (strategy_arg : option RetryStrategy)
  (config : RetryConfig) : RetryConfig :=
  let config :=
    match max_retries_arg with
    | Some n => set_max_retries n config
    | None => config
    end in
  let config :=
    match base_delay_arg with
    | Some d => set_base_delay d config
    | None => config
    end in
  match strategy_arg with
  | Some s => set_strategy s config
  | None => config
  end.

(** The breaker and the config are objects of the registries: what the
    wrapper does to them is seen there. *)
Definition store (service_name : string) (cb : CircuitBreaker)
  (config : RetryConfig) (m : RetryManager) : RetryManager :=
  {| circuit_breakers := <[service_name := cb]> (circuit_breakers m);
     retry_configs := <[service_name := config]> (retry_configs m) |}.

(** [async_wrapper]. *)
Definition async_wrapper (s : Settings) (service_name : string)
  (max_retries_arg : option Z) (base_delay_arg : option Q)
  (strategy_arg : option RetryStrategy)
  (env : Environment) (m : RetryManager)
  : (raised + V) * RetryManager * list event :=
  let '(circuit_breaker, m) := get_circuit_breaker service_name m in
  let '(config, m) := get_retry_config s service_name m in
  let config :=
    override_config max_retries_arg base_delay_arg strategy_arg config in
  match can_execute (time_at_entry env) circuit_breaker with
  | inl err => (inl (Builtin err), store service_name circuit_breaker config m, [])
  | inr (false, circuit_breaker) =>
      (inl (CircuitOpen service_name),
       store service_name circuit_breaker config m, [])
  | inr (true, circuit_breaker) =>
      let '(result, circuit_breaker, trace) :=
        attempt_loop env config (py_range 1 (max_retries config + 2))
          circuit_breaker None [] in
      (result, store service_name circuit_breaker config m, trace)
  end.

End Wrapper.

Arguments outcome : clear implicits.
Arguments raised : clear implicits.
Arguments Environment : clear implicits.

(** The policy and the breaker the wrapper works with for a service. *)
Definition effective_config (s : Settings) (service_name : string)
  (max_retries_arg : option Z) (base_delay_arg : option Q)
  (strategy_arg : option RetryStrategy) (m : RetryManager) : RetryConfig :=
  override_config max_retries_arg base_delay_arg strategy_arg
    (fst (get_retry_config s service_name m)).

End Retry.

(** ** cache.py *)

Module Cache.

Section CacheManager.
Context {V : Type}.

(** One entry of [memory_cache]: the dict with the keys ['value'] and
    ['expires_at']. *)
Record CacheEntry := mkCacheEntry {
  value : V;
  expires_at : Z
}.

(** [expire or 3600]: [None] and [0] are both falsy. *)
Definition expire_or_3600 (expire : option Z) : Z :=
  match expire with
  | None => 3600
  | Some e => if e =? 0 then 3600 else e
  end.

(** [CacheManager.set], in-memory branch; [now] is [datetime.utcnow()].
    The entry is built before it is stored: when its [expires_at] cannot
    be built, the [except Exception] clause returns [False] and the store
    is as it was. *)
Definition set (key : string) (val : V) (expire : option Z) (now : Z)
  (memory_cache : gmap string CacheEntry) : bool * gmap string CacheEntry :=
  match datetime_after now (expire_or_3600 expire) with
  | inr expires_at =>
      (true,
       <[key := {| value := val; expires_at := expires_at |}]> memory_cache)
  | inl _ => (false, memory_cache)
  end.

(** [CacheManager.get]; the result [None] is Python's [None]. *)
Definition get (key : string) (now : Z)
  (memory_cache : gmap string CacheEntry) : option V * gmap string CacheEntry :=
  match memory_cache !! key with
  | Some cache_entry =>
      if expires_at cache_entry >? now
      then (Some (value cache_entry), memory_cache)
      else (None, base.delete key memory_cache)
  | None => (None, memory_cache)
  end.

(** [CacheManager.delete]. *)
Definition delete (key : string) (memory_cache : gmap string CacheEntry)
  : bool * gmap string CacheEntry :=
  match memory_cache !! key with
  | Some _ => (true, base.delete key memory_cache)
  | None => (false, memory_cache)
  end.

(** [CacheManager.exists]: [cache_entry and cache_entry['expires_at'] >
    now] is [None] for a missing key and a [bool] otherwise; the method
    has no statement that writes to the store. *)
Definition exists_ (key : string) (now : Z)
  (memory_cache : gmap string CacheEntry)
  : option bool * gmap string CacheEntry :=
  match memory_cache !! key with
  | None => (None, memory_cache)
  | Some cache_entry => (Some (expires_at cache_entry >? now), memory_cache)
  end.

(** Truth value of what [exists] returns. *)
Definition truthy (r : option bool) : bool :=
  match r with
  | Some b => b
  | None => false
  end.

(** [CacheManager.expire]; when the new [expires_at] cannot be built,
    the [except Exception] clause returns [False] and the entry is as it
    was. *)
Definition expire (key : string) (seconds : Z) (now : Z)
  (memory_cache : gmap string CacheEntry) : bool * gmap string CacheEntry :=
  match memory_cache !! key with
  | Some cache_entry =>
      match datetime_after now seconds with
      | inr expires_at =>
          (true,
           <[key := {| value := value cache_entry; expires_at := expires_at |}]>
             memory_cache)
      | inl _ => (false, memory_cache)
      end
  | None => (false, memory_cache)
  end.

(** [CacheManager.clear_pattern]: the keys are collected first, then
    deleted one by one while counting. *)
Definition clear_pattern (pattern : string)
  (memory_cache : gmap string CacheEntry) : Z * gmap string CacheEntry :=
  let keys_to_delete :=
    List.filter (fun key => str_contains (str_remove "*"%char pattern) key)
      (map fst (map_to_list memory_cache)) in
  fold_left
    (fun '(deleted_count, memory_cache) key =>
       (deleted_count + 1, base.delete key memory_cache))
    keys_to_delete (0, memory_cache).

(** The ['total_keys'] and ['active_keys'] of [CacheManager.get_stats]. *)
Record Stats := mkStats {
  total_keys : Z;
  active_keys : Z
}.

Definition get_stats (now : Z) (memory_cache : gmap string CacheEntry)
  : Stats :=
  {| total_keys := Z.of_nat (size memory_cache);
     active_keys :=
       Z.of_nat
         (length
            (List.filter (fun kv => expires_at (snd kv) >? now)
               (map_to_list memory_cache))) |}.

End CacheManager.

Arguments CacheEntry : clear implicits.

End Cache.

(** ** monitoring.py *)

Module Monitoring.

(** A Python [dict] whose iteration order matters: its items in insertion
    order. [d[k] = v] replaces the value of a present key where it stands
    and appends a new key. *)
Fixpoint dict_set {A : Type} (k : string) (v : A) (d : list (string * A))
  : list (string * A) :=
  match d with
  | [] => [(k, v)]
  | (k', v') :: d' =>
      if String.eqb k' k then (k', v) :: d' else (k', v') :: dict_set k v d'
  end.

(** [deque.append] on a [deque(maxlen=maxlen)] with [maxlen > 0]: a full
    deque drops its oldest element. *)
Definition deque_append {A : Type} (maxlen : nat) (x : A) (d : list A) : list A :=
  if (maxlen <=? length d)%nat then tail d ++ [x] else d ++ [x].

(** [int(x)] on a float: truncation towards zero. *)
Definition py_int (x : Q) : Z := Z.quot (Qnum x) (Z.pos (Qden x)).

Inductive LogLevel := INFO | WARNING | ERROR.

(** A record handed to [logger]: its level and its message. *)
Definition LogRecord : Type := LogLevel * string.

(** [SystemMetrics]. *)
Record SystemMetrics := mkSystemMetrics {
  timestamp : Z;
  cpu_usage : Q;
  memory_usage : Q;
  disk_usage : Q;
  network_io : Q * Q;
  active_connections : Z;
  requests_per_minute : Q;
  error_rate : Q;
  response_time_avg : Q;
  cache_hit_rate : Q
}.

(** *** MetricsCollector: the request counters *)

(** The fields of [MetricsCollector] behind [record_request] and the
    per-minute figures. *)
Record MetricsCollector := mkMetricsCollector {
  request_times : list Q;
  error_count : Z;
  total_requests : Z;
  last_reset : Z
}.

(** [MetricsCollector.record_request]. *)
Definition record_request (response_time : Q) (is_error : bool)
  (mc : MetricsCollector) : MetricsCollector :=
  {| request_times := deque_append 1000 response_time (request_times mc);
     error_count := if is_error then error_count mc + 1 else error_count mc;
     total_requests := total_requests mc + 1;
     last_reset := last_reset mc |}.

(** [MetricsCollector._calculate_requests_per_minute]; [now] is
    [datetime.utcnow()]. The value returned is the number [0.0] or the
    integer counter. *)
Definition _calculate_requests_per_minute (now : Z) (mc : MetricsCollector)
  : Z * MetricsCollector :=
  if timedelta_seconds 60 <=? now - last_reset mc then
    (0,
     {| request_times := request_times mc;
        error_count := 0;
        total_requests := 0;
        last_reset := now |})
  else (total_requests mc, mc).

Section Services.
(** [W] is the state of everything outside the monitoring objects, on
    which registered callables act. [E] is what a callable can raise, an
    instance of [BaseException]; [str] is its conversion to text and
    [is_exception] tells whether it is an instance of [Exception], which
    [KeyboardInterrupt], [SystemExit] and, from Python 3.8 on,
    [asyncio.CancelledError] are not.
    Reading a clock is an action on [W]. *)
Context {W Details E : Type}.
Variable str : E -> string.
Variable is_exception : E -> bool.
Variable utcnow : W -> Z * W.
Variable time_time : W -> Q * W.

(** [ServiceHealth]. *)
Record ServiceHealth := mkServiceHealth {
  name : string;
  status : string;
  response_time : Q;
  last_check : Z;
  error_message : option string;
  details : option Details
}.

(** A registered check, called without arguments: it returns a record
    ([inr]) or raises ([inl]). It acts on the outside state and leaves
    the checker alone. *)
Definition CheckFunc : Type := W -> (E + ServiceHealth) * W.

(** *** HealthChecker *)

Record HealthChecker := mkHealthChecker {
  health_checks : list (string * CheckFunc);
  health_status : list (string * ServiceHealth)
}.

(** [HealthChecker.register_health_check]. *)
Definition register_health_check (name : string) (check_func : CheckFunc)
  (hc : HealthChecker) : HealthChecker :=
  {| health_checks := dict_set name check_func (health_checks hc);
     health_status := health_status hc |}.

(** The state of [run_all_checks] while it loops. *)
Record CheckRun := mkCheckRun {
  results : list (string * ServiceHealth);
  statuses : list (string * ServiceHealth);
  world : W;
  log : list LogRecord
}.

(** The body of the loop of [run_all_checks] for one item of
    [health_checks]: [Some e] when the check raises an [e] that
    [except Exception] does not catch, which leaves the loop. *)
Definition run_check (st : CheckRun) (item : string * CheckFunc)
  : option E * CheckRun :=
  let '(name, check_func) := item in
  match check_func (world st) with
  | (inr result, w) =>
      (None,
       {| results := dict_set name result (results st);
          statuses := dict_set name result (statuses st);
          world := w;
          log := log st |})
  | (inl e, w) =>
      if is_exception e then
        let log :=
          log st ++ [(ERROR, "Health check " +:+ name +:+ " failed: " +:+ str e)] in
        let '(now, w) := utcnow w in
        (None,
         {| results :=
              dict_set name
                {| name := name; status := "unhealthy"; response_time := 0;
                   last_check := now; error_message := Some (str e);
                   details := None |}
                (results st);
            statuses := statuses st;
            world := w;
            log := log |})
      else
        (Some e,
         {| results := results st; statuses := statuses st; world := w;
            log := log st |})
  end.

(** The loop of [run_all_checks]: it ends with the last item, or with the
    first exception that is not caught. *)
Fixpoint run_checks (items : list (string * CheckFunc)) (st : CheckRun)
  : option E * CheckRun :=
  match items with
  | [] => (None, st)
  | item :: rest =>
      match run_check st item with
      | (None, st) => run_checks rest st
      | (Some e, st) => (Some e, st)
      end
  end.

(** [HealthChecker.run_all_checks]: the dict it returns ([inr]) or the
    exception that leaves it ([inl]), the checker after the run, the
    outside state and the log. *)
Definition run_all_checks (hc : HealthChecker) (w : W)
  (logged : list LogRecord)
  : (E + list (string * ServiceHealth)) * HealthChecker * W * list LogRecord :=
  let run :=
    run_checks (health_checks hc)
      {| results := []; statuses := health_status hc; world := w;
         log := logged |} in
  (match fst run with
   | Some e => inl e
   | None => inr (results (snd run))
   end,
   {| health_checks := health_checks hc; health_status := statuses (snd run) |},
   world (snd run), log (snd run)).

(** *** AlertManager *)

Record AlertRule := mkAlertRule {
  metric : string;
  threshold : Q + string;
  operator : string;
  severity : string;
  message : string
}.

(** The two shapes of alert dict [check_alerts] builds. *)
Inductive Alert :=
| MetricAlert (id rule severity message metric : string) (value : Q)
    (threshold : Q + string) (timestamp : Z)
| ServiceAlert (id rule severity message service : string) (timestamp : Z).

Definition alert_message (a : Alert) : string :=
  match a with
  | MetricAlert _ _ _ m _ _ _ _ => m
  | ServiceAlert _ _ _ m _ _ => m
  end.

Definition alert_severity (a : Alert) : string :=
  match a with
  | MetricAlert _ _ s _ _ _ _ _ => s
  | ServiceAlert _ _ s _ _ _ => s
  end.

Definition alert_timestamp (a : Alert) : Z :=
  match a with
  | MetricAlert _ _ _ _ _ _ _ t => t
  | ServiceAlert _ _ _ _ _ t => t
  end.

(** A registered handler, called with the alert. It runs in the process
    that owns the manager and can read the history as it stands when it
    is called; it returns ([None]) or raises ([Some e]). It acts on the
    outside state and changes neither the alert nor the manager. *)
Definition Handler : Type := Alert -> list Alert -> W -> option E * W.

Record AlertManager := mkAlertManager {
  alerts : list Alert;
  alert_rules : list (string * AlertRule);
  alert_handlers : list Handler
}.

(** The rules of [AlertManager.setup_default_rules], in the order of
    the dict literal. *)
Definition setup_default_rules : list (string * AlertRule) :=
  [("high_cpu",
    {| metric := "cpu_usage"; threshold := inl 90%Q; operator := ">";
       severity := "warning"; message := "CPU usage is above 90%" |});
   ("high_memory",
    {| metric := "memory_usage"; threshold := inl 90%Q; operator := ">";
       severity := "warning"; message := "Memory usage is above 90%" |});
   ("high_disk",
    {| metric := "disk_usage"; threshold := inl 90%Q; operator := ">";
       severity := "critical"; message := "Disk usage is above 90%" |});
   ("high_error_rate",
    {| metric := "error_rate"; threshold := inl 10%Q; operator := ">";
       severity := "critical"; message := "Error rate is above 10%" |});
   ("service_unhealthy",
    {| metric := "service_status"; threshold := inr "unhealthy";
       operator := "=="; severity := "critical";
       message := "Service is unhealthy" |})].

(** [AlertManager.__init__]. *)
Definition AlertManager_init : AlertManager :=
  {| alerts := []; alert_rules := setup_default_rules; alert_handlers := [] |}.

(** [AlertManager.add_alert_handler]. *)
Definition add_alert_handler (handler : Handler) (am : AlertManager)
  : AlertManager :=
  {| alerts := alerts am; alert_rules := alert_rules am;
     alert_handlers := alert_handlers am ++ [handler] |}.

(** The handler loop of [_process_alert]: an exception of a handler that
    [except Exception] catches is logged and the loop goes on; [Some e]
    when a handler raises an [e] that is not caught, which leaves the
    loop. *)
Fixpoint call_handlers (alert : Alert) (history : list Alert)
  (handlers : list Handler) (w : W) (log : list LogRecord)
  : option E * W * list LogRecord :=
  match handlers with
  | [] => (None, w, log)
  | handler :: rest =>
      match handler alert history w with
      | (None, w) => call_handlers alert history rest w log
      | (Some e, w) =>
          if is_exception e then
            call_handlers alert history rest w
              (log ++ [(ERROR, "Alert handler failed: " +:+ str e)])
          else (Some e, w, log)
      end
  end.

(** [AlertManager._process_alert]: [None] when it returns, [Some e] when
    the exception [e] of a handler leaves it. *)
Definition _process_alert (alert : Alert) (am : AlertManager) (w : W)
  (log : list LogRecord) : option E * AlertManager * W * list LogRecord :=
  let am :=
    {| alerts := alerts am ++ [alert]; alert_rules := alert_rules am;
       alert_handlers := alert_handlers am |} in
  match call_handlers alert (alerts am) (alert_handlers am) w log with
  | (None, w, log) =>
      (None, am, w,
       log ++ [(WARNING, "Alert triggered: " +:+ alert_message alert
                         +:+ " (Severity: " +:+ alert_severity alert +:+ ")")])
  | (Some e, w, log) => (Some e, am, w, log)
  end.

(** [AlertManager._evaluate_condition] on a float [value]; ordering a
    float against a string raises [TypeError]. *)
Definition _evaluate_condition (value : Q) (operator : string)
  (threshold : Q + string) : builtin_error + bool :=
  match threshold with
  | inl threshold =>
      if String.eqb operator ">" then inr (Qgtb value threshold)
      else if String.eqb operator "<" then inr (Qgtb threshold value)
      else if String.eqb operator ">=" then inr (Qle_bool threshold value)
      else if String.eqb operator "<=" then inr (Qle_bool value threshold)
      else if String.eqb operator "==" then inr (Qeq_bool value threshold)
      else if String.eqb operator "!=" then inr (negb (Qeq_bool value threshold))
      else inr false
  | inr _ =>
      if String.eqb operator ">" then inl TypeError
      else if String.eqb operator "<" then inl TypeError
      else if String.eqb operator ">=" then inl TypeError
      else if String.eqb operator "<=" then inl TypeError
      else if String.eqb operator "==" then inr false
      else if String.eqb operator "!=" then inr true
      else inr false
  end.

(** [getattr(metrics, name)] for the four names [check_alerts] lets
    through. *)
Definition metric_attr (metrics : SystemMetrics) (name : string) : option Q :=
  if String.eqb name "cpu_usage" then Some (cpu_usage metrics)
  else if String.eqb name "memory_usage" then Some (memory_usage metrics)
  else if String.eqb name "disk_usage" then Some (disk_usage metrics)
  else if String.eqb name "error_rate" then Some (error_rate metrics)
  else None.

(** The first loop of [check_alerts]: one alert per breached rule on a
    scalar metric. *)
Fixpoint metric_alerts (metrics : SystemMetrics)
  (rules : list (string * AlertRule)) (found : list Alert) (w : W)
  : (builtin_error + list Alert) * W :=
  match rules with
  | [] => (inr found, w)
  | (rule_name, rule) :: rest =>
      match metric_attr metrics (metric rule) with
      | Some metric_value =>
          match _evaluate_condition metric_value (operator rule)
                  (threshold rule) with
          | inl err => (inl err, w)
          | inr true =>
              let '(t, w) := time_time w in
              let '(now, w) := utcnow w in
              metric_alerts metrics rest
                (found ++
                 [MetricAlert (rule_name +:+ "_" +:+ pretty (py_int t))
                    rule_name (severity rule) (message rule) (metric rule)
                    metric_value (threshold rule) now])
                w
          | inr false => metric_alerts metrics rest found w
          end
      | None => metric_alerts metrics rest found w
      end
  end.

(** [f"{health.error_message}"] for an optional text. *)
Definition format_optional (s : option string) : string :=
  match s with
  | Some s => s
  | None => "None"
  end.

(** The second loop of [check_alerts]: one alert per unhealthy service. *)
Fixpoint service_alerts (health_status : list (string * ServiceHealth))
  (found : list Alert) (w : W) : list Alert * W :=
  match health_status with
  | [] => (found, w)
  | (service_name, health) :: rest =>
      if String.eqb (status health) "unhealthy" then
        let '(t, w) := time_time w in
        let '(now, w) := utcnow w in
        service_alerts rest
          (found ++
           [ServiceAlert ("service_" +:+ service_name +:+ "_" +:+ pretty (py_int t))
              "service_unhealthy" "critical"
              ("Service " +:+ service_name +:+ " is unhealthy: "
               +:+ format_optional (error_message health))
              service_name now])
          w
      else service_alerts rest found w
  end.

(** The last loop of [check_alerts]: it ends with the last alert, or
    with the first exception that leaves [_process_alert]. *)
Fixpoint process_alerts (found : list Alert) (am : AlertManager) (w : W)
  (log : list LogRecord) : option E * AlertManager * W * list LogRecord :=
  match found with
  | [] => (None, am, w, log)
  | alert :: rest =>
      match _process_alert alert am w log with
      | (None, am, w, log) => process_alerts rest am w log
      | (Some e, am, w, log) => (Some e, am, w, log)
      end
  end.

(** [AlertManager.check_alerts]: [inl err] when a comparison raises while
    the rules are evaluated, [inr (inl e)] when the exception [e] of a
    handler leaves it, [inr (inr tt)] when it returns. *)
Definition check_alerts (metrics : SystemMetrics)
  (health_status : list (string * ServiceHealth)) (am : AlertManager)
  (w : W) (log : list LogRecord)
  : (builtin_error + (E + unit)) * AlertManager * W * list LogRecord :=
  match metric_alerts metrics (alert_rules am) [] w with
  | (inl err, w) => (inl err, am, w, log)
  | (inr found, w) =>
      let '(found, w) := service_alerts health_status found w in
      match process_alerts found am w log with
      | (None, am, w, log) => (inr (inr tt), am, w, log)
      | (Some e, am, w, log) => (inr (inl e), am, w, log)
      end
  end.

(** [AlertManager.get_recent_alerts]; [now] is [datetime.utcnow()]. *)
Definition get_recent_alerts (hours : Z) (now : Z) (am : AlertManager)
  : builtin_error + list Alert :=
  match timedelta (3600 * hours) with
  | inl err => inl err
  | inr td =>
      match datetime_add now (- td) with
      | inl err => inl err
      | inr cutoff_time =>
          inr (List.filter (fun alert => cutoff_time <=? alert_timestamp alert)
                 (alerts am))
      end
  end.

End Services.

End Monitoring.

(** ** Runs used in the statements *)

Module Runs.
Import Retry.

(** A breaker after a series of failed calls, observed at [times]. *)
Definition failures (times : list Q) (cb : CircuitBreaker) : CircuitBreaker :=
  fold_left (fun cb now => on_failure now cb) times cb.

(** A breaker after a series of successful calls. *)
Definition successes (n : nat) (cb : CircuitBreaker) : CircuitBreaker :=
  Nat.iter n on_success cb.

(** The delay a strategy asks for at an attempt, before jitter and
    clamping. *)
Definition strategy_delay (attempt : Z) (config : RetryConfig)
  : builtin_error + Q :=
  match strategy config with
  | FIXED => inr (base_delay config)
  | LINEAR =>
      match py_float attempt with
      | inl err => inl err
      | inr a => inr (base_delay config * a)%Q
      end
  | EXPONENTIAL =>
      match py_pow (backoff_factor config) (attempt - 1) with
      | inl err => inl err
      | inr p => inr (base_delay config * p)%Q
      end
  end.

(** The floats of the delay computation at an attempt stay in range: the
    attempt or the exponent as a float, the power, and the delay of the
    strategy with the largest jitter on it. *)
Definition delay_in_range (attempt : Z) (config : RetryConfig) : bool :=
  match strategy config with
  | FIXED => float_in_range ((11 # 10) * base_delay config)
  | LINEAR =>
      float_in_range (inject_Z attempt)
      && float_in_range ((11 # 10) * (base_delay config * inject_Z attempt))
  | EXPONENTIAL =>
      float_in_range (inject_Z (attempt - 1))
      && float_in_range (Qpower (backoff_factor config) (attempt - 1))
      && float_in_range
           ((11 # 10)
            * (base_delay config * Qpower (backoff_factor config) (attempt - 1)))
  end.

(** The delay in the order the specification words it: the strategy's
    delay is clamped to [max_delay] first, and the jitter, drawn in
    [[0, 0.1 * delay]], is added to the clamped value. *)
Definition calculate_delay_clamp_first (attempt : Z) (config : RetryConfig)
  (r : Q) : builtin_error + Q :=
  match strategy_delay attempt config with
  | inl err => inl err
  | inr delay =>
      let delay := py_min delay (max_delay config) in
      inr (if jitter config
           then (delay + uniform 0 ((1 # 10) * delay) r)%Q
           else delay)
  end.

(** *** Reading the trace of the wrapper *)

Definition is_call (ev : event) : bool :=
  match ev with
  | EvCall _ => true
  | _ => false
  end.

Definition is_on_failure (ev : event) : bool :=
  match ev with
  | EvOnFailure _ => true
  | _ => false
  end.

(** How often the wrapped function was called. *)
Definition calls (trace : list event) : nat :=
  length (List.filter is_call trace).

(** How often [on_failure] was called. *)
Definition failure_calls (trace : list event) : nat :=
  length (List.filter is_on_failure trace).



End Runs.

Module CacheRuns.
Import Cache.

(** A pattern without the wildcard characters at its end, every other
    character kept: the stripping the specification words. *)
Fixpoint strip_trailing_wildcards (pattern : string) : string :=
  match pattern with
  | EmptyString => EmptyString
  | String a rest =>
      match strip_trailing_wildcards rest with
      | EmptyString => if Ascii.eqb a "*" then EmptyString else String a EmptyString
      | rest' => String a rest'
      end
  end.

(** An entry that [now] has not reached yet. *)
Definition live {V : Type} (now : Z) (entry : CacheEntry V) : bool :=
  expires_at entry >? now.

End CacheRuns.

Module MonitoringRuns.
Import Monitoring.

Section Services.
Context {W Details E : Type}.
Variable str : E -> string.
Variable is_exception : E -> bool.
Variable utcnow : W -> Z * W.

(** The outside state in which the check at position [i] of
    [health_checks] runs: the one the loop of [run_all_checks] has
    reached after the checks before it. *)
Definition checks_prefix_world (hc : HealthChecker (Details := Details))
  (w : W) (logged : list LogRecord) (i : nat) : W :=
  world
    (snd (run_checks str is_exception utcnow (take i (health_checks hc))
            {| results := []; statuses := health_status hc; world := w;
               log := logged |})).

(** Every check raises, in the outside state in which it runs, nothing
    but instances of [Exception]. *)
Definition checks_raise_exceptions (hc : HealthChecker (Details := Details))
  (w : W) (logged : list LogRecord) : Prop :=
  forall (i : nat) (name : string)
         (check_func : CheckFunc (W := W) (Details := Details) (E := E))
         (e : E) (after : W),
    health_checks hc !! i = Some (name, check_func) ->
    check_func (checks_prefix_world hc w logged i) = (inl e, after) ->
    is_exception e = true.

(** The record [run_all_checks] files for a check that raised [e],
    with the clock read at [now]. *)
Definition failed_check_record (name : string) (e : E) (now : Z)
  : ServiceHealth (Details := Details) :=
  {| name := name; status := "unhealthy"; response_time := 0;
     last_check := now; error_message := Some (str e); details := None |}.

(** The record filed under the name of a check that runs in the
    outside state [before]: the record the check returns, or the
    record of its failure. *)
Definition filed (name : string)
  (check_func : CheckFunc (W := W) (Details := Details) (E := E))
  (before : W) : ServiceHealth (Details := Details) :=
  match check_func before with
  | (inr record, _) => record
  | (inl e, w) => failed_check_record name e (fst (utcnow w))
  end.

(** Dispatch as the specification words it: every handler is called
    with the alert, one after the other in the order of registration,
    whatever the handlers before it did. The outcomes are listed in
    that order. *)
Fixpoint dispatch_in_order (alert : Alert) (history : list Alert)
  (handlers : list (Handler (W := W) (E := E))) (w : W)
  : list (option E) * W :=
  match handlers with
  | [] => ([], w)
  | handler :: rest =>
      let '(outcome, w) := handler alert history w in
      let '(outcomes, w) := dispatch_in_order alert history rest w in
      (outcome :: outcomes, w)
  end.

(** One [ERROR] record per handler that raised. *)
Fixpoint failure_records (outcomes : list (option E)) : list LogRecord :=
  match outcomes with
  | [] => []
  | Some e :: rest =>
      (ERROR, "Alert handler failed: " +:+ str e) :: failure_records rest
  | None :: rest => failure_records rest
  end.

(** The outcome of a handler that returns, or raises an instance of
    [Exception]. *)
Definition caught (outcome : option E) : Prop :=
  match outcome with
  | Some e => is_exception e = true
  | None => True
  end.

(** The handlers raise nothing but instances of [Exception], whatever
    they are called with. *)
Definition handlers_raise_exceptions
  (handlers : list (Handler (W := W) (E := E))) : Prop :=
  forall (handler : Handler (W := W) (E := E)) (alert : Alert)
         (history : list Alert) (w : W),
    In handler handlers -> caught (fst (handler alert history w)).

End Services.

End MonitoringRuns.

(** ** retry.py: the status functions and the blocking wrapper *)

Module RetryMore.
Import Retry.

(** [CircuitState.value]. *)
Definition CircuitState_value (s : CircuitState) : string :=
  match s with
  | CLOSED => "closed"
  | OPEN => "open"
  | HALF_OPEN => "half_open"
  end.

(** The dict [get_circuit_breaker_status] returns. *)
Record BreakerStatus := mkBreakerStatus {
  status_service : string;
  status_state : string;
  status_failure_count : Z;
  status_success_count : Z;
  status_last_failure_time : option Q;
  status_can_execute : bool
}.

(** [get_circuit_breaker_status]: the entries of the dict are evaluated
    in the order they are written, so the four fields are read before
    [can_execute] is called on the breaker of the registry. *)
Definition get_circuit_breaker_status (service_name : string) (now : Q)
  (m : RetryManager) : (builtin_error + BreakerStatus) * RetryManager :=
  let '(circuit_breaker, m) := get_circuit_breaker service_name m in
  match can_execute now circuit_breaker with
  | inl err => (inl err, m)
  | inr (answer, after) =>
      (inr {| status_service := service_name;
              status_state := CircuitState_value (state circuit_breaker);
              status_failure_count := failure_count circuit_breaker;
              status_success_count := success_count circuit_breaker;
              status_last_failure_time := last_failure_time circuit_breaker;
              status_can_execute := answer |},
       {| circuit_breakers := <[service_name := after]> (circuit_breakers m);
          retry_configs := retry_configs m |})
  end.

(** One call of a method of a breaker. *)
Inductive breaker_call :=
| CallCanExecute (now : Q)
| CallOnSuccess
| CallOnFailure (now : Q).

(** The breaker after the call; a [can_execute] that raises leaves it as
    it is. *)
Definition breaker_step (cb : CircuitBreaker) (c : breaker_call)
  : CircuitBreaker :=
  match c with
  | CallCanExecute now =>
      match can_execute now cb with
      | inr (_, cb') => cb'
      | inl _ => cb
      end
  | CallOnSuccess => on_success cb
  | CallOnFailure now => on_failure now cb
  end.

(** The breaker after a series of calls. *)
Definition breaker_after (calls : list breaker_call) (cb : CircuitBreaker)
  : CircuitBreaker :=
  fold_left breaker_step calls cb.

(** What holds of a breaker made by [CircuitBreaker(threshold, ...)] and
    used through its methods only. *)
Definition breaker_ok (cb : CircuitBreaker) : Prop :=
  0 < failure_threshold cb /\
  (state cb = OPEN -> last_failure_time cb <> None) /\
  0 <= failure_count cb /\
  0 <= success_count cb <= 1 /\
  (state cb = CLOSED ->
   failure_count cb < failure_threshold cb /\ success_count cb = 0).

(** [x < y] on floats. *)
Definition Qltb (x y : Q) : bool := negb (Qle_bool y x).

(** [time.sleep(secs)] converts [secs] to a signed 64-bit count of
    nanoseconds before it looks at the sign: ["timestamp too large to
    convert to C _PyTime_t"] when the count does not fit. *)
Definition sleep_overflows (secs : Q) : bool :=
  Qgtb (Qabs secs * 1000000000) (inject_Z (2 ^ 63)).

Section SyncWrapper.
Context {V E : Type}.

(** What leaves [sync_wrapper] as an exception: the [OverflowError] of
    [time.sleep] on a length outside the range of its clock, its
    [ValueError] on a negative length, or what leaves [async_wrapper]. *)
Inductive sync_raised :=
| SleepOverflowError
| SleepValueError
| Raised (r : raised E).

(** The loop of [sync_wrapper]: the loop of [async_wrapper] with
    [time.sleep(delay)] for [await asyncio.sleep(delay)], which takes
    every length. *)
Fixpoint attempt_loop_sync (env : Environment V E) (config : RetryConfig)
  (attempts : list Z) (circuit_breaker : CircuitBreaker)
  (last_exception : option E) (trace : list event)
  : (sync_raised + V) * CircuitBreaker * list event :=
  match attempts with
  | [] => (inl (Raised (raise_last last_exception)), circuit_breaker, trace)
  | attempt :: rest =>
      match func env attempt with
      | Returns result =>
          (inr result, on_success circuit_breaker,
           trace ++ [EvCall attempt; EvOnSuccess])
      | Raises e =>
          if exceptions env e then
            let last_exception := Some e in
            let now := time_at_failure env attempt in
            let circuit_breaker := on_failure now circuit_breaker in
            let trace := trace ++ [EvCall attempt; EvOnFailure now] in
            if attempt <=? max_retries config then
              match calculate_delay attempt config (random_at env attempt) with
              | inl err => (inl (Raised (Builtin err)), circuit_breaker, trace)
              | inr delay =>
                  if sleep_overflows delay
                  then (inl SleepOverflowError, circuit_breaker, trace)
                  else if Qltb delay 0
                  then (inl SleepValueError, circuit_breaker, trace)
                  else
                    attempt_loop_sync env config rest circuit_breaker
                      last_exception (trace ++ [EvSleep delay])
              end
            else (inl (Raised (raise_last last_exception)), circuit_breaker, trace)
          else
            (inl (Raised (Propagated e)), circuit_breaker,
             trace ++ [EvCall attempt])
      end
  end.

(** [sync_wrapper]. *)
Definition sync_wrapper (s : Settings) (service_name : string)
  (max_retries_arg : option Z) (base_delay_arg : option Q)
  (strategy_arg : option RetryStrategy)
  (env : Environment V E) (m : RetryManager)
  : (sync_raised + V) * RetryManager * list event :=
  let '(circuit_breaker, m) := get_circuit_breaker service_name m in
  let '(config, m) := get_retry_config s service_name m in
  let config :=
    override_config max_retries_arg base_delay_arg strategy_arg config in
  match can_execute (time_at_entry env) circuit_breaker with
  | inl err =>
      (inl (Raised (Builtin err)), store service_name circuit_breaker config m, [])
  | inr (false, circuit_breaker) =>
      (inl (Raised (CircuitOpen service_name)),
       store service_name circuit_breaker config m, [])
  | inr (true, circuit_breaker) =>
      let '(result, circuit_breaker, trace) :=
        attempt_loop_sync env config (py_range 1 (max_retries config + 2))
          circuit_breaker None [] in
      (result, store service_name circuit_breaker config m, trace)
  end.

(** The outcome of [async_wrapper] read as an outcome of [sync_wrapper]. *)
Definition as_sync (r : raised E + V) : sync_raised + V :=
  match r with
  | inl err => inl (Raised err)
  | inr v => inr v
  end.

End SyncWrapper.

Arguments sync_raised : clear implicits.

(** How often the wrapper slept. *)
Definition sleeps (trace : list event) : list Q :=
  omap (fun ev => match ev with EvSleep d => Some d | _ => None end) trace.

End RetryMore.

(** ** cache.py: the decorators and the keyed helpers *)

Module CacheMore.
Import Cache.

(** [CacheKeys]. *)
Definition USER_PROFILE : string := "user:profile".
Definition QUERY_RESULT : string := "query:result".
Definition AI_MODEL_RESPONSE : string := "ai:response".
Definition SESSION_DATA : string := "session:data".

Section Helpers.
Context {V : Type}.

(** [cache_user_profile]; the caller's [expire] defaults to 3600. *)
Definition cache_user_profile (user_id : string) (profile_data : V)
  (expire : Z) (now : Z) (memory_cache : gmap string (CacheEntry V))
  : bool * gmap string (CacheEntry V) :=
  let key := USER_PROFILE +:+ ":" +:+ user_id in
  set key profile_data (Some expire) now memory_cache.

(** [get_cached_user_profile]. *)
Definition get_cached_user_profile (user_id : string) (now : Z)
  (memory_cache : gmap string (CacheEntry V))
  : option V * gmap string (CacheEntry V) :=
  let key := USER_PROFILE +:+ ":" +:+ user_id in
  get key now memory_cache.

(** [cache_query_result]; the caller's [expire] defaults to 1800. *)
Definition cache_query_result (query_hash : string) (result : V)
  (expire : Z) (now : Z) (memory_cache : gmap string (CacheEntry V))
  : bool * gmap string (CacheEntry V) :=
  let key := QUERY_RESULT +:+ ":" +:+ query_hash in
  set key result (Some expire) now memory_cache.

(** [get_cached_query_result]. *)
Definition get_cached_query_result (query_hash : string) (now : Z)
  (memory_cache : gmap string (CacheEntry V))
  : option V * gmap string (CacheEntry V) :=
  let key := QUERY_RESULT +:+ ":" +:+ query_hash in
  get key now memory_cache.

(** [cache_ai_response]; the caller's [expire] defaults to 3600. *)
Definition cache_ai_response (prompt_hash : string) (response : V)
  (expire : Z) (now : Z) (memory_cache : gmap string (CacheEntry V))
  : bool * gmap string (CacheEntry V) :=
  let key := AI_MODEL_RESPONSE +:+ ":" +:+ prompt_hash in
  set key response (Some expire) now memory_cache.

(** [get_cached_ai_response]. *)
Definition get_cached_ai_response (prompt_hash : string) (now : Z)
  (memory_cache : gmap string (CacheEntry V))
  : option V * gmap string (CacheEntry V) :=
  let key := AI_MODEL_RESPONSE +:+ ":" +:+ prompt_hash in
  get key now memory_cache.

(** [invalidate_user_cache]: three patterns cleared one after the other,
    the counts dropped. *)
Definition invalidate_user_cache (user_id : string)
  (memory_cache : gmap string (CacheEntry V)) : gmap string (CacheEntry V) :=
  let patterns :=
    [USER_PROFILE +:+ ":" +:+ user_id;
     QUERY_RESULT +:+ ":*";
     SESSION_DATA +:+ ":" +:+ user_id] in
  fold_left (fun memory_cache pattern => snd (clear_pattern pattern memory_cache))
    patterns memory_cache.

(** [invalidate_query_cache]. *)
Definition invalidate_query_cache (memory_cache : gmap string (CacheEntry V))
  : gmap string (CacheEntry V) :=
  snd (clear_pattern (QUERY_RESULT +:+ ":*") memory_cache).

End Helpers.

Section Decorators.
(** The decorated function takes [Args], acts on the outside state [W]
    and returns a value, [None] for Python's [None], or raises an [E].
    [_generate_key] is the md5 digest of the joined key parts, a
    function of the prefix and the arguments. *)
Context {Args R E W : Type}.
Variable _generate_key : string -> Args -> string.

(** The wrapper built by [cached(prefix, expire)]; [now_get] and
    [now_set] are the readings of the clock in [get] and in [set]. *)
Definition cached (prefix : string) (expire : Z)
  (func : Args -> W -> (E + option R) * W) (args : Args)
  (now_get now_set : Z) (memory_cache : gmap string (CacheEntry (option R)))
  (w : W) : (E + option R) * gmap string (CacheEntry (option R)) * W :=
  let cache_key := _generate_key prefix args in
  match get cache_key now_get memory_cache with
  | (Some (Some cached_result), memory_cache) =>
      (inr (Some cached_result), memory_cache, w)
  | (_, memory_cache) =>
      match func args w with
      | (inl e, w) => (inl e, memory_cache, w)
      | (inr result, w) =>
          let '(_, memory_cache) :=
            set cache_key result (Some expire) now_set memory_cache in
          (inr result, memory_cache, w)
      end
  end.

(** The wrapper built by [invalidate_cache_pattern(pattern)]. *)
Definition invalidate_cache_pattern {V : Type} (pattern : string)
  (func : Args -> W -> (E + R) * W) (args : Args)
  (memory_cache : gmap string (CacheEntry V)) (w : W)
  : (E + R) * gmap string (CacheEntry V) * W :=
  match func args w with
  | (inl e, w) => (inl e, memory_cache, w)
  | (inr result, w) =>
      (inr result, snd (clear_pattern pattern memory_cache), w)
  end.

End Decorators.

(** A character of a hexadecimal digest. *)
Definition is_hex_digit (c : Ascii.ascii) : bool :=
  let n := Ascii.nat_of_ascii c in
  ((48 <=? n)%nat && (n <=? 57)%nat) || ((97 <=? n)%nat && (n <=? 102)%nat).

End CacheMore.

(** ** security.py: the rate limiter on top of the cache *)

Module Security.
Import Cache.

(** [f"rate_limit:{user_id or client_ip}"]; [user_id] is the attribute of
    [request.state], [None] when it is not set. *)
Definition rate_limit_key (user_id : option string) (client_ip : string)
  : string :=
  "rate_limit:" +:+
  match user_id with
  | Some u => if String.eqb u "" then client_ip else u
  | None => client_ip
  end.

(** [check_rate_limit]; [current_time] is [int(time.time())], [now_get]
    and [now_set] are the readings of the clock in [cache_manager.get]
    and [cache_manager.set]. The cached value is the pair
    [(count, window_start_time)]. *)
Definition check_rate_limit (user_id : option string) (client_ip : string)
  (limit window : Z) (current_time now_get now_set : Z)
  (memory_cache : gmap string (CacheEntry (Z * Z)))
  : bool * gmap string (CacheEntry (Z * Z)) :=
  let key := rate_limit_key user_id client_ip in
  match get key now_get memory_cache with
  | (Some (count, window_start_time), memory_cache) =>
      if current_time - window_start_time <? window then
        if limit <=? count then (false, memory_cache)
        else
          (true,
           snd (set key (count + 1, window_start_time) (Some window) now_set
                  memory_cache))
      else
        (true, snd (set key (1, current_time) (Some window) now_set memory_cache))
  | (None, memory_cache) =>
      (true, snd (set key (1, current_time) (Some window) now_set memory_cache))
  end.

(** The three clock readings of one call of [check_rate_limit]. *)
Record Request := mkRequest {
  at_time : Z;
  at_get : Z;
  at_set : Z
}.

(** A series of requests of one client, checked one after the other. *)
Fixpoint check_requests (user_id : option string) (client_ip : string)
  (limit window : Z) (requests : list Request)
  (memory_cache : gmap string (CacheEntry (Z * Z)))
  : list bool * gmap string (CacheEntry (Z * Z)) :=
  match requests with
  | [] => ([], memory_cache)
  | r :: rest =>
      let '(allowed, memory_cache) :=
        check_rate_limit user_id client_ip limit window (at_time r) (at_get r)
          (at_set r) memory_cache in
      let '(others, memory_cache) :=
        check_requests user_id client_ip limit window rest memory_cache in
      (allowed :: others, memory_cache)
  end.

(** The entry of a window can be stored at the time [now_set]: that time
    and the end of the entry's life are datetimes. *)
Definition window_fits (window now_set : Z) : Prop :=
  is_datetime now_set = true /\
  is_datetime (now_set + timedelta_seconds window) = true.

(** What the limiter has stored for a client after an admitted request:
    a count of at least one for the window that began at [start], in an
    entry that lives until [alive] at least. *)
Definition counting (key : string) (count start alive : Z)
  (memory_cache : gmap string (CacheEntry (Z * Z))) : Prop :=
  exists entry : CacheEntry (Z * Z),
    memory_cache !! key = Some entry /\
    value entry = (count, start) /\ alive <= expires_at entry.

End Security.

(** ** monitoring.py: the request figures and the health summary *)

Module MonitoringMore.
Import Monitoring.

(** The request fields of [MetricsCollector.__init__]; [now] is
    [datetime.utcnow()]. *)
Definition MetricsCollector_init (now : Z) : MetricsCollector :=
  {| request_times := []; error_count := 0; total_requests := 0;
     last_reset := now |}.

(** [MetricsCollector._calculate_error_rate]. *)
Definition _calculate_error_rate (mc : MetricsCollector) : Q :=
  if total_requests mc =? 0 then 0%Q
  else (inject_Z (error_count mc) / inject_Z (total_requests mc) * 100)%Q.

(** [sum(xs)]: the elements added from the left, starting at 0; the
    additions are exact here, where the source rounds each of them. *)
Definition py_sum (xs : list Q) : Q := fold_left Qplus xs 0%Q.

(** [MetricsCollector._calculate_avg_response_time]. *)
Definition _calculate_avg_response_time (mc : MetricsCollector) : Q :=
  match request_times mc with
  | [] => 0%Q
  | _ =>
      (py_sum (request_times mc)
       / inject_Z (Z.of_nat (length (request_times mc))))%Q
  end.

(** The request figures of [MetricsCollector.collect_metrics], in the
    order it computes them; [now] is the reading of the clock in
    [_calculate_requests_per_minute]. *)
Definition collect_request_metrics (now : Z) (mc : MetricsCollector)
  : (Z * Q * Q) * MetricsCollector :=
  let '(requests_per_minute, mc) := _calculate_requests_per_minute now mc in
  let error_rate := _calculate_error_rate mc in
  let response_time_avg := _calculate_avg_response_time mc in
  ((requests_per_minute, error_rate, response_time_avg), mc).

(** One call on the request counters of a collector. *)
Inductive collector_call :=
| CallRecordRequest (response_time : Q) (is_error : bool)
| CallRequestsPerMinute (now : Z).

Definition collector_step (mc : MetricsCollector) (c : collector_call)
  : MetricsCollector :=
  match c with
  | CallRecordRequest response_time is_error =>
      record_request response_time is_error mc
  | CallRequestsPerMinute now => snd (_calculate_requests_per_minute now mc)
  end.

(** The collector after a series of calls. *)
Definition collector_after (calls : list collector_call) (mc : MetricsCollector)
  : MetricsCollector :=
  fold_left collector_step calls mc.

(** [d.get(k)] on a dict given by its items. *)
Fixpoint dict_get {A : Type} (k : string) (d : list (string * A)) : option A :=
  match d with
  | [] => None
  | (k', v) :: d' => if String.eqb k' k then Some v else dict_get k d'
  end.

(** The ['rule'] of an alert. *)
Definition alert_rule (a : Alert) : string :=
  match a with
  | MetricAlert _ r _ _ _ _ _ _ => r
  | ServiceAlert _ r _ _ _ _ => r
  end.

(** The ['service'] of an alert, which the alerts on metrics lack. *)
Definition alert_service (a : Alert) : option string :=
  match a with
  | MetricAlert _ _ _ _ _ _ _ _ => None
  | ServiceAlert _ _ _ _ s _ => Some s
  end.

Section Health.
Context {Details : Type}.

(** The overall status [get_health_status] computes from the records of
    [run_all_checks]. *)
Definition overall_status
  (health_checks : list (string * ServiceHealth (Details := Details))) : string :=
  if existsb (fun check => String.eqb (status (snd check)) "unhealthy") health_checks
  then "unhealthy"
  else if existsb (fun check => String.eqb (status (snd check)) "degraded")
            health_checks
  then "degraded"
  else "healthy".

End Health.

End MonitoringMore.

(** * Properties *)

(** ** Comparisons on rationals *)

Lemma Qgtb_true (x y : Q) : Qgtb x y = true <-> (y < x)%Q.
Proof.
  unfold Qgtb. rewrite negb_true_iff. split.
  - intros H. apply Qnot_le_lt. intros Hle.
    apply Qle_bool_iff in Hle. congruence.
  - intros H. destruct (Qle_bool x y) eqn:Hb; [|reflexivity].
    apply Qle_bool_iff in Hb. exfalso. exact (Qlt_not_le _ _ H Hb).
Qed.

Lemma Qgtb_false (x y : Q) : Qgtb x y = false <-> (x <= y)%Q.
Proof.
  unfold Qgtb. rewrite negb_false_iff. apply Qle_bool_iff.
Qed.

(** ** The circuit breaker *)

Module BreakerFacts.
Import Retry Runs.

Lemma on_failure_counts (now : Q) (cb : CircuitBreaker) :
  failure_count (on_failure now cb) = failure_count cb + 1 /\
  last_failure_time (on_failure now cb) = Some now /\
  success_count (on_failure now cb) = success_count cb /\
  failure_threshold (on_failure now cb) = failure_threshold cb /\
  recovery_timeout (on_failure now cb) = recovery_timeout cb.
Proof.
  unfold on_failure. cbn.
  destruct (state cb); cbn;
    destruct (failure_threshold cb <=? failure_count cb + 1); cbn; auto.
Qed.

Lemma on_failure_closed_below (now : Q) (cb : CircuitBreaker) :
  state cb = CLOSED ->
  failure_count cb + 1 < failure_threshold cb ->
  state (on_failure now cb) = CLOSED.
Proof.
  intros Hs Hlt. unfold on_failure. cbn. rewrite Hs. cbn.
  destruct (Z.leb_spec (failure_threshold cb) (failure_count cb + 1)); [lia|].
  cbn. exact Hs.
Qed.

Lemma on_failure_closed_reaches (now : Q) (cb : CircuitBreaker) :
  state cb = CLOSED ->
  failure_threshold cb <= failure_count cb + 1 ->
  state (on_failure now cb) = OPEN.
Proof.
  intros Hs Hle. unfold on_failure. cbn. rewrite Hs. cbn.
  destruct (Z.leb_spec (failure_threshold cb) (failure_count cb + 1)); [|lia].
  reflexivity.
Qed.

Lemma on_failure_half_open (now : Q) (cb : CircuitBreaker) :
  state cb = HALF_OPEN -> state (on_failure now cb) = OPEN.
Proof.
  intros Hs. unfold on_failure. cbn. rewrite Hs. reflexivity.
Qed.

Lemma on_failure_open (now : Q) (cb : CircuitBreaker) :
  state cb = OPEN -> state (on_failure now cb) = OPEN.
Proof.
  intros Hs. unfold on_failure. cbn. rewrite Hs. cbn. exact Hs.
Qed.

Lemma failures_snoc (times : list Q) (now : Q) (cb : CircuitBreaker) :
  failures (times ++ [now]) cb = on_failure now (failures times cb).
Proof. unfold failures. rewrite fold_left_app. reflexivity. Qed.

(** Below the threshold a closed breaker stays closed and counts. *)
Lemma failures_stay_closed (times : list Q) (cb : CircuitBreaker) :
  state cb = CLOSED ->
  failure_count cb + Z.of_nat (length times) < failure_threshold cb ->
  state (failures times cb) = CLOSED /\
  failure_count (failures times cb) = failure_count cb + Z.of_nat (length times) /\
  failure_threshold (failures times cb) = failure_threshold cb.
Proof.
  revert cb. induction times as [|t times IH]; intros cb Hs Hlt.
  - cbn. repeat split; [exact Hs | lia].
  - cbn [length] in Hlt. cbn [failures fold_left].
    destruct (on_failure_counts t cb) as (Hc & _ & _ & Hth & _).
    assert (Hs' : state (on_failure t cb) = CLOSED)
      by (apply on_failure_closed_below; [exact Hs | lia]).
    destruct (IH (on_failure t cb) Hs') as (H1 & H2 & H3).
    + rewrite Hc, Hth. lia.
    + fold (failures times (on_failure t cb)).
      rewrite H1, H2, H3, Hc, Hth. cbn [length]. repeat split; lia.
Qed.

Lemma can_execute_open (now last : Q) (cb : CircuitBreaker) :
  state cb = OPEN ->
  last_failure_time cb = Some last ->
  can_execute now cb =
    if Qgtb (now - last)%Q (recovery_timeout cb)
    then inr (true, set_state HALF_OPEN cb)
    else inr (false, cb).
Proof.
  intros Hs Hl. unfold can_execute. rewrite Hs, Hl. reflexivity.
Qed.

End BreakerFacts.

Module CircuitBreakerSpec.
Import Retry Runs BreakerFacts.

Lemma failures_keep_timeout (times : list Q) (cb : CircuitBreaker) :
  recovery_timeout (failures times cb) = recovery_timeout cb.
Proof.
  revert cb. induction times as [|t times IH]; intros cb; [reflexivity|].
  cbn [failures fold_left]. fold (failures times (on_failure t cb)).
  rewrite IH. apply on_failure_counts.
Qed.

(** C1. A closed breaker with threshold 5 and no failure counted: every
    [on_failure] adds one to [failure_count] and stores the time of the
    call in [last_failure_time]; the breaker is still closed after fewer
    than five failures and open after the fifth. Once open, [can_execute]
    answers [False] and leaves the breaker as it is for as long as
    [now - last_failure_time] does not exceed [recovery_timeout], and the
    first call with [now - last_failure_time > recovery_timeout] moves it
    to half-open and answers [True]. *)
Theorem threshold_five_opens_then_recovers (cb : CircuitBreaker) :
  failure_threshold cb = 5 ->
  state cb = CLOSED ->
  failure_count cb = 0 ->
  (forall (now : Q) (b : CircuitBreaker),
      failure_count (on_failure now b) = failure_count b + 1 /\
      last_failure_time (on_failure now b) = Some now) /\
  (forall times : list Q,
      (length times < 5)%nat ->
      state (failures times cb) = CLOSED /\
      failure_count (failures times cb) = Z.of_nat (length times)) /\
  (forall (times : list Q) (last : Q),
      length times = 4%nat ->
      let opened := failures (times ++ [last]) cb in
      state opened = OPEN /\
      failure_count opened = 5 /\
      last_failure_time opened = Some last /\
      forall now : Q,
        ((now - last <= recovery_timeout cb)%Q ->
         can_execute now opened = inr (false, opened)) /\
        ((recovery_timeout cb < now - last)%Q ->
         can_execute now opened = inr (true, set_state HALF_OPEN opened) /\
         state (set_state HALF_OPEN opened) = HALF_OPEN)).
Proof.
  intros Hth Hs Hc. split; [|split].
  - intros now b. destruct (on_failure_counts now b) as (H1 & H2 & _). auto.
  - intros times Hlen.
    destruct (failures_stay_closed times cb Hs) as (H1 & H2 & _); [lia|].
    split; [exact H1 | lia].
  - intros times last Hlen opened.
    destruct (failures_stay_closed times cb Hs) as (H1 & H2 & H3); [lia|].
    assert (Hopen : state opened = OPEN).
    { unfold opened. rewrite failures_snoc.
      apply on_failure_closed_reaches; [exact H1 | lia]. }
    assert (Hlast : last_failure_time opened = Some last).
    { unfold opened. rewrite failures_snoc. apply on_failure_counts. }
    assert (Hcount : failure_count opened = 5).
    { unfold opened. rewrite failures_snoc.
      destruct (on_failure_counts last (failures times cb)) as (Hk & _).
      rewrite Hk, H2. lia. }
    assert (Hto : recovery_timeout opened = recovery_timeout cb)
      by apply failures_keep_timeout.
    repeat split; try assumption.
    + intros Hle. rewrite (can_execute_open now last opened Hopen Hlast).
      rewrite Hto. apply Qgtb_false in Hle. rewrite Hle. reflexivity.
    + rewrite (can_execute_open now last opened Hopen Hlast).
      rewrite Hto. apply Qgtb_true in H. rewrite H. reflexivity.
Qed.

Lemma threshold_five_opens_then_recovers_witness :
  let opened := failures ([1; 2; 3; 4] ++ [5])%Q CircuitBreaker_default in
  state (failures [1; 2; 3]%Q CircuitBreaker_default) = CLOSED /\
  state opened = OPEN /\
  can_execute 65%Q opened = inr (false, opened) /\
  can_execute 66%Q opened = inr (true, set_state HALF_OPEN opened).
Proof.
  destruct (threshold_five_opens_then_recovers CircuitBreaker_default
              eq_refl eq_refl eq_refl) as (_ & Hclosed & Hopened).
  destruct (Hclosed [1; 2; 3]%Q) as (Hc & _); [cbn; lia|].
  destruct (Hopened [1; 2; 3; 4]%Q 5%Q eq_refl) as (Ho & _ & _ & Hcan).
  destruct (Hcan 65%Q) as (Hfalse & _).
  destruct (Hcan 66%Q) as (_ & Htrue).
  intros opened. split; [exact Hc | split; [exact Ho | split]].
  - apply Hfalse. vm_compute. discriminate.
  - apply Htrue. vm_compute. reflexivity.
Defined.

(** [on_success] does nothing outside the half-open state. *)
Lemma on_success_elsewhere (cb : CircuitBreaker) :
  state cb <> HALF_OPEN -> on_success cb = cb.
Proof.
  intros Hs. unfold on_success. destruct (state cb); cbn; congruence.
Qed.

(** In the half-open state [on_success] counts, and closes the breaker
    with both counters at zero once the count reaches two. *)
Lemma on_success_half_open (cb : CircuitBreaker) :
  state cb = HALF_OPEN ->
  (success_count cb + 1 < 2 ->
   on_success cb = set_success_count (success_count cb + 1) cb) /\
  (2 <= success_count cb + 1 ->
   state (on_success cb) = CLOSED /\
   failure_count (on_success cb) = 0 /\
   success_count (on_success cb) = 0).
Proof.
  intros Hs. unfold on_success. rewrite Hs. cbn.
  destruct (Z.leb_spec 2 (success_count cb + 1)); split; intros; try lia; auto.
Qed.

(** Two successes in a row close a half-open breaker that starts its
    probation with no success counted. *)
Lemma two_successes_close (cb : CircuitBreaker) :
  state cb = HALF_OPEN ->
  success_count cb = 0 ->
  state (on_success cb) = HALF_OPEN /\
  state (successes 2 cb) = CLOSED /\
  failure_count (successes 2 cb) = 0 /\
  success_count (successes 2 cb) = 0.
Proof.
  intros Hs Hc.
  destruct (on_success_half_open cb Hs) as (Hone & _).
  assert (Hfirst : on_success cb = set_success_count 1 cb)
    by (rewrite Hone by lia; rewrite Hc; reflexivity).
  change (successes 2 cb) with (on_success (on_success cb)).
  rewrite Hfirst. split; [exact Hs|].
  apply on_success_half_open; [exact Hs | cbn; lia].
Qed.

(** C2, at the run the source gets wrong. The default breaker is opened by
    five failures and let through after the recovery time; its first
    probation sees one success and then a failure, which opens it again
    with [success_count] still at 1. In the next probation a single
    success closes it. *)
Theorem stale_success_count_closes_after_one_success :
  let opened := failures [1; 2; 3; 4; 5]%Q CircuitBreaker_default in
  let probation1 := set_state HALF_OPEN opened in
  let reopened := on_failure 70%Q (on_success probation1) in
  let probation2 := set_state HALF_OPEN reopened in
  can_execute 66%Q opened = inr (true, probation1) /\
  state (on_success probation1) = HALF_OPEN /\
  state reopened = OPEN /\
  success_count reopened = 1 /\
  can_execute 131%Q reopened = inr (true, probation2) /\
  state probation2 = HALF_OPEN /\
  state (on_success probation2) = CLOSED.
Proof. vm_compute. repeat split. Qed.

End CircuitBreakerSpec.

(** ** The backoff delay *)

Module DelaySpec.
Import Retry Runs.

Lemma py_min_le_r (a b : Q) : (py_min a b <= b)%Q.
Proof.
  unfold py_min. destruct (Qgtb a b) eqn:Hg.
  - apply Qle_refl.
  - apply Qgtb_false. exact Hg.
Qed.

Lemma py_min_le_l (a b : Q) : (py_min a b <= a)%Q.
Proof.
  unfold py_min. destruct (Qgtb a b) eqn:Hg.
  - apply Qlt_le_weak, Qgtb_true. exact Hg.
  - apply Qle_refl.
Qed.

Lemma py_min_cases (a b : Q) :
  ((a <= b)%Q /\ py_min a b = a) \/ ((b < a)%Q /\ py_min a b = b).
Proof.
  unfold py_min. destruct (Qgtb a b) eqn:Hg.
  - right. split; [apply Qgtb_true; exact Hg | reflexivity].
  - left. split; [apply Qgtb_false; exact Hg | reflexivity].
Qed.

(** A draw [r] of [random()] lies in [[0, 1]], so the jitter on a
    non-negative delay lies in [[0, 0.1 * delay]]. *)
Lemma uniform_jitter_range (delay r : Q) :
  (0 <= delay)%Q -> (0 <= r)%Q -> (r <= 1)%Q ->
  (0 <= uniform 0 ((1 # 10) * delay) r)%Q /\
  (uniform 0 ((1 # 10) * delay) r <= (1 # 10) * delay)%Q.
Proof.
  intros Hd Hr0 Hr1. unfold uniform.
  assert (Hb : (0 <= (1 # 10) * delay)%Q)
    by (apply Qmult_le_0_compat; [discriminate | exact Hd]).
  assert (Heq : (0 + ((1 # 10) * delay - 0) * r == ((1 # 10) * delay) * r)%Q) by ring.
  rewrite Heq. split.
  - apply Qmult_le_0_compat; assumption.
  - rewrite <- (Qmult_1_r ((1 # 10) * delay)) at 2.
    rewrite !(Qmult_comm ((1 # 10) * delay)).
    apply Qmult_le_compat_r; assumption.
Qed.

Lemma py_float_defined (n : Z) :
  float_in_range (inject_Z n) = true -> py_float n = inr (inject_Z n).
Proof. intros Hn. unfold py_float. rewrite Hn. reflexivity. Qed.

Lemma py_pow_defined (x : Q) (n : Z) :
  0 <= n ->
  float_in_range (inject_Z n) = true ->
  float_in_range (Qpower x n) = true ->
  py_pow x n = inr (Qpower x n).
Proof.
  intros Hn Hexp Hpow. unfold py_pow. rewrite (py_float_defined n Hexp), Hpow.
  destruct (Z.ltb_spec n 0); [lia | reflexivity].
Qed.

(** The strategy's delay at the attempts the retry loop makes, when the
    floats stay in range. *)
Lemma strategy_delay_defined (attempt : Z) (config : RetryConfig) :
  1 <= attempt ->
  delay_in_range attempt config = true ->
  strategy_delay attempt config =
    inr match strategy config with
        | FIXED => base_delay config
        | LINEAR => (base_delay config * inject_Z attempt)%Q
        | EXPONENTIAL =>
            (base_delay config * Qpower (backoff_factor config) (attempt - 1))%Q
        end.
Proof.
  intros Ha Hrange. unfold strategy_delay. unfold delay_in_range in Hrange.
  destruct (strategy config); try reflexivity.
  - apply andb_true_iff in Hrange as (Hrange & _).
    apply andb_true_iff in Hrange as (Hexp & Hpow).
    rewrite py_pow_defined by (try lia; assumption). reflexivity.
  - apply andb_true_iff in Hrange as (Hatt & _).
    rewrite (py_float_defined attempt Hatt). reflexivity.
Qed.

(** A power too large for a float: with the default policy the delay
    of attempt 1025 asks for [2.0 ** 1024], and [calculate_delay] raises
    [OverflowError]. So it does with the linear strategy at an attempt
    that is too large to be converted to a float. *)
Lemma calculate_delay_overflow (r : Q) :
  calculate_delay 1025 (RetryConfig_default default_settings) r
    = inl OverflowError /\
  calculate_delay (2 ^ 1024)
    {| max_retries := 3; base_delay := 1; max_delay := 60; strategy := LINEAR;
       jitter := true; backoff_factor := 2 |} r
    = inl OverflowError.
Proof. split; vm_compute; reflexivity. Qed.

Lemma calculate_delay_unfold (attempt : Z) (config : RetryConfig) (r : Q) :
  calculate_delay attempt config r =
    match strategy_delay attempt config with
    | inl err => inl err
    | inr delay =>
        inr (py_min
               (if jitter config
                then (delay + uniform 0 ((1 # 10) * delay) r)%Q
                else delay)
               (max_delay config))
    end.
Proof.
  unfold calculate_delay, strategy_delay.
  destruct (strategy config); reflexivity.
Qed.

(** C4, refuted as worded. With the fixed strategy, [base_delay = 60],
    [max_delay = 60], jitter on and the draw [1/2], adding the jitter after
    clamping gives 63, while [calculate_delay] returns 60. *)
Lemma clamp_then_jitter_refuted :
  let config :=
    {| max_retries := 3; base_delay := 60; max_delay := 60;
       strategy := FIXED; jitter := true; backoff_factor := 2 |} in
  exists d d' : Q,
    calculate_delay 1 config (1 # 2) = inr d /\
    calculate_delay_clamp_first 1 config (1 # 2) = inr d' /\
    (d == 60)%Q /\ (d' == 63)%Q /\ ~ (d == d')%Q.
Proof.
  cbv zeta. eexists. eexists.
  split; [vm_compute; reflexivity|].
  split; [vm_compute; reflexivity|].
  split; [reflexivity|]. split; [reflexivity|]. discriminate.
Qed.

(** C4, as the source has it. At an attempt of the retry loop whose
    floats stay in range, the delay of the strategy is [base_delay]
    (fixed), [base_delay * attempt] (linear) or
    [base_delay * backoff_factor ^ (attempt - 1)] (exponential). With
    jitter on, the jitter [0.1 * delay * r] of the draw [r] is added to
    that delay before clamping; for a non-negative delay and a draw in
    [[0, 1]] it lies in [[0, 0.1 * delay]]. The sum, or the delay itself
    with jitter off, is then clamped to [max_delay], so the result never
    exceeds [max_delay]. With jitter off, the exponential strategy with
    [base_delay = 1], [backoff_factor = 2] and [max_delay = 60] gives 1, 2
    and 4 at the attempts 1, 2 and 3. *)
Theorem calculate_delay_jitter_then_clamp
  (attempt : Z) (config : RetryConfig) (r : Q) :
  1 <= attempt ->
  delay_in_range attempt config = true ->
  exists delay : Q,
    delay = match strategy config with
            | FIXED => base_delay config
            | LINEAR => (base_delay config * inject_Z attempt)%Q
            | EXPONENTIAL =>
                (base_delay config * Qpower (backoff_factor config) (attempt - 1))%Q
            end /\
    calculate_delay attempt config r =
      inr (py_min
             (if jitter config
              then (delay + uniform 0 ((1 # 10) * delay) r)%Q
              else delay)
             (max_delay config)) /\
    ((0 <= delay)%Q -> (0 <= r)%Q -> (r <= 1)%Q ->
     (0 <= uniform 0 ((1 # 10) * delay) r)%Q /\
     (uniform 0 ((1 # 10) * delay) r <= (1 # 10) * delay)%Q) /\
    (forall d : Q, calculate_delay attempt config r = inr d ->
                   (d <= max_delay config)%Q) /\
    (forall max_retries : Z,
       let exponential :=
         {| max_retries := max_retries; base_delay := 1; max_delay := 60;
            strategy := EXPONENTIAL; jitter := false; backoff_factor := 2 |} in
       calculate_delay 1 exponential r = inr 1%Q /\
       calculate_delay 2 exponential r = inr 2%Q /\
       calculate_delay 3 exponential r = inr 4%Q).
Proof.
  intros Ha Hrange. eexists. split; [reflexivity|].
  assert (Hcalc := calculate_delay_unfold attempt config r).
  rewrite (strategy_delay_defined attempt config Ha Hrange) in Hcalc.
  split; [exact Hcalc|]. split; [|split].
  - intros Hd Hr0 Hr1. apply uniform_jitter_range; assumption.
  - intros d Hd. rewrite Hcalc in Hd. injection Hd as <-. apply py_min_le_r.
  - intros n. cbv zeta. split; [|split]; vm_compute; reflexivity.
Qed.

Lemma calculate_delay_jitter_then_clamp_witness :
  exists delay : Q,
    delay = 60%Q /\
    calculate_delay 1
      {| max_retries := 3; base_delay := 60; max_delay := 60;
         strategy := FIXED; jitter := true; backoff_factor := 2 |} (1 # 2) =
      inr (py_min (delay + uniform 0 ((1 # 10) * delay) (1 # 2))%Q 60%Q).
Proof.
  destruct (calculate_delay_jitter_then_clamp 1
              {| max_retries := 3; base_delay := 60; max_delay := 60;
                 strategy := FIXED; jitter := true; backoff_factor := 2 |}
              (1 # 2)) as (delay & Hd & Hcalc & _); [lia|reflexivity|].
  exists delay. split; [exact Hd|]. exact Hcalc.
Defined.

End DelaySpec.

(** ** The retry loop *)

Module WrapperFacts.
Import Retry Runs DelaySpec.

Lemma py_range_empty (lo hi : Z) : hi <= lo -> py_range lo hi = [].
Proof.
  intros H. unfold py_range.
  replace (Z.to_nat (hi - lo)) with 0%nat by lia. reflexivity.
Qed.

Lemma py_range_cons (lo hi : Z) :
  lo < hi -> py_range lo hi = lo :: py_range (lo + 1) hi.
Proof.
  intros H. unfold py_range.
  replace (Z.to_nat (hi - lo)) with (S (Z.to_nat (hi - (lo + 1)))) by lia.
  cbn [seq map]. f_equal; [lia|].
  rewrite <- seq_shift, map_map.
  apply map_ext. intros i. lia.
Qed.


Lemma calls_app (t1 t2 : list event) : calls (t1 ++ t2) = (calls t1 + calls t2)%nat.
Proof. unfold calls. rewrite List.filter_app, length_app. reflexivity. Qed.

Lemma failure_calls_app (t1 t2 : list event) :
  failure_calls (t1 ++ t2) = (failure_calls t1 + failure_calls t2)%nat.
Proof. unfold failure_calls. rewrite List.filter_app, length_app. reflexivity. Qed.


(** At the attempts the loop makes, a delay computation whose floats
    stay in range does not raise. *)
Lemma calculate_delay_defined (attempt : Z) (config : RetryConfig) (r : Q) :
  1 <= attempt ->
  delay_in_range attempt config = true ->
  exists delay : Q, calculate_delay attempt config r = inr delay.
Proof.
  intros Ha Hrange. rewrite calculate_delay_unfold.
  rewrite (strategy_delay_defined attempt config Ha Hrange). eexists. reflexivity.
Qed.

Section Loop.
Context {V E : Type}.
Variable env : Environment V E.
Variable config : RetryConfig.



End Loop.

End WrapperFacts.

Module RetrySpec.
Import Retry Runs WrapperFacts.

Lemma get_retry_config_after_breaker (s : Settings) (service_name : string)
  (m : RetryManager) :
  fst (get_retry_config s service_name (snd (get_circuit_breaker service_name m)))
  = fst (get_retry_config s service_name m).
Proof.
  unfold get_circuit_breaker, get_retry_config.
  destruct (circuit_breakers m !! service_name); cbn;
    destruct (retry_configs m !! service_name); reflexivity.
Qed.



End RetrySpec.

(** ** Strings *)

Module StringFacts.

Lemma append_cons (a : Ascii.ascii) (s t : string) :
  String a s +:+ t = String a (s +:+ t).
Proof. reflexivity. Qed.

Lemma append_empty (t : string) : EmptyString +:+ t = t.
Proof. reflexivity. Qed.

Lemma prefix_app (sub s : string) :
  String.prefix sub s = true <-> exists post : string, s = sub +:+ post.
Proof.
  revert s. induction sub as [|a sub IH]; intros s.
  - split; [intros _; exists s; reflexivity | intros _; destruct s; reflexivity].
  - destruct s as [|b s]; cbn.
    + split; [discriminate | intros (post & H); discriminate].
    + destruct (Ascii.ascii_dec a b) as [->|Hne].
      * rewrite IH. split; intros (post & H); exists post;
          rewrite append_cons in *; congruence.
      * split; [discriminate|].
        intros (post & H). rewrite append_cons in H. congruence.
Qed.

(** [str_contains] is containment as a literal substring, anywhere. *)
Lemma str_contains_spec (sub s : string) :
  str_contains sub s = true <->
  exists pre post : string, s = pre +:+ sub +:+ post.
Proof.
  split.
  - induction s as [|a s IH]; cbn [str_contains]; rewrite orb_true_iff.
    + intros [H|H]; [|discriminate].
      apply prefix_app in H as (post & H). exists EmptyString, post. exact H.
    + intros [H|H].
      * apply prefix_app in H as (post & H). exists EmptyString, post. exact H.
      * destruct (IH H) as (pre & post & ->).
        exists (String a pre), post. reflexivity.
  - intros (pre & post & ->). induction pre as [|a pre IH].
    + rewrite append_empty.
      assert (Hp : String.prefix sub (sub +:+ post) = true)
        by (apply prefix_app; eexists; reflexivity).
      destruct (sub +:+ post); cbn [str_contains]; rewrite orb_true_iff; left;
        exact Hp.
    + rewrite append_cons. cbn [str_contains]. rewrite orb_true_iff.
      right. exact IH.
Qed.

(** [str_remove c] drops every [c] and nothing else. *)
Lemma str_remove_spec (c : Ascii.ascii) (s : string) :
  String.list_ascii_of_string (str_remove c s) =
  List.filter (fun a => negb (Ascii.eqb a c)) (String.list_ascii_of_string s).
Proof.
  induction s as [|a s IH]; [reflexivity|].
  cbn. destruct (Ascii.eqb a c); cbn; rewrite IH; reflexivity.
Qed.

End StringFacts.

(** ** The cache *)

Module CacheFacts.
Import Cache CacheRuns.

Lemma filter_length_perm {A : Type} (f : A -> bool) (l1 l2 : list A) :
  l1 ≡ₚ l2 -> length (List.filter f l1) = length (List.filter f l2).
Proof.
  induction 1 as [|x l1 l2 _ IH|x y l|l1 l2 l3 _ IH1 _ IH2]; cbn.
  - reflexivity.
  - destruct (f x); cbn; congruence.
  - destruct (f x), (f y); reflexivity.
  - congruence.
Qed.

(** Between two datetimes lies a [timedelta]: the sum of a datetime and
    a number of seconds that is a datetime again can be built. *)
Lemma datetime_after_in_range (now seconds : Z) :
  is_datetime now = true ->
  is_datetime (now + timedelta_seconds seconds) = true ->
  datetime_after now seconds = inr (now + timedelta_seconds seconds).
Proof.
  intros Hnow Hsum. unfold datetime_after, timedelta, datetime_add.
  assert (Hdays : -999999999 <= seconds / 86400 <= 999999999).
  { unfold is_datetime, datetime_max, timedelta_seconds in Hnow, Hsum.
    apply andb_true_iff in Hnow as (Hn0 & Hn1).
    apply andb_true_iff in Hsum as (Hs0 & Hs1).
    apply Z.leb_le in Hn0, Hn1, Hs0, Hs1.
    split; [apply Z.div_le_lower_bound | apply Z.div_le_upper_bound]; lia. }
  destruct (Z.leb_spec (-999999999) (seconds / 86400)); [|lia].
  destruct (Z.leb_spec (seconds / 86400) 999999999); [|lia].
  cbn [andb]. rewrite Hsum. reflexivity.
Qed.

(** A sum that is no datetime cannot be built. *)
Lemma datetime_after_out_of_range (now seconds : Z) :
  is_datetime (now + timedelta_seconds seconds) = false ->
  datetime_after now seconds = inl OverflowError.
Proof.
  intros Hsum. unfold datetime_after, timedelta, datetime_add.
  destruct (_ && _); [|reflexivity]. rewrite Hsum. reflexivity.
Qed.

Section Store.
Context {V : Type}.
Implicit Types (memory_cache : gmap string (CacheEntry V)).

(** [set] with an expiry that is a datetime stores the entry. *)
Lemma set_in_range (key : string) (val : V) (expire : option Z) (now : Z)
  memory_cache :
  is_datetime now = true ->
  is_datetime (now + timedelta_seconds (expire_or_3600 expire)) = true ->
  set key val expire now memory_cache =
    (true,
     <[key := {| value := val;
                 expires_at := now + timedelta_seconds (expire_or_3600 expire) |}]>
       memory_cache).
Proof.
  intros Hnow Hsum. unfold set.
  rewrite (datetime_after_in_range now _ Hnow Hsum). reflexivity.
Qed.

(** [set] with an expiry that is no datetime answers [False] and stores
    nothing. *)
Lemma set_out_of_range (key : string) (val : V) (expire : option Z) (now : Z)
  memory_cache :
  is_datetime (now + timedelta_seconds (expire_or_3600 expire)) = false ->
  set key val expire now memory_cache = (false, memory_cache).
Proof.
  intros Hsum. unfold set.
  rewrite (datetime_after_out_of_range now _ Hsum). reflexivity.
Qed.

(** [expire] with a new expiry that is no datetime answers [False] and
    leaves the entry as it is. *)
Lemma expire_out_of_range (key : string) (seconds now : Z) memory_cache :
  is_datetime (now + timedelta_seconds seconds) = false ->
  expire key seconds now memory_cache = (false, memory_cache).
Proof.
  intros Hsum. unfold expire.
  rewrite (datetime_after_out_of_range now _ Hsum).
  destruct (memory_cache !! key); reflexivity.
Qed.

(** An entry that is not live does not count as active, so the count is
    the same with or without it. *)
Lemma active_keys_without_expired memory_cache key entry now :
  memory_cache !! key = Some entry ->
  expires_at entry <= now ->
  active_keys (get_stats now memory_cache) =
  active_keys (get_stats now (base.delete key memory_cache)).
Proof.
  intros Hk Hexp. unfold get_stats. cbn [active_keys]. f_equal.
  rewrite <- (filter_length_perm _ _ _ (map_to_list_delete memory_cache key entry Hk)).
  cbn [List.filter snd].
  destruct (Z.gtb_spec (expires_at entry) now); [lia | reflexivity].
Qed.

(** The deletion loop of [clear_pattern] on distinct keys of the store. *)
Lemma delete_loop (keys_to_delete : list string) :
  forall (deleted_count : Z) memory_cache,
    NoDup keys_to_delete ->
    (forall key, key ∈ keys_to_delete -> is_Some (memory_cache !! key)) ->
    let r :=
      fold_left
        (fun '(deleted_count, memory_cache) key =>
           (deleted_count + 1, base.delete key memory_cache))
        keys_to_delete (deleted_count, memory_cache) in
    fst r = deleted_count + Z.of_nat (length keys_to_delete) /\
    (size (snd r) + length keys_to_delete = size memory_cache)%nat /\
    forall key,
      snd r !! key =
        if decide (key ∈ keys_to_delete) then None else memory_cache !! key.
Proof.
  induction keys_to_delete as [|k keys IH];
    intros deleted_count memory_cache Hnd Hin r.
  - subst r. cbn. split; [lia|]. split; [lia|].
    intros key. destruct (decide (key ∈ [])) as [H|H]; [|reflexivity].
    inversion H.
  - subst r. cbn [fold_left].
    apply NoDup_cons in Hnd as (Hk & Hnd).
    destruct (IH (deleted_count + 1) (base.delete k memory_cache) Hnd)
      as (Hcount & Hsize & Hlook).
    { intros key Hkey. rewrite lookup_delete_ne.
      - apply Hin. right. exact Hkey.
      - intros ->. exact (Hk Hkey). }
    split; [|split].
    + rewrite Hcount. cbn [length]. lia.
    + rewrite map_size_delete_Some in Hsize by (apply Hin; left).
      assert (size memory_cache <> 0%nat).
      { destruct (Hin k) as (x & Hx); [left|].
        intros H0. apply map_size_empty_iff in H0. subst.
        rewrite lookup_empty in Hx. discriminate. }
      cbn [length]. lia.
    + intros key. rewrite Hlook.
      destruct (decide (key ∈ keys)) as [H|H].
      * rewrite decide_True by (right; exact H). reflexivity.
      * destruct (decide (key = k)) as [->|Hne].
        -- rewrite decide_True by left. apply lookup_delete_eq.
        -- rewrite decide_False, lookup_delete_ne by
             (try (intros Hc; apply elem_of_cons in Hc as [?|?]); congruence).
           reflexivity.
Qed.

End Store.

End CacheFacts.

Module CacheSpec.
Import Cache CacheRuns CacheFacts StringFacts.

(** C5, refuted as worded. An entry stored for one second is still in the
    store after [exists] has looked at it five seconds later: [exists]
    answers [False] and evicts nothing. *)
Lemma exists_keeps_expired_entry :
  let stored := snd (set "k" 7%nat (Some 1) 0 ∅) in
  let looked := exists_ "k" 5000000 stored in
  fst looked = Some false /\
  snd looked !! "k" <> None /\
  total_keys (get_stats 5000000 (snd looked)) = 1.
Proof. vm_compute. repeat split. discriminate. Qed.

(** C5, as the source has it. After [set(key, value, ttl)] at the time
    [now] with a ttl other than 0 for which [now + ttl] is a datetime,
    so that [set] stores the entry, once more than [ttl] seconds have
    passed: [get] returns [None] and removes the entry from the store;
    [exists] returns [False] and leaves the store as it is; the
    active-key count of [get_stats] does not count the entry, removed or
    not. [get] never returns a value and [exists] never answers true for
    an entry whose [expires_at] has been reached. *)
Theorem expired_entry_absent_evicted_by_get {V : Type}
  (key : string) (val : V) (ttl now later : Z)
  (memory_cache : gmap string (CacheEntry V)) :
  ttl <> 0 ->
  is_datetime now = true ->
  is_datetime (now + timedelta_seconds ttl) = true ->
  now + timedelta_seconds ttl < later ->
  let stored := snd (set key val (Some ttl) now memory_cache) in
  get key later stored = (None, base.delete key stored) /\
  base.delete key stored !! key = None /\
  exists_ key later stored = (Some false, stored) /\
  active_keys (get_stats later stored) =
    active_keys (get_stats later (base.delete key stored)) /\
  (forall (mc : gmap string (CacheEntry V)) (k : string) (t : Z) (v : V),
      fst (get k t mc) = Some v ->
      exists entry, mc !! k = Some entry /\ value entry = v /\ t < expires_at entry) /\
  (forall (mc : gmap string (CacheEntry V)) (k : string) (t : Z),
      truthy (fst (exists_ k t mc)) = true ->
      exists entry, mc !! k = Some entry /\ t < expires_at entry).
Proof.
  intros Httl Hnow Hsum Hlater stored.
  set (entry := {| value := val; expires_at := now + timedelta_seconds ttl |}).
  assert (Hstored : stored !! key = Some entry).
  { subst stored.
    assert (Hexpire : expire_or_3600 (Some ttl) = ttl).
    { cbn. destruct (Z.eqb_spec ttl 0); [contradiction | reflexivity]. }
    rewrite set_in_range by (rewrite ?Hexpire; assumption).
    rewrite Hexpire. apply lookup_insert_eq. }
  assert (Hexp : (expires_at entry >? later) = false).
  { cbn. destruct (Z.gtb_spec (now + timedelta_seconds ttl) later); [lia|reflexivity]. }
  split; [|split; [|split; [|split; [|split]]]].
  - unfold get. rewrite Hstored, Hexp. reflexivity.
  - apply lookup_delete_eq.
  - unfold exists_. rewrite Hstored, Hexp. reflexivity.
  - apply (active_keys_without_expired stored key entry later Hstored).
    cbn. lia.
  - intros mc k t v. unfold get.
    destruct (mc !! k) as [e|]; [|discriminate].
    destruct (Z.gtb_spec (expires_at e) t); [|discriminate].
    cbn. intros [= <-]. exists e. repeat split. lia.
  - intros mc k t. unfold exists_.
    destruct (mc !! k) as [e|]; [|discriminate].
    cbn. destruct (Z.gtb_spec (expires_at e) t); [|discriminate].
    intros _. exists e. split; [reflexivity | lia].
Qed.

Lemma expired_entry_absent_evicted_by_get_witness :
  let stored := snd (set "k" 7%nat (Some 1) 0 ∅) in
  get "k" 2000000 stored = (None, base.delete "k" stored) /\
  exists_ "k" 2000000 stored = (Some false, stored).
Proof.
  intros stored.
  destruct (expired_entry_absent_evicted_by_get "k" 7%nat 1 0 2000000 ∅)
    as (Hget & _ & Hexists & _).
  - discriminate.
  - reflexivity.
  - reflexivity.
  - reflexivity.
  - split; [exact Hget | exact Hexists].
Defined.

(** C6, refuted as worded. In the pattern ["a*b"] the wildcard is not at
    the end, so stripping trailing wildcards keeps it, and the key ["ab"]
    does not contain ["a*b"]; [clear_pattern] deletes the key all the
    same. *)
Lemma inner_wildcard_removed :
  let memory_cache : gmap string (CacheEntry nat) :=
    {[ "ab" := {| value := 7%nat; expires_at := 10 |} ]} in
  strip_trailing_wildcards "a*b" = "a*b" /\
  str_contains (strip_trailing_wildcards "a*b") "ab" = false /\
  fst (clear_pattern "a*b" memory_cache) = 1 /\
  snd (clear_pattern "a*b" memory_cache) !! "ab" = None.
Proof. vm_compute. repeat split. Qed.

(** C6, as the source has it. [clear_pattern] removes every ['*'] of the
    pattern, wherever it stands, and deletes exactly the keys that contain
    what remains as a literal substring anywhere; every other key keeps
    its entry. The number returned is the number of keys deleted, which is
    the number of keys of the store containing that substring. So
    ["user:*"] clears by containment of ["user:"] and ["user:profile"] by
    containment of itself. *)
Theorem clear_pattern_by_substring {V : Type} (pattern : string)
  (memory_cache : gmap string (CacheEntry V)) :
  let literal := str_remove "*" pattern in
  let cleared := clear_pattern pattern memory_cache in
  String.list_ascii_of_string literal =
    List.filter (fun a => negb (Ascii.eqb a "*"))
      (String.list_ascii_of_string pattern) /\
  (forall key : string,
      snd cleared !! key =
        if str_contains literal key then None else memory_cache !! key) /\
  (forall key : string,
      str_contains literal key = true <->
      exists pre post : string, key = pre +:+ literal +:+ post) /\
  fst cleared = Z.of_nat (size memory_cache) - Z.of_nat (size (snd cleared)) /\
  fst cleared =
    Z.of_nat (length (List.filter (str_contains literal)
                        (map fst (map_to_list memory_cache)))) /\
  str_remove "*" "user:*" = "user:" /\
  str_remove "*" "user:profile" = "user:profile".
Proof.
  intros literal cleared.
  split; [apply str_remove_spec|].
  set (keys := List.filter (str_contains literal)
                 (map fst (map_to_list memory_cache))).
  assert (Hin : forall key, key ∈ keys <->
                  is_Some (memory_cache !! key) /\ str_contains literal key = true).
  { intros key. subst keys. rewrite list_elem_of_In, filter_In, <- list_elem_of_In.
    change (map fst (map_to_list memory_cache)) with ((map_to_list memory_cache).*1).
    rewrite list_elem_of_fmap. split.
    - intros ((kv & -> & Hkv) & Hc). split; [|exact Hc].
      destruct kv as [k e]. apply elem_of_map_to_list in Hkv. eexists. exact Hkv.
    - intros ((e & He) & Hc). split; [|exact Hc].
      exists (key, e). split; [reflexivity|]. apply elem_of_map_to_list. exact He. }
  assert (Hnd : NoDup keys).
  { subst keys. apply NoDup_ListNoDup, List.NoDup_filter, NoDup_ListNoDup.
    apply NoDup_fst_map_to_list. }
  destruct (delete_loop keys 0 memory_cache Hnd) as (Hcount & Hsize & Hlook).
  { intros key Hkey. apply Hin in Hkey. tauto. }
  change (fold_left _ keys (0, memory_cache)) with cleared in Hcount, Hsize, Hlook.
  split; [|split; [|split; [|split]]].
  - intros key. rewrite Hlook.
    destruct (decide (key ∈ keys)) as [Hk|Hk].
    + apply Hin in Hk as (_ & ->). reflexivity.
    + destruct (str_contains literal key) eqn:Hc; [|reflexivity].
      destruct (memory_cache !! key) as [e|] eqn:He; [|reflexivity].
      exfalso. apply Hk, Hin. split; [exists e; exact He | exact Hc].
  - intros key. apply str_contains_spec.
  - lia.
  - rewrite Hcount. reflexivity.
  - split; reflexivity.
Qed.

(** C10. A key that is still in the store with its [expires_at] reached,
    for which [get] would return [None] and [exists] would answer
    [False]: [expire(key, seconds)], called at the time [now] with
    [now + seconds] a datetime, does not treat it as missing; it returns
    [True] and stores [now + seconds] as the new [expires_at], and from
    then until that time [get] returns the old value again. *)
Theorem expire_revives_expired_entry {V : Type} (key : string)
  (entry : CacheEntry V) (seconds now later : Z)
  (memory_cache : gmap string (CacheEntry V)) :
  memory_cache !! key = Some entry ->
  expires_at entry <= now ->
  is_datetime now = true ->
  is_datetime (now + timedelta_seconds seconds) = true ->
  later < now + timedelta_seconds seconds ->
  get key now memory_cache = (None, base.delete key memory_cache) /\
  exists_ key now memory_cache = (Some false, memory_cache) /\
  let revived := snd (expire key seconds now memory_cache) in
  fst (expire key seconds now memory_cache) = true /\
  revived !! key =
    Some {| value := value entry;
            expires_at := now + timedelta_seconds seconds |} /\
  get key later revived = (Some (value entry), revived).
Proof.
  intros Hk Hexp Hnow Hsum Hlater.
  assert (Hdead : (expires_at entry >? now) = false)
    by (destruct (Z.gtb_spec (expires_at entry) now); [lia|reflexivity]).
  split; [unfold get; rewrite Hk, Hdead; reflexivity|].
  split; [unfold exists_; rewrite Hk, Hdead; reflexivity|].
  unfold expire. rewrite Hk, (datetime_after_in_range now seconds Hnow Hsum).
  cbn [fst snd].
  split; [reflexivity|]. split; [apply lookup_insert_eq|].
  unfold get. rewrite lookup_insert_eq. cbn [expires_at value].
  destruct (Z.gtb_spec (now + timedelta_seconds seconds) later); [reflexivity|lia].
Qed.

Lemma expire_revives_expired_entry_witness :
  let memory_cache : gmap string (CacheEntry nat) :=
    {[ "k" := {| value := 7%nat; expires_at := 1000000 |} ]} in
  get "k" 5000000 memory_cache = (None, base.delete "k" memory_cache) /\
  fst (expire "k" 60 5000000 memory_cache) = true /\
  get "k" 6000000 (snd (expire "k" 60 5000000 memory_cache)) =
    (Some 7%nat, snd (expire "k" 60 5000000 memory_cache)).
Proof.
  intros memory_cache.
  destruct (expire_revives_expired_entry "k"
              {| value := 7%nat; expires_at := 1000000 |} 60 5000000 6000000
              memory_cache)
    as (Hget & _ & Htrue & _ & Hagain).
  - reflexivity.
  - cbn. lia.
  - reflexivity.
  - reflexivity.
  - reflexivity.
  - split; [exact Hget|]. split; [exact Htrue | exact Hagain].
Defined.

End CacheSpec.

(** ** Monitoring *)

Module MetricsSpec.
Import Monitoring.

(** C7, refuted as worded. Five requests were counted in a window that
    began at time 0; the computation made sixty seconds later reports 0,
    not the 5 of the window that ends. *)
Lemma window_total_not_reported :
  let mc :=
    {| request_times := []; error_count := 1; total_requests := 5;
       last_reset := 0 |} in
  total_requests mc = 5 /\
  fst (_calculate_requests_per_minute 60000000 mc) = 0 /\
  fst (_calculate_requests_per_minute 60000000 mc) <> total_requests mc.
Proof. cbv zeta. vm_compute. repeat split. discriminate. Qed.

(** C7, as the source has it. [record_request] adds one to the request
    counter, and one to the error counter for an error, and leaves the
    reset time alone. A computation made sixty seconds or more after the
    last reset sets both counters to zero, moves the reset time to now
    and reports 0; the total of the window that ends is dropped. A
    computation made earlier reports the running total and changes
    nothing. *)
Theorem tumbling_window_reports_zero_on_reset (now : Z) (mc : MetricsCollector) :
  (forall (response_time : Q) (is_error : bool),
      total_requests (record_request response_time is_error mc)
        = total_requests mc + 1 /\
      error_count (record_request response_time is_error mc)
        = error_count mc + (if is_error then 1 else 0) /\
      last_reset (record_request response_time is_error mc) = last_reset mc) /\
  (timedelta_seconds 60 <= now - last_reset mc ->
   _calculate_requests_per_minute now mc =
     (0, {| request_times := request_times mc; error_count := 0;
            total_requests := 0; last_reset := now |})) /\
  (now - last_reset mc < timedelta_seconds 60 ->
   _calculate_requests_per_minute now mc = (total_requests mc, mc)).
Proof.
  split; [|split].
  - intros response_time is_error. cbn. destruct is_error; repeat split; lia.
  - intros H. unfold _calculate_requests_per_minute.
    destruct (Z.leb_spec (timedelta_seconds 60) (now - last_reset mc)); [reflexivity|lia].
  - intros H. unfold _calculate_requests_per_minute.
    destruct (Z.leb_spec (timedelta_seconds 60) (now - last_reset mc)); [lia|reflexivity].
Qed.

Lemma tumbling_window_reports_zero_on_reset_witness :
  let mc :=
    {| request_times := []; error_count := 1; total_requests := 5;
       last_reset := 0 |} in
  _calculate_requests_per_minute 59999999 mc = (5, mc) /\
  _calculate_requests_per_minute 60000000 mc =
    (0, {| request_times := []; error_count := 0; total_requests := 0;
           last_reset := 60000000 |}).
Proof.
  intros mc.
  destruct (tumbling_window_reports_zero_on_reset 59999999 mc) as (_ & _ & Hrun).
  destruct (tumbling_window_reports_zero_on_reset 60000000 mc) as (_ & Hreset & _).
  split.
  - apply Hrun. reflexivity.
  - apply Hreset. vm_compute. discriminate.
Defined.

End MetricsSpec.

Module MonitoringFacts.
Import Monitoring MonitoringRuns.

Lemma dict_set_fresh {A : Type} (k : string) (v : A) (d : list (string * A)) :
  k ∉ map fst d -> dict_set k v d = d ++ [(k, v)].
Proof.
  induction d as [|[k' v'] d IH]; intros Hk; [reflexivity|].
  cbn in *. apply not_elem_of_cons in Hk as (Hne & Hk).
  destruct (String.eqb_spec k' k); [congruence|].
  rewrite IH by exact Hk. reflexivity.
Qed.

Lemma dict_set_keys {A : Type} (k : string) (v : A) (d : list (string * A)) :
  map fst (dict_set k v d) =
    if decide (k ∈ map fst d) then map fst d else map fst d ++ [k].
Proof.
  induction d as [|[k' v'] d IH]; [reflexivity|].
  cbn. destruct (String.eqb_spec k' k) as [->|Hne].
  - rewrite decide_True by left. reflexivity.
  - cbn. rewrite IH. destruct (decide (k ∈ map fst d)) as [H|H].
    + rewrite decide_True by (right; exact H). reflexivity.
    + rewrite decide_False; [reflexivity|].
      intros Hc. apply elem_of_cons in Hc as [?|?]; congruence.
Qed.

(** Registering keeps the names of the registry distinct. *)
Lemma dict_set_NoDup {A : Type} (k : string) (v : A) (d : list (string * A)) :
  NoDup (map fst d) -> NoDup (map fst (dict_set k v d)).
Proof.
  intros Hnd. rewrite dict_set_keys.
  destruct (decide (k ∈ map fst d)) as [H|H]; [exact Hnd|].
  apply NoDup_app. split; [exact Hnd|]. split.
  - intros x Hx Hx'. apply list_elem_of_singleton in Hx'. congruence.
  - apply NoDup_singleton.
Qed.

Section Services.
Context {W Details E : Type}.
Variable str : E -> string.
Variable is_exception : E -> bool.
Variable utcnow : W -> Z * W.

Abbreviation CheckRun := (CheckRun (W := W) (Details := Details)).
Abbreviation CheckFunc := (CheckFunc (W := W) (Details := Details) (E := E)).
Abbreviation run_check := (run_check str is_exception utcnow).
Abbreviation run_checks := (run_checks str is_exception utcnow).

(** One turn of the loop for a check that returns or raises an instance
    of [Exception]: the loop goes on, with the record of the check
    filed. *)
Lemma run_check_caught (st : CheckRun) (name : string) (check_func : CheckFunc) :
  (forall (e : E) (after : W),
      check_func (world st) = (inl e, after) -> is_exception e = true) ->
  fst (run_check st (name, check_func)) = None /\
  results (snd (run_check st (name, check_func))) =
    dict_set name (filed str utcnow name check_func (world st)) (results st).
Proof.
  intros Hcaught. unfold Monitoring.run_check, filed.
  destruct (check_func (world st)) as [[e|record] w]; [|split; reflexivity].
  rewrite (Hcaught e w eq_refl).
  destruct (utcnow w) as [now w']. split; reflexivity.
Qed.

(** The stored statuses follow the checks that return, whatever the
    others raise. *)
Lemma run_check_statuses (st : CheckRun) (name : string) (check_func : CheckFunc) :
  statuses (snd (run_check st (name, check_func))) =
    match check_func (world st) with
    | (inr record, _) => dict_set name record (statuses st)
    | (inl _, _) => statuses st
    end.
Proof.
  unfold Monitoring.run_check.
  destruct (check_func (world st)) as [[e|record] w]; [|reflexivity].
  destruct (is_exception e); [|reflexivity].
  destruct (utcnow w) as [now w']. reflexivity.
Qed.

(** The loop after a first turn that does not leave it. *)
Lemma run_checks_cons (item : string * CheckFunc)
  (items : list (string * CheckFunc)) (st : CheckRun) :
  fst (run_check st item) = None ->
  run_checks (item :: items) st = run_checks items (snd (run_check st item)).
Proof.
  intros Hgo. cbn [Monitoring.run_checks].
  destruct (run_check st item) as [[e|] st1]; [discriminate | reflexivity].
Qed.

(** The loop of [run_all_checks] over distinct names that have no
    result yet, when no check raises anything but instances of
    [Exception]: it runs to its end and appends one result per check, in
    order. *)
Lemma run_checks_append (items : list (string * CheckFunc)) :
  forall st : CheckRun,
    NoDup (map fst items) ->
    (forall k, k ∈ map fst items -> k ∉ map fst (results st)) ->
    (forall (i : nat) (name : string) (check_func : CheckFunc)
            (e : E) (after : W),
        items !! i = Some (name, check_func) ->
        check_func (world (snd (run_checks (take i items) st))) = (inl e, after) ->
        is_exception e = true) ->
    exists new : list (string * ServiceHealth),
      fst (run_checks items st) = None /\
      results (snd (run_checks items st)) = results st ++ new /\
      map fst new = map fst items /\
      forall (i : nat) (name : string) (check_func : CheckFunc),
        items !! i = Some (name, check_func) ->
        new !! i =
          Some (name,
                filed str utcnow name check_func
                  (world (snd (run_checks (take i items) st)))).
Proof.
  induction items as [|[name check_func] items IH]; intros st Hnd Hfresh Hcaught.
  - exists []. cbn. rewrite app_nil_r. repeat split.
    intros i n f Hi. destruct i; discriminate.
  - cbn [map fst] in Hnd, Hfresh. apply NoDup_cons in Hnd as (Hname & Hnd).
    destruct (run_check_caught st name check_func) as (Hgo & Hres0).
    { intros e after He. exact (Hcaught 0%nat name check_func e after eq_refl He). }
    set (st1 := snd (run_check st (name, check_func))) in *.
    assert (Hstep : forall rest : list (string * CheckFunc),
               run_checks ((name, check_func) :: rest) st = run_checks rest st1).
    { intros rest. apply run_checks_cons. exact Hgo. }
    assert (Hres : results st1 =
              results st ++ [(name, filed str utcnow name check_func (world st))]).
    { rewrite Hres0. apply dict_set_fresh. apply Hfresh. left. }
    destruct (IH st1 Hnd) as (new & Hend & Hnew & Hkeys & Hat).
    { intros k Hk. rewrite Hres, map_app. cbn.
      intros Hc. apply elem_of_app in Hc as [Hc|Hc].
      - apply (Hfresh k); [right; exact Hk | exact Hc].
      - apply list_elem_of_singleton in Hc. subst k. exact (Hname Hk). }
    { intros i n f e after Hi He.
      apply (Hcaught (S i) n f e after Hi).
      cbn [take]. rewrite Hstep. exact He. }
    exists ((name, filed str utcnow name check_func (world st)) :: new).
    rewrite Hstep. split; [exact Hend|]. split; [|split].
    + rewrite Hnew, Hres, <- app_assoc. reflexivity.
    + cbn. rewrite Hkeys. reflexivity.
    + intros i n f Hi. destruct i as [|i].
      * cbn in Hi. injection Hi as <- <-. reflexivity.
      * cbn in Hi. cbn [take]. rewrite Hstep. exact (Hat i n f Hi).
Qed.

End Services.

End MonitoringFacts.

Module HealthSpec.
Import Monitoring MonitoringRuns MonitoringFacts.




End HealthSpec.

Module AlertFacts.
Import Monitoring MonitoringRuns.

Section Services.
Context {W E : Type}.
Variable str : E -> string.
Variable is_exception : E -> bool.

Abbreviation Handler := (Handler (W := W) (E := E)).
Abbreviation AlertManager := (AlertManager (W := W) (E := E)).


(** Handlers that raise nothing but instances of [Exception] have
    outcomes that are caught. *)
Lemma dispatch_caught (alert : Alert) (history : list Alert)
  (handlers : list Handler) :
  handlers_raise_exceptions is_exception handlers ->
  forall w : W,
    Forall (caught is_exception)
      (fst (dispatch_in_order alert history handlers w)).
Proof.
  induction handlers as [|handler rest IH]; intros Hall w; [constructor|].
  cbn [dispatch_in_order].
  pose proof (Hall handler alert history w (or_introl eq_refl)) as Hfirst.
  destruct (handler alert history w) as [outcome w1].
  assert (Hrest : handlers_raise_exceptions is_exception rest).
  { intros h a hist w' Hin. apply Hall. right. exact Hin. }
  specialize (IH Hrest w1).
  destruct (dispatch_in_order alert history rest w1) as [outcomes w2].
  constructor; assumption.
Qed.

(** When every outcome is caught, the handler loop of [_process_alert]
    calls the handlers as the dispatch in order does, and logs the
    failures. *)
Lemma handler_loop_dispatch (alert : Alert) (history : list Alert)
  (handlers : list Handler) :
  forall (w : W) (logged : list LogRecord),
    Forall (caught is_exception)
      (fst (dispatch_in_order alert history handlers w)) ->
    call_handlers str is_exception alert history handlers w logged =
      (None,
       snd (dispatch_in_order alert history handlers w),
       logged ++ failure_records str
                   (fst (dispatch_in_order alert history handlers w))).
Proof.
  induction handlers as [|handler rest IH]; intros w logged Hcaught.
  - cbn. rewrite app_nil_r. reflexivity.
  - cbn [call_handlers dispatch_in_order] in *.
    destruct (handler alert history w) as [[e|] w1];
      destruct (dispatch_in_order alert history rest w1) as [outcomes w2] eqn:Hd;
      cbn [fst snd] in *; apply Forall_cons in Hcaught as (Hfirst & Hrest).
    + cbn in Hfirst. rewrite Hfirst, IH by (rewrite Hd; exact Hrest).
      rewrite Hd. cbn. rewrite <- app_assoc. reflexivity.
    + rewrite IH by (rewrite Hd; exact Hrest). rewrite Hd. reflexivity.
Qed.

(** The alert is in the history after [_process_alert], whatever the
    handlers do. *)
Lemma process_alert_manager (alert : Alert) (am : AlertManager) (w : W)
  (logged : list LogRecord) :
  snd (fst (fst (_process_alert str is_exception alert am w logged))) =
    {| alerts := alerts am ++ [alert]; alert_rules := alert_rules am;
       alert_handlers := alert_handlers am |}.
Proof.
  unfold _process_alert. cbn [alerts alert_handlers alert_rules].
  destruct (call_handlers _ _ _ _ _ _ _) as [[[e|] w1] log1]; reflexivity.
Qed.

(** [_process_alert] returns when every handler's exception is caught. *)
Lemma process_alert_returns (alert : Alert) (am : AlertManager) (w : W)
  (logged : list LogRecord) :
  handlers_raise_exceptions is_exception (alert_handlers am) ->
  fst (fst (fst (_process_alert str is_exception alert am w logged))) = None.
Proof.
  intros Hall. unfold _process_alert. cbn [alerts alert_handlers alert_rules].
  rewrite handler_loop_dispatch by (apply dispatch_caught; exact Hall).
  reflexivity.
Qed.

(** Processing a list of alerts with handlers that raise nothing but
    instances of [Exception] files all of them and changes neither the
    rules nor the handlers. *)
Lemma process_alerts_manager (found : list Alert) :
  forall (am : AlertManager) (w : W) (logged : list LogRecord),
    handlers_raise_exceptions is_exception (alert_handlers am) ->
    fst (fst (fst (process_alerts str is_exception found am w logged))) = None /\
    snd (fst (fst (process_alerts str is_exception found am w logged))) =
      {| alerts := alerts am ++ found; alert_rules := alert_rules am;
         alert_handlers := alert_handlers am |}.
Proof.
  induction found as [|alert rest IH]; intros am w logged Hall.
  - cbn. rewrite app_nil_r. destruct am; split; reflexivity.
  - cbn [process_alerts].
    pose proof (process_alert_manager alert am w logged) as Hone.
    pose proof (process_alert_returns alert am w logged Hall) as Hret.
    destruct (_process_alert str is_exception alert am w logged)
      as [[[o am1] w1] log1].
    cbn [fst snd] in Hone, Hret. subst o am1.
    destruct (IH {| alerts := alerts am ++ [alert]; alert_rules := alert_rules am;
                    alert_handlers := alert_handlers am |} w1 log1 Hall)
      as (Hnone & Hfiled).
    split; [exact Hnone|]. rewrite Hfiled. cbn. rewrite <- app_assoc. reflexivity.
Qed.

End Services.

End AlertFacts.

Module AlertSpec.
Import Monitoring MonitoringRuns AlertFacts.




End AlertSpec.

(** ** More on the circuit breaker and its registry *)

Module BreakerExtra.
Import Retry Runs RetryMore BreakerFacts.

Ltac breaker_cases :=
  repeat (cbn;
    match goal with
    | |- context [Qgtb ?a ?b] => destruct (Qgtb a b)
    | |- context [?a <=? ?b] => destruct (Z.leb_spec a b)
    | |- context [match ?l with Some _ => _ | None => _ end] => destruct l
    end);
  cbn.

Lemma breaker_step_ok (cb : CircuitBreaker) (c : breaker_call) :
  breaker_ok cb -> breaker_ok (breaker_step cb c).
Proof.
  unfold breaker_ok. intros (Hth & Hopen & Hfc & Hsc & Hclosed).
  destruct cb as [th to st fc last sc]. cbn in *.
  destruct c as [now| |now]; unfold breaker_step, can_execute, on_success, on_failure;
    destruct st; try destruct (Hclosed eq_refl); breaker_cases;
    repeat split; intros; try discriminate; try lia; auto.
Qed.

Lemma breaker_after_ok (calls : list breaker_call) (cb : CircuitBreaker) :
  breaker_ok cb -> breaker_ok (breaker_after calls cb).
Proof.
  revert cb. induction calls as [|c calls IH]; intros cb Hok; [exact Hok|].
  change (breaker_after (c :: calls) cb)
    with (breaker_after calls (breaker_step cb c)).
  apply IH, breaker_step_ok, Hok.
Qed.

Lemma breaker_step_settings (cb : CircuitBreaker) (c : breaker_call) :
  failure_threshold (breaker_step cb c) = failure_threshold cb /\
  recovery_timeout (breaker_step cb c) = recovery_timeout cb.
Proof.
  destruct cb as [th to st fc last sc].
  destruct c as [now| |now]; unfold breaker_step, can_execute, on_success, on_failure;
    destruct st; breaker_cases; split; reflexivity.
Qed.

Lemma breaker_after_settings (calls : list breaker_call) (cb : CircuitBreaker) :
  failure_threshold (breaker_after calls cb) = failure_threshold cb /\
  recovery_timeout (breaker_after calls cb) = recovery_timeout cb.
Proof.
  revert cb. induction calls as [|c calls IH]; intros cb; [split; reflexivity|].
  change (breaker_after (c :: calls) cb)
    with (breaker_after calls (breaker_step cb c)).
  destruct (IH (breaker_step cb c)) as (H1 & H2).
  destruct (breaker_step_settings cb c) as (H3 & H4).
  rewrite H1, H2, H3, H4. split; reflexivity.
Qed.

Lemma breaker_step_open_time (cb : CircuitBreaker) (c : breaker_call) :
  (state cb = OPEN -> last_failure_time cb <> None) ->
  state (breaker_step cb c) = OPEN ->
  last_failure_time (breaker_step cb c) <> None.
Proof.
  intros Hopen. destruct cb as [th to st fc last sc]. cbn in *.
  destruct c as [now| |now]; unfold breaker_step, can_execute, on_success, on_failure;
    destruct st; breaker_cases; intros; try discriminate; auto.
Qed.

Lemma breaker_after_open_time (calls : list breaker_call) (cb : CircuitBreaker) :
  (state cb = OPEN -> last_failure_time cb <> None) ->
  state (breaker_after calls cb) = OPEN ->
  last_failure_time (breaker_after calls cb) <> None.
Proof.
  revert cb. induction calls as [|c calls IH]; intros cb Hopen; [exact Hopen|].
  change (breaker_after (c :: calls) cb)
    with (breaker_after calls (breaker_step cb c)).
  apply IH, breaker_step_open_time, Hopen.
Qed.

(** X1. [can_execute] raises only on an open breaker whose
    [last_failure_time] is still [None]; no series of calls of
    [can_execute], [on_success] and [on_failure] on a new breaker leads
    there, so [can_execute] always answers. *)
Theorem can_execute_never_raises (threshold : Z) (timeout : Q)
  (calls : list breaker_call) (now : Q) :
  exists (answer : bool) (cb' : CircuitBreaker),
    can_execute now (breaker_after calls (CircuitBreaker_init threshold timeout))
      = inr (answer, cb').
Proof.
  pose proof (breaker_after_open_time calls (CircuitBreaker_init threshold timeout))
    as Hopen.
  set (cb := breaker_after calls (CircuitBreaker_init threshold timeout)) in *.
  unfold can_execute.
  destruct (state cb) eqn:Hs; cbn.
  - eexists _, _. reflexivity.
  - destruct (last_failure_time cb) as [t|] eqn:Hl.
    + destruct (Qgtb (now - t) (recovery_timeout cb)); eexists _, _; reflexivity.
    + exfalso. apply Hopen; [discriminate | reflexivity | reflexivity].
  - eexists _, _. reflexivity.
Qed.

(** X2. A breaker made with a positive threshold and used through its
    methods only keeps its threshold and recovery time, has a
    [failure_count] that is never negative and a [success_count] that is
    0 or 1, and whenever it is closed it has fewer failures counted than
    its threshold and no success counted. *)
Theorem breaker_counters_in_range (threshold : Z) (timeout : Q)
  (calls : list breaker_call) :
  0 < threshold ->
  let cb := breaker_after calls (CircuitBreaker_init threshold timeout) in
  failure_threshold cb = threshold /\
  recovery_timeout cb = timeout /\
  0 <= failure_count cb /\
  0 <= success_count cb <= 1 /\
  (state cb = CLOSED -> failure_count cb < threshold /\ success_count cb = 0).
Proof.
  intros Hth cb.
  destruct (breaker_after_settings calls (CircuitBreaker_init threshold timeout))
    as (H1 & H2).
  assert (Hok : breaker_ok cb).
  { apply breaker_after_ok. unfold breaker_ok. cbn.
    split; [exact Hth|]. split; [discriminate|]. repeat split; lia. }
  destruct Hok as (_ & _ & Hfc & Hsc & Hclosed).
  fold cb in H1, H2. cbn in H1, H2.
  split; [exact H1|]. split; [exact H2|]. split; [exact Hfc|].
  split; [exact Hsc|]. intros Hs. rewrite <- H1. exact (Hclosed Hs).
Qed.

Lemma breaker_counters_in_range_witness :
  let cb :=
    breaker_after
      [CallOnFailure 1; CallOnFailure 2; CallCanExecute 70; CallOnSuccess;
       CallOnFailure 80]%Q
      (CircuitBreaker_init 2 60) in
  0 <= failure_count cb /\ 0 <= success_count cb <= 1.
Proof.
  intros cb.
  destruct (breaker_counters_in_range 2 60
              [CallOnFailure 1; CallOnFailure 2; CallCanExecute 70;
               CallOnSuccess; CallOnFailure 80]%Q)
    as (_ & _ & Hfc & Hsc & _).
  - reflexivity.
  - split; [exact Hfc | exact Hsc].
Defined.

(** X3. One failure during probation: [on_failure] on a half-open breaker
    opens it again, with the time of that failure as
    [last_failure_time], and [can_execute] then answers [False] for as
    long as no more than [recovery_timeout] has passed since that
    failure. *)
Theorem half_open_failure_reopens (cb : CircuitBreaker) (failed_at now : Q) :
  state cb = HALF_OPEN ->
  (now - failed_at <= recovery_timeout cb)%Q ->
  let reopened := on_failure failed_at cb in
  state reopened = OPEN /\
  last_failure_time reopened = Some failed_at /\
  can_execute now reopened = inr (false, reopened).
Proof.
  intros Hs Hnow reopened.
  assert (Hopen : state reopened = OPEN) by (apply on_failure_half_open, Hs).
  destruct (on_failure_counts failed_at cb) as (_ & Hlast & _ & _ & Hto).
  split; [exact Hopen|]. split; [exact Hlast|].
  rewrite (can_execute_open now failed_at reopened Hopen Hlast).
  fold reopened in Hto. rewrite Hto.
  apply Qgtb_false in Hnow. rewrite Hnow. reflexivity.
Qed.

Lemma half_open_failure_reopens_witness :
  let cb := set_state HALF_OPEN (CircuitBreaker_init 5 60) in
  state (on_failure 100 cb) = OPEN /\
  can_execute 160 (on_failure 100 cb) = inr (false, on_failure 100 cb).
Proof.
  intros cb.
  destruct (half_open_failure_reopens cb 100 160) as (Hopen & _ & Hcan).
  - reflexivity.
  - vm_compute. discriminate.
  - split; [exact Hopen | exact Hcan].
Defined.

End BreakerExtra.

Module RegistryExtra.
Import Retry Runs RetryMore.

(** X4. [reset_circuit_breaker] on a service of the registry closes its
    breaker, zeroes both counters and forgets the last failure, keeping
    threshold and recovery time, so that [can_execute] answers [True];
    the breakers of all other services and the policies stay as they are.
    For a service the registry does not know it changes nothing and makes
    no breaker. *)
Theorem reset_closes_only_that_breaker (service_name : string)
  (m : RetryManager) :
  (forall cb : CircuitBreaker,
      circuit_breakers m !! service_name = Some cb ->
      let fresh := CircuitBreaker_init (failure_threshold cb) (recovery_timeout cb) in
      circuit_breakers (reset_circuit_breaker service_name m) !! service_name
        = Some fresh /\
      (forall now : Q, can_execute now fresh = inr (true, fresh)) /\
      (forall other : string,
          other <> service_name ->
          circuit_breakers (reset_circuit_breaker service_name m) !! other
            = circuit_breakers m !! other) /\
      retry_configs (reset_circuit_breaker service_name m) = retry_configs m) /\
  (circuit_breakers m !! service_name = None ->
   reset_circuit_breaker service_name m = m).
Proof.
  split.
  - intros cb Hcb fresh. unfold reset_circuit_breaker. rewrite Hcb. cbn.
    split; [apply lookup_insert_eq|]. split; [reflexivity|].
    split; [|reflexivity].
    intros other Hne. apply lookup_insert_ne. congruence.
  - intros Hnone. unfold reset_circuit_breaker. rewrite Hnone. reflexivity.
Qed.

Lemma reset_closes_only_that_breaker_witness :
  let opened := failures [1; 2; 3; 4; 5]%Q CircuitBreaker_default in
  let m := {| circuit_breakers := {[ "db" := opened ]}; retry_configs := ∅ |} in
  circuit_breakers (reset_circuit_breaker "db" m) !! "db"
    = Some (CircuitBreaker_init 5 60) /\
  reset_circuit_breaker "api" m = m.
Proof.
  intros opened m.
  destruct (reset_closes_only_that_breaker "db" m) as (Hknown & _).
  destruct (reset_closes_only_that_breaker "api" m) as (_ & Hunknown).
  destruct (Hknown opened) as (Hreset & _); [reflexivity|].
  split; [exact Hreset|]. apply Hunknown. reflexivity.
Defined.

(** X5. The registries hand out one breaker and one policy per service:
    the first request for an unknown name stores a default one, a
    request for a known name returns the stored one and changes nothing,
    asking again gives the same answer, and no request touches the entry
    of another name. *)
Theorem registry_get_or_create (s : Settings) (service_name : string)
  (m : RetryManager) :
  let got := get_circuit_breaker service_name m in
  let cfg := get_retry_config s service_name m in
  circuit_breakers (snd got) !! service_name = Some (fst got) /\
  get_circuit_breaker service_name (snd got) = got /\
  fst got = default (CircuitBreaker_default) (circuit_breakers m !! service_name) /\
  (forall other : string,
      other <> service_name ->
      circuit_breakers (snd got) !! other = circuit_breakers m !! other) /\
  retry_configs (snd got) = retry_configs m /\
  retry_configs (snd cfg) !! service_name = Some (fst cfg) /\
  get_retry_config s service_name (snd cfg) = cfg /\
  fst cfg = default (RetryConfig_default s) (retry_configs m !! service_name) /\
  (forall other : string,
      other <> service_name ->
      retry_configs (snd cfg) !! other = retry_configs m !! other) /\
  circuit_breakers (snd cfg) = circuit_breakers m.
Proof.
  intros got cfg. subst got cfg. unfold get_circuit_breaker, get_retry_config.
  destruct (circuit_breakers m !! service_name) as [cb|] eqn:Hcb;
    destruct (retry_configs m !! service_name) as [c|] eqn:Hc; cbn;
    rewrite ?Hcb, ?Hc, ?lookup_insert_eq; repeat split; auto;
    intros other Hne; apply lookup_insert_ne; congruence.
Qed.

(** X6. Reading the status of a breaker is not free of effect: for an
    open breaker whose recovery time has passed,
    [get_circuit_breaker_status] reports the state ["open"] together
    with [can_execute = True], and leaves the breaker of the registry
    half-open. *)
Theorem status_read_moves_open_breaker (service_name : string) (now last : Q)
  (cb : CircuitBreaker) (m : RetryManager) :
  circuit_breakers m !! service_name = Some cb ->
  state cb = OPEN ->
  last_failure_time cb = Some last ->
  (recovery_timeout cb < now - last)%Q ->
  exists status : BreakerStatus,
    fst (get_circuit_breaker_status service_name now m) = inr status /\
    status_state status = "open" /\
    status_can_execute status = true /\
    status_failure_count status = failure_count cb /\
    circuit_breakers (snd (get_circuit_breaker_status service_name now m))
      !! service_name = Some (set_state HALF_OPEN cb).
Proof.
  intros Hcb Hs Hl Hnow. unfold get_circuit_breaker_status, get_circuit_breaker.
  rewrite Hcb. rewrite (BreakerFacts.can_execute_open now last cb Hs Hl).
  apply Qgtb_true in Hnow. rewrite Hnow. cbn [fst snd].
  eexists. split; [reflexivity|]. cbn. rewrite Hs.
  split; [reflexivity|]. split; [reflexivity|]. split; [reflexivity|].
  apply lookup_insert_eq.
Qed.

Lemma status_read_moves_open_breaker_witness :
  let opened := failures [1; 2; 3; 4; 5]%Q CircuitBreaker_default in
  let m := {| circuit_breakers := {[ "db" := opened ]}; retry_configs := ∅ |} in
  exists status : BreakerStatus,
    fst (get_circuit_breaker_status "db" 66 m) = inr status /\
    status_state status = "open" /\
    status_can_execute status = true /\
    status_failure_count status = failure_count opened /\
    circuit_breakers (snd (get_circuit_breaker_status "db" 66 m)) !! "db"
      = Some (set_state HALF_OPEN opened).
Proof.
  intros opened m.
  apply (status_read_moves_open_breaker "db" 66 5 opened m).
  - reflexivity.
  - reflexivity.
  - reflexivity.
  - vm_compute. reflexivity.
Defined.

End RegistryExtra.

(** ** More on the retry wrappers *)

Module WrapperExtra.
Import Retry Runs RetryMore DelaySpec WrapperFacts.

Lemma sleeps_app (t1 t2 : list event) : sleeps (t1 ++ t2) = sleeps t1 ++ sleeps t2.
Proof. unfold sleeps. apply omap_app. Qed.

Lemma Qltb_true (x y : Q) : Qltb x y = true <-> (x < y)%Q.
Proof. unfold Qltb. apply (Qgtb_true y x). Qed.

Lemma Qltb_false (x y : Q) : Qltb x y = false <-> (y <= x)%Q.
Proof. unfold Qltb. apply (Qgtb_false y x). Qed.

Lemma inject_Z_nonneg (z : Z) : 0 <= z -> (0 <= inject_Z z)%Q.
Proof. intros H. unfold Qle, inject_Z. cbn. lia. Qed.

(** [time.sleep] takes every length between 0 and a length it takes. *)
Lemma sleep_fits_below (d m : Q) :
  (0 <= d)%Q -> (d <= m)%Q ->
  sleep_overflows m = false -> sleep_overflows d = false.
Proof.
  unfold sleep_overflows. intros Hd Hm Hfits.
  apply Qgtb_false in Hfits. apply Qgtb_false.
  rewrite Qabs_pos in * by (try exact Hd; apply (Qle_trans _ d); assumption).
  apply (Qle_trans _ (m * 1000000000)%Q); [|exact Hfits].
  apply Qmult_le_compat_r; [exact Hm | discriminate].
Qed.

(** The delay of a policy without negative settings, computed with
    floats that stay in range. *)
Lemma calculate_delay_bounded (attempt : Z) (config : RetryConfig) (r : Q) :
  1 <= attempt ->
  delay_in_range attempt config = true ->
  (0 <= base_delay config)%Q ->
  (0 <= backoff_factor config)%Q ->
  (0 <= max_delay config)%Q ->
  (0 <= r)%Q ->
  exists delay : Q,
    calculate_delay attempt config r = inr delay /\
    (0 <= delay)%Q /\ (delay <= max_delay config)%Q.
Proof.
  intros Ha Hrange Hb Hf Hm Hr.
  rewrite calculate_delay_unfold, (strategy_delay_defined attempt config Ha Hrange).
  set (d := match strategy config with
            | FIXED => base_delay config
            | LINEAR => (base_delay config * inject_Z attempt)%Q
            | EXPONENTIAL =>
                (base_delay config * Qpower (backoff_factor config) (attempt - 1))%Q
            end).
  assert (Hd : (0 <= d)%Q).
  { subst d. destruct (strategy config).
    - exact Hb.
    - apply Qmult_le_0_compat; [exact Hb | apply Qpower_0_le, Hf].
    - apply Qmult_le_0_compat; [exact Hb | apply inject_Z_nonneg; lia]. }
  set (j := if jitter config then (d + uniform 0 ((1 # 10) * d) r)%Q else d).
  assert (Hj : (0 <= j)%Q).
  { subst j. destruct (jitter config); [|exact Hd].
    unfold uniform.
    assert (Hp : (0 <= d * r)%Q) by (apply Qmult_le_0_compat; assumption).
    lra. }
  eexists. split; [reflexivity|]. split; [|apply py_min_le_r].
  destruct (py_min_cases j (max_delay config)) as [(_ & ->)|(_ & ->)]; assumption.
Qed.

(** X10. For a policy whose [base_delay], [backoff_factor] and
    [max_delay] are not negative and a draw that is not negative,
    [calculate_delay] at an attempt of the loop whose floats stay in
    range returns a delay between 0 and [max_delay]. *)
Theorem calculate_delay_in_range (attempt : Z) (config : RetryConfig) (r : Q) :
  1 <= attempt ->
  delay_in_range attempt config = true ->
  (0 <= base_delay config)%Q ->
  (0 <= backoff_factor config)%Q ->
  (0 <= max_delay config)%Q ->
  (0 <= r)%Q ->
  exists delay : Q,
    calculate_delay attempt config r = inr delay /\
    (0 <= delay)%Q /\ (delay <= max_delay config)%Q.
Proof.
  intros Ha Hrange Hb Hf Hm Hr.
  rewrite calculate_delay_unfold, (strategy_delay_defined attempt config Ha Hrange).
  set (d := match strategy config with
            | FIXED => base_delay config
            | LINEAR => (base_delay config * inject_Z attempt)%Q
            | EXPONENTIAL =>
                (base_delay config * Qpower (backoff_factor config) (attempt - 1))%Q
            end).
  assert (Hd : (0 <= d)%Q).
  { subst d. destruct (strategy config).
    - exact Hb.
    - apply Qmult_le_0_compat; [exact Hb | apply Qpower_0_le, Hf].
    - apply Qmult_le_0_compat; [exact Hb | apply inject_Z_nonneg; lia]. }
  set (j := if jitter config then (d + uniform 0 ((1 # 10) * d) r)%Q else d).
  assert (Hj : (0 <= j)%Q).
  { subst j. destruct (jitter config); [|exact Hd].
    unfold uniform.
    assert (Hp : (0 <= d * r)%Q) by (apply Qmult_le_0_compat; assumption).
    lra. }
  eexists. split; [reflexivity|]. split; [|apply py_min_le_r].
  destruct (py_min_cases j (max_delay config)) as [(_ & ->)|(_ & ->)]; assumption.
Qed.

Lemma calculate_delay_in_range_witness :
  exists delay : Q,
    calculate_delay 3 (RetryConfig_default default_settings) (1 # 2) = inr delay /\
    (0 <= delay)%Q /\ (delay <= 60)%Q.
Proof.
  apply (calculate_delay_in_range 3 (RetryConfig_default default_settings) (1 # 2));
    vm_compute; first [reflexivity | discriminate].
Defined.

Section Loop.
Context {V E : Type}.
Variable env : Environment V E.
Variable config : RetryConfig.

(** The loop over a first stretch of attempts that all raise retryable
    exceptions and whose delays are computed in range: one call, one
    [on_failure] and one sleep of the computed delay per attempt, and
    then the loop goes on with the next attempt. *)
Lemma attempt_loop_retries (j : nat) :
  forall (lo : Z) (cb : CircuitBreaker) (last : option E) (trace : list event),
    1 <= lo ->
    lo + Z.of_nat j <= max_retries config + 1 ->
    (forall a : Z, lo <= a < lo + Z.of_nat j ->
       exists e : E, func env a = Raises e /\ exceptions env e = true) ->
    (forall a : Z, lo <= a < lo + Z.of_nat j ->
       delay_in_range a config = true) ->
    exists (cb' : CircuitBreaker) (last' : option E) (pre : list event),
      attempt_loop env config (py_range lo (max_retries config + 2)) cb last trace
        = attempt_loop env config
            (py_range (lo + Z.of_nat j) (max_retries config + 2)) cb' last'
            (trace ++ pre) /\
      calls pre = j /\ failure_calls pre = j /\
      Forall2 (fun a d => calculate_delay a config (random_at env a) = inr d)
        (py_range lo (lo + Z.of_nat j)) (sleeps pre).
Proof.
  induction j as [|j IH]; intros lo cb last trace Hlo Hk Hall Hrange.
  - exists cb, last, []. rewrite app_nil_r, Z.add_0_r.
    rewrite (py_range_empty lo lo) by lia. repeat split. constructor.
  - destruct (Hall lo) as (e & Hf & Hc); [lia|].
    destruct (calculate_delay_defined lo config (random_at env lo) Hlo)
      as (delay & Hd); [apply Hrange; lia|].
    set (now := time_at_failure env lo).
    destruct (IH (lo + 1) (on_failure now cb) (Some e)
                ((trace ++ [EvCall lo; EvOnFailure now]) ++ [EvSleep delay]))
      as (cb' & last' & pre & Hrun & Hcalls & Hfails & Hsleeps); [lia|lia| | |].
    { intros a Ha. apply Hall. lia. }
    { intros a Ha. apply Hrange. lia. }
    exists cb', last', ([EvCall lo; EvOnFailure now; EvSleep delay] ++ pre).
    split; [|split; [|split]].
    + rewrite (py_range_cons lo) by lia.
      cbn [attempt_loop]. rewrite Hf, Hc.
      destruct (Z.leb_spec lo (max_retries config)); [|lia].
      rewrite Hd. fold now. rewrite Hrun.
      replace (lo + 1 + Z.of_nat j) with (lo + Z.of_nat (S j)) by lia.
      rewrite <- !app_assoc. reflexivity.
    + rewrite calls_app, Hcalls. reflexivity.
    + rewrite failure_calls_app, Hfails. reflexivity.
    + rewrite sleeps_app. rewrite (py_range_cons lo) by lia.
      replace (lo + Z.of_nat (S j)) with (lo + 1 + Z.of_nat j) by lia.
      cbn. constructor; [exact Hd | exact Hsleeps].
Qed.

(** A blocking loop whose delays are lengths [time.sleep] takes does
    what the awaiting loop does. *)
Lemma attempt_loop_sync_agrees (attempts : list Z) :
  (forall a : Z, a ∈ attempts -> a <= max_retries config ->
     forall d : Q, calculate_delay a config (random_at env a) = inr d ->
                   sleep_overflows d = false /\ (0 <= d)%Q) ->
  forall (cb : CircuitBreaker) (last : option E) (trace : list event),
    attempt_loop_sync env config attempts cb last trace =
      (as_sync (fst (fst (attempt_loop env config attempts cb last trace))),
       snd (fst (attempt_loop env config attempts cb last trace)),
       snd (attempt_loop env config attempts cb last trace)).
Proof.
  induction attempts as [|attempt rest IH]; intros Hpos cb last trace.
  - reflexivity.
  - cbn [attempt_loop attempt_loop_sync].
    destruct (func env attempt) as [v|e]; [reflexivity|].
    destruct (exceptions env e); [|reflexivity].
    destruct (Z.leb_spec attempt (max_retries config)) as [Hle|]; [|reflexivity].
    destruct (calculate_delay attempt config (random_at env attempt))
      as [err|delay] eqn:Hd; [reflexivity|].
    destruct (Hpos attempt (list_elem_of_here _ _) Hle delay Hd) as (Hfits & Hnn).
    apply Qltb_false in Hnn. rewrite Hfits, Hnn. apply IH.
    intros a Ha. apply Hpos. right. exact Ha.
Qed.

End Loop.

Lemma py_range_ge (lo hi a : Z) : a ∈ py_range lo hi -> lo <= a.
Proof.
  unfold py_range. intros H.
  apply list_elem_of_fmap in H as (i & -> & _). lia.
Qed.

Section Wrappers.
Context {V E : Type}.
Variables (s : Settings) (service_name : string).
Variables (max_retries_arg : option Z) (base_delay_arg : option Q).
Variable strategy_arg : option RetryStrategy.
Variable env : Environment V E.
Variable m : RetryManager.

Let config :=
  effective_config s service_name max_retries_arg base_delay_arg strategy_arg m.
Let entered :=
  can_execute (time_at_entry env) (fst (get_circuit_breaker service_name m)).
Let run :=
  async_wrapper s service_name max_retries_arg base_delay_arg strategy_arg env m.
Let run_sync :=
  sync_wrapper s service_name max_retries_arg base_delay_arg strategy_arg env m.

Let cb0 := fst (get_circuit_breaker service_name m).
Let m2 :=
  snd (get_retry_config s service_name (snd (get_circuit_breaker service_name m))).

(** The two wrappers in terms of the effective policy. *)
Lemma async_wrapper_unfold :
  run =
    match entered with
    | inl err => (inl (Builtin err), store service_name cb0 config m2, [])
    | inr (false, cb) =>
        (inl (CircuitOpen service_name), store service_name cb config m2, [])
    | inr (true, cb) =>
        let loop :=
          attempt_loop env config (py_range 1 (max_retries config + 2)) cb None [] in
        (fst (fst loop), store service_name (snd (fst loop)) config m2, snd loop)
    end.
Proof.
  subst run entered cb0 m2 config. unfold async_wrapper, effective_config.
  rewrite <- (RetrySpec.get_retry_config_after_breaker s service_name m).
  destruct (get_circuit_breaker service_name m) as [c0 m1]. cbn [fst snd].
  destruct (get_retry_config s service_name m1) as [config0 m2']. cbn [fst snd].
  destruct (can_execute (time_at_entry env) c0) as [err|[[|] cb1]];
    try reflexivity.
  cbv zeta. destruct (attempt_loop env _ _ cb1 None []) as [[r cb'] tr].
  reflexivity.
Qed.

Lemma sync_wrapper_unfold :
  run_sync =
    match entered with
    | inl err => (inl (Raised (Builtin err)), store service_name cb0 config m2, [])
    | inr (false, cb) =>
        (inl (Raised (CircuitOpen service_name)),
         store service_name cb config m2, [])
    | inr (true, cb) =>
        let loop :=
          attempt_loop_sync env config (py_range 1 (max_retries config + 2))
            cb None [] in
        (fst (fst loop), store service_name (snd (fst loop)) config m2, snd loop)
    end.
Proof.
  subst run_sync entered cb0 m2 config. unfold sync_wrapper, effective_config.
  rewrite <- (RetrySpec.get_retry_config_after_breaker s service_name m).
  destruct (get_circuit_breaker service_name m) as [c0 m1]. cbn [fst snd].
  destruct (get_retry_config s service_name m1) as [config0 m2']. cbn [fst snd].
  destruct (can_execute (time_at_entry env) c0) as [err|[[|] cb1]];
    try reflexivity.
  cbv zeta. destruct (attempt_loop_sync env _ _ cb1 None []) as [[r cb'] tr].
  reflexivity.
Qed.

Lemma async_wrapper_entered (cb : CircuitBreaker) :
  entered = inr (true, cb) ->
  fst (fst run) =
    fst (fst (attempt_loop env config (py_range 1 (max_retries config + 2))
                cb None [])) /\
  snd run =
    snd (attempt_loop env config (py_range 1 (max_retries config + 2)) cb None []).
Proof.
  intros Hin. rewrite async_wrapper_unfold, Hin. split; reflexivity.
Qed.

Lemma sync_wrapper_entered (cb : CircuitBreaker) :
  entered = inr (true, cb) ->
  fst (fst run_sync) =
    fst (fst (attempt_loop_sync env config (py_range 1 (max_retries config + 2))
                cb None [])) /\
  snd run_sync =
    snd (attempt_loop_sync env config (py_range 1 (max_retries config + 2))
           cb None []).
Proof.
  intros Hin. rewrite sync_wrapper_unfold, Hin. split; reflexivity.
Qed.

(** X7. The optional arguments of the decorator are written into the
    policy of the registry. The policy a run works with has the
    [max_retries], [base_delay] and [strategy] the decorator gives, and
    for an argument it does not give, as for the other settings, what
    the registry held for the service before. After any run of the
    wrapper the registry holds that policy, and a wrapper for the same
    service that gives no arguments of its own works with it. *)
Theorem overrides_stay_in_registry :
  let before := fst (get_retry_config s service_name m) in
  max_retries config = default (max_retries before) max_retries_arg /\
  base_delay config = default (base_delay before) base_delay_arg /\
  strategy config = default (strategy before) strategy_arg /\
  max_delay config = max_delay before /\
  jitter config = jitter before /\
  backoff_factor config = backoff_factor before /\
  retry_configs (snd (fst run)) !! service_name = Some config /\
  effective_config s service_name None None None (snd (fst run)) = config.
Proof.
  intros before.
  assert (H : retry_configs (snd (fst run)) !! service_name = Some config).
  { rewrite async_wrapper_unfold.
    destruct entered as [err|[[|] cb1]]; apply lookup_insert_eq. }
  assert (Hconfig : config =
            override_config max_retries_arg base_delay_arg strategy_arg before)
    by reflexivity.
  rewrite Hconfig in *. clear Hconfig. unfold override_config.
  destruct max_retries_arg, base_delay_arg, strategy_arg; cbn;
    (repeat split; try reflexivity; try exact H);
    unfold effective_config, get_retry_config; rewrite H; reflexivity.
Qed.

(** X8. When the breaker lets the call in, the attempts before attempt
    [k] all raise retryable exceptions, the delays after them are
    computed with floats that stay in range, and attempt [k] returns,
    the wrapper returns that value after exactly [k] calls and [k - 1]
    calls of [on_failure], having slept once after each failed attempt
    for the delay [calculate_delay] gives for it. *)
Theorem success_after_retries (cb : CircuitBreaker) (k : Z) (v : V) :
  entered = inr (true, cb) ->
  1 <= k <= max_retries config + 1 ->
  (forall a : Z, 1 <= a < k ->
     exists e : E, func env a = Raises e /\ exceptions env e = true) ->
  (forall a : Z, 1 <= a < k -> delay_in_range a config = true) ->
  func env k = Returns v ->
  fst (fst run) = inr v /\
  Z.of_nat (calls (snd run)) = k /\
  Z.of_nat (failure_calls (snd run)) = k - 1 /\
  Forall2 (fun a d => calculate_delay a config (random_at env a) = inr d)
    (py_range 1 k) (sleeps (snd run)).
Proof.
  intros Hin Hk Hall Hrange Hv.
  destruct (async_wrapper_entered cb Hin) as (Hres & Htr).
  rewrite Hres, Htr. clear Hres Htr.
  destruct (attempt_loop_retries env config (Z.to_nat (k - 1)) 1 cb None [])
    as (cb' & last' & pre & Hrun & Hcalls & Hfails & Hsleeps); [lia|lia| | |].
  { intros a Ha. apply Hall. lia. }
  { intros a Ha. apply Hrange. lia. }
  replace (1 + Z.of_nat (Z.to_nat (k - 1))) with k in Hrun, Hsleeps by lia.
  rewrite Hrun. rewrite (py_range_cons k) by lia.
  cbn [attempt_loop]. rewrite Hv. cbn [fst snd app].
  split; [reflexivity|].
  rewrite !calls_app, !failure_calls_app, sleeps_app, Hcalls, Hfails.
  cbn. rewrite app_nil_r. split; [lia|]. split; [lia | exact Hsleeps].
Qed.

(** X9. When the breaker lets the call in, the attempts before attempt
    [k] all raise retryable exceptions, the delays after them are
    computed with floats that stay in range, and attempt [k] raises an
    exception that [exceptions] does not match, that exception leaves
    the wrapper at once: attempt [k] is the last call, and [on_failure]
    has been called for the [k - 1] attempts before it only. *)
Theorem unmatched_exception_leaves_at_once (cb : CircuitBreaker) (k : Z) (e : E) :
  entered = inr (true, cb) ->
  1 <= k <= max_retries config + 1 ->
  (forall a : Z, 1 <= a < k ->
     exists e' : E, func env a = Raises e' /\ exceptions env e' = true) ->
  (forall a : Z, 1 <= a < k -> delay_in_range a config = true) ->
  func env k = Raises e ->
  exceptions env e = false ->
  fst (fst run) = inl (Propagated e) /\
  Z.of_nat (calls (snd run)) = k /\
  Z.of_nat (failure_calls (snd run)) = k - 1.
Proof.
  intros Hin Hk Hall Hrange He Hno.
  destruct (async_wrapper_entered cb Hin) as (Hres & Htr).
  rewrite Hres, Htr. clear Hres Htr.
  destruct (attempt_loop_retries env config (Z.to_nat (k - 1)) 1 cb None [])
    as (cb' & last' & pre & Hrun & Hcalls & Hfails & _); [lia|lia| | |].
  { intros a Ha. apply Hall. lia. }
  { intros a Ha. apply Hrange. lia. }
  replace (1 + Z.of_nat (Z.to_nat (k - 1))) with k in Hrun by lia.
  rewrite Hrun. rewrite (py_range_cons k) by lia.
  cbn [attempt_loop]. rewrite He, Hno. cbn [fst snd app].
  split; [reflexivity|].
  rewrite !calls_app, !failure_calls_app, Hcalls, Hfails. cbn. lia.
Qed.

(** X11. For a policy whose [base_delay], [backoff_factor] and
    [max_delay] are not negative, whose [max_delay] is a length
    [time.sleep] takes and whose delays are computed with floats that
    stay in range, and draws that are not negative, the blocking wrapper
    and the awaiting wrapper give the same outcome, the same registries
    and the same sequence of calls. *)
Theorem sync_wrapper_agrees :
  (0 <= base_delay config)%Q ->
  (0 <= backoff_factor config)%Q ->
  (0 <= max_delay config)%Q ->
  sleep_overflows (max_delay config) = false ->
  (forall a : Z, 1 <= a <= max_retries config -> delay_in_range a config = true) ->
  (forall a : Z, (0 <= random_at env a)%Q) ->
  run_sync = (as_sync (fst (fst run)), snd (fst run), snd run).
Proof.
  intros Hb Hf Hm Hfits Hrange Hr.
  rewrite sync_wrapper_unfold, async_wrapper_unfold.
  destruct entered as [err|[[|] cb1]]; try reflexivity.
  cbv zeta. rewrite (attempt_loop_sync_agrees env config); [reflexivity|].
  intros a Ha Hle d Hd. apply py_range_ge in Ha.
  destruct (calculate_delay_bounded a config (random_at env a))
    as (d' & Hd' & Hpos & Hmax); auto.
  rewrite Hd in Hd'. injection Hd' as <-.
  split; [|exact Hpos].
  exact (sleep_fits_below d (max_delay config) Hpos Hmax Hfits).
Qed.

(** X12. A negative delay stops the blocking wrapper: when the first
    attempt raises a retryable exception, a retry is allowed and the
    delay computed for it is negative, [time.sleep] raises [ValueError],
    or [OverflowError] when the delay is outside the range of its clock,
    and the wrapper ends with it after that one call. *)
Theorem sync_wrapper_negative_delay (cb : CircuitBreaker) (e : E) (delay : Q) :
  entered = inr (true, cb) ->
  1 <= max_retries config ->
  func env 1 = Raises e ->
  exceptions env e = true ->
  calculate_delay 1 config (random_at env 1) = inr delay ->
  (delay < 0)%Q ->
  fst (fst run_sync) =
    inl (if sleep_overflows delay then SleepOverflowError else SleepValueError) /\
  snd run_sync = [EvCall 1; EvOnFailure (time_at_failure env 1)].
Proof.
  intros Hin Hn He Hc Hd Hneg.
  destruct (sync_wrapper_entered cb Hin) as (Hres & Htr).
  rewrite Hres, Htr. rewrite (py_range_cons 1) by lia.
  cbn [attempt_loop_sync]. rewrite He, Hc.
  destruct (Z.leb_spec 1 (max_retries config)); [|lia].
  rewrite Hd. apply Qltb_true in Hneg. rewrite Hneg.
  destruct (sleep_overflows delay); split; reflexivity.
Qed.

End Wrappers.

(** A delay of [10 ** 10] seconds, which [asyncio.sleep] takes, is too
    long for the clock of [time.sleep]: the blocking wrapper ends with
    [OverflowError] after the first attempt, where the awaiting wrapper
    goes on to the second. *)
Lemma sync_wrapper_long_delay :
  let env : Environment nat string :=
    {| func := fun attempt => if attempt <? 2 then Raises "timeout" else Returns 7%nat;
       exceptions := fun _ => true;
       time_at_entry := 0;
       time_at_failure := inject_Z;
       random_at := fun _ => (1 # 2)%Q |} in
  let m :=
    {| circuit_breakers := ∅;
       retry_configs :=
         {[ "database" :=
              {| max_retries := 3; base_delay := 10000000000;
                 max_delay := 10000000000; strategy := FIXED; jitter := false;
                 backoff_factor := 2 |} ]} |} in
  fst (fst (sync_wrapper default_settings "database" None None None env m))
    = inl SleepOverflowError /\
  fst (fst (async_wrapper default_settings "database" None None None env m))
    = inr 7%nat.
Proof. vm_compute. split; reflexivity. Qed.

Lemma success_after_retries_witness :
  let env : Environment nat string :=
    {| func := fun attempt => if attempt <? 3 then Raises "timeout" else Returns 7%nat;
       exceptions := fun _ => true;
       time_at_entry := 0;
       time_at_failure := inject_Z;
       random_at := fun _ => (1 # 2)%Q |} in
  let run :=
    async_wrapper default_settings "ai_service" (Some 3) (Some 1%Q)
      (Some EXPONENTIAL) env RetryManager_init in
  fst (fst run) = inr 7%nat /\ Z.of_nat (calls (snd run)) = 3.
Proof.
  intros env run.
  destruct (success_after_retries default_settings "ai_service" (Some 3)
              (Some 1%Q) (Some EXPONENTIAL) env RetryManager_init
              CircuitBreaker_default 3 7%nat)
    as (Hres & Hcalls & _).
  - reflexivity.
  - cbn. lia.
  - intros a Ha. exists "timeout". cbn.
    destruct (Z.ltb_spec a 3); [split; reflexivity | lia].
  - intros a Ha. assert (Hcases : a = 1 \/ a = 2) by lia.
    destruct Hcases as [->| ->]; vm_compute; reflexivity.
  - reflexivity.
  - split; [exact Hres | exact Hcalls].
Defined.

Lemma unmatched_exception_leaves_at_once_witness :
  let env : Environment nat string :=
    {| func := fun attempt => if attempt <? 2 then Raises "timeout" else Raises "fatal";
       exceptions := fun e => String.eqb e "timeout";
       time_at_entry := 0;
       time_at_failure := inject_Z;
       random_at := fun _ => (1 # 2)%Q |} in
  let run :=
    async_wrapper default_settings "ai_service" (Some 3) (Some 1%Q)
      (Some EXPONENTIAL) env RetryManager_init in
  fst (fst run) = inl (Propagated "fatal") /\
  Z.of_nat (calls (snd run)) = 2 /\
  Z.of_nat (failure_calls (snd run)) = 2 - 1.
Proof.
  intros env run.
  apply (unmatched_exception_leaves_at_once default_settings "ai_service" (Some 3)
           (Some 1%Q) (Some EXPONENTIAL) env RetryManager_init
           CircuitBreaker_default 2 "fatal").
  - reflexivity.
  - cbn. lia.
  - intros a Ha. exists "timeout". cbn.
    destruct (Z.ltb_spec a 2); [split; reflexivity | lia].
  - intros a Ha. assert (Hcase : a = 1) by lia. subst a. vm_compute. reflexivity.
  - reflexivity.
  - reflexivity.
Defined.

Lemma sync_wrapper_agrees_witness :
  let env : Environment nat string :=
    {| func := fun attempt => if attempt <? 3 then Raises "timeout" else Returns 7%nat;
       exceptions := fun _ => true;
       time_at_entry := 0;
       time_at_failure := inject_Z;
       random_at := fun _ => (1 # 2)%Q |} in
  let run :=
    async_wrapper default_settings "database" (Some 3) (Some (1 # 2)%Q)
      (Some LINEAR) env RetryManager_init in
  sync_wrapper default_settings "database" (Some 3) (Some (1 # 2)%Q)
    (Some LINEAR) env RetryManager_init
  = (as_sync (fst (fst run)), snd (fst run), snd run).
Proof.
  intros env run.
  apply (sync_wrapper_agrees default_settings "database" (Some 3)
           (Some (1 # 2)%Q) (Some LINEAR) env RetryManager_init).
  - vm_compute. discriminate.
  - vm_compute. discriminate.
  - vm_compute. discriminate.
  - vm_compute. reflexivity.
  - intros a Ha. assert (Hcases : a = 1 \/ a = 2 \/ a = 3) by (cbn in Ha; lia).
    destruct Hcases as [->|[->| ->]]; vm_compute; reflexivity.
  - intros a. vm_compute. discriminate.
Defined.

Lemma sync_wrapper_negative_delay_witness :
  let env : Environment nat string :=
    {| func := fun _ => Raises "timeout";
       exceptions := fun _ => true;
       time_at_entry := 0;
       time_at_failure := inject_Z;
       random_at := fun _ => (1 # 2)%Q |} in
  let run_sync :=
    sync_wrapper default_settings "database" (Some 3) (Some (-1)%Q)
      (Some FIXED) env RetryManager_init in
  fst (fst run_sync) = inl SleepValueError /\
  snd run_sync = [EvCall 1; EvOnFailure 1%Q].
Proof.
  intros env run_sync.
  apply (sync_wrapper_negative_delay default_settings "database" (Some 3)
           (Some (-1)%Q) (Some FIXED) env RetryManager_init
           CircuitBreaker_default "timeout" (-21 # 20)%Q).
  - reflexivity.
  - cbn. lia.
  - reflexivity.
  - reflexivity.
  - vm_compute. reflexivity.
  - vm_compute. reflexivity.
Defined.

End WrapperExtra.

(** ** More on the cache *)

Module CacheExtra.
Import Cache CacheRuns CacheMore CacheFacts StringFacts.

Section Store.
Context {V : Type}.
Implicit Types (memory_cache : gmap string (CacheEntry V)).

(** What [clear_pattern] leaves and what it counts. *)
Lemma clear_pattern_result (pattern : string) memory_cache :
  let literal := str_remove "*" pattern in
  let cleared := clear_pattern pattern memory_cache in
  (forall key : string,
      snd cleared !! key =
        if str_contains literal key then None else memory_cache !! key) /\
  fst cleared = Z.of_nat (size memory_cache) - Z.of_nat (size (snd cleared)).
Proof.
  intros literal cleared.
  set (keys := List.filter (str_contains literal)
                 (map fst (map_to_list memory_cache))).
  assert (Hin : forall key, key ∈ keys <->
                  is_Some (memory_cache !! key) /\ str_contains literal key = true).
  { intros key. subst keys. rewrite list_elem_of_In, filter_In, <- list_elem_of_In.
    change (map fst (map_to_list memory_cache)) with ((map_to_list memory_cache).*1).
    rewrite list_elem_of_fmap. split.
    - intros ((kv & -> & Hkv) & Hc). split; [|exact Hc].
      destruct kv as [k e]. apply elem_of_map_to_list in Hkv. eexists. exact Hkv.
    - intros ((e & He) & Hc). split; [|exact Hc].
      exists (key, e). split; [reflexivity|]. apply elem_of_map_to_list. exact He. }
  assert (Hnd : NoDup keys).
  { subst keys. apply NoDup_ListNoDup, List.NoDup_filter, NoDup_ListNoDup.
    apply NoDup_fst_map_to_list. }
  destruct (delete_loop keys 0 memory_cache Hnd) as (Hcount & Hsize & Hlook).
  { intros key Hkey. apply Hin in Hkey. tauto. }
  change (fold_left _ keys (0, memory_cache)) with cleared in Hcount, Hsize, Hlook.
  split; [|lia].
  intros key. rewrite Hlook.
  destruct (decide (key ∈ keys)) as [Hk|Hk].
  - apply Hin in Hk as (_ & ->). reflexivity.
  - destruct (str_contains literal key) eqn:Hc; [|reflexivity].
    destruct (memory_cache !! key) as [e|] eqn:He; [|reflexivity].
    exfalso. apply Hk, Hin. split; [exists e; exact He | exact Hc].
Qed.

Lemma str_contains_empty (s : string) : str_contains "" s = true.
Proof. destruct s; reflexivity. Qed.

(** Reading back what was stored with an expiry that is a datetime. *)
Lemma set_get_live (key : string) (val : V) (expire : option Z)
  (now later : Z) memory_cache :
  is_datetime now = true ->
  is_datetime (now + timedelta_seconds (expire_or_3600 expire)) = true ->
  later < now + timedelta_seconds (expire_or_3600 expire) ->
  let stored := snd (set key val expire now memory_cache) in
  fst (set key val expire now memory_cache) = true /\
  get key later stored = (Some val, stored) /\
  exists_ key later stored = (Some true, stored) /\
  expire_or_3600 (Some 0) = 3600 /\ expire_or_3600 None = 3600 /\
  forall other : string, other <> key -> stored !! other = memory_cache !! other.
Proof.
  intros Hnow Hsum Hlater stored. subst stored.
  rewrite (set_in_range key val expire now memory_cache Hnow Hsum).
  cbn [fst snd]. split; [reflexivity|].
  unfold get, exists_. rewrite lookup_insert_eq. cbn [expires_at value].
  destruct (Z.gtb_spec (now + timedelta_seconds (expire_or_3600 expire)) later);
    [|lia].
  split; [reflexivity|]. split; [reflexivity|].
  split; [reflexivity|]. split; [reflexivity|].
  intros other Hne. apply lookup_insert_ne. congruence.
Qed.

(** X13. [set] at the time [now] with a time to live for which the
    expiry is a datetime, where a time to live of 0 or [None] counts as
    3600 seconds, answers [True]; the value stored is what [get]
    returns, and [exists] answers [True], at any time before the time to
    live has passed; such a [get] leaves the store as it is, and storing
    under one key changes what no other key holds. *)
Theorem set_then_get (key : string) (val : V) (expire : option Z)
  (now later : Z) memory_cache :
  is_datetime now = true ->
  is_datetime (now + timedelta_seconds (expire_or_3600 expire)) = true ->
  later < now + timedelta_seconds (expire_or_3600 expire) ->
  let stored := snd (set key val expire now memory_cache) in
  fst (set key val expire now memory_cache) = true /\
  get key later stored = (Some val, stored) /\
  exists_ key later stored = (Some true, stored) /\
  expire_or_3600 (Some 0) = 3600 /\ expire_or_3600 None = 3600 /\
  forall other : string, other <> key -> stored !! other = memory_cache !! other.
Proof.
  intros Hnow Hsum Hlater stored. subst stored.
  rewrite (set_in_range key val expire now memory_cache Hnow Hsum).
  cbn [fst snd]. split; [reflexivity|].
  unfold get, exists_. rewrite lookup_insert_eq. cbn [expires_at value].
  destruct (Z.gtb_spec (now + timedelta_seconds (expire_or_3600 expire)) later);
    [|lia].
  split; [reflexivity|]. split; [reflexivity|].
  split; [reflexivity|]. split; [reflexivity|].
  intros other Hne. apply lookup_insert_ne. congruence.
Qed.

(** X14. [delete] answers [True] exactly when the key is in the store,
    expired or not; afterwards the key is gone, so that [get] returns
    [None], [exists] returns [None] and a second [delete] answers
    [False]; every other key keeps its entry. *)
Theorem delete_removes_only_that_key (key : string) (now : Z) memory_cache :
  let deleted := snd (delete key memory_cache) in
  (fst (delete key memory_cache) = true <-> is_Some (memory_cache !! key)) /\
  deleted !! key = None /\
  get key now deleted = (None, deleted) /\
  exists_ key now deleted = (None, deleted) /\
  delete key deleted = (false, deleted) /\
  forall other : string, other <> key -> deleted !! other = memory_cache !! other.
Proof.
  intros deleted.
  assert (Hgone : deleted !! key = None).
  { subst deleted. unfold delete.
    destruct (memory_cache !! key) eqn:Hk; cbn; [apply lookup_delete_eq | exact Hk]. }
  split; [|split; [exact Hgone|]].
  - unfold delete. destruct (memory_cache !! key) eqn:Hk; cbn.
    + split; [eauto | reflexivity].
    + split; [discriminate | intros (x & Hx); discriminate].
  - unfold get, exists_, delete at 1. rewrite Hgone.
    split; [reflexivity|]. split; [reflexivity|]. split; [reflexivity|].
    intros other Hne. subst deleted. unfold delete.
    destruct (memory_cache !! key); cbn; [|reflexivity].
    apply lookup_delete_ne. congruence.
Qed.

(** X15. The statistics: the number of active keys lies between 0 and
    the number of keys. A [get] at a time does not change the number of
    keys active at that time; it lowers the number of keys by one when
    the key it asks for is in the store and expired, and leaves it alone
    otherwise. *)
Theorem stats_under_get (key : string) (now : Z) memory_cache :
  let before := get_stats now memory_cache in
  let after := get_stats now (snd (get key now memory_cache)) in
  0 <= active_keys before <= total_keys before /\
  active_keys after = active_keys before /\
  total_keys after =
    match memory_cache !! key with
    | Some entry =>
        if expires_at entry >? now then total_keys before
        else total_keys before - 1
    | None => total_keys before
    end.
Proof.
  intros before after. split; [|split].
  - subst before. unfold get_stats. cbn [active_keys total_keys].
    rewrite <- length_map_to_list.
    pose proof (List.filter_length_le
                  (fun kv : string * CacheEntry V => expires_at (snd kv) >? now)
                  (map_to_list memory_cache)).
    lia.
  - subst before after. unfold get.
    destruct (memory_cache !! key) as [entry|] eqn:Hk; [|reflexivity].
    destruct (Z.gtb_spec (expires_at entry) now); [reflexivity|].
    cbn [snd]. symmetry.
    apply (active_keys_without_expired memory_cache key entry now Hk). lia.
  - subst before after. unfold get.
    destruct (memory_cache !! key) as [entry|] eqn:Hk; [|reflexivity].
    destruct (Z.gtb_spec (expires_at entry) now); [reflexivity|].
    cbn. rewrite map_size_delete_Some by eauto.
    assert (size memory_cache <> 0%nat).
    { intros H0. apply map_size_empty_iff in H0. subst.
      rewrite lookup_empty in Hk. discriminate. }
    lia.
Qed.

(** X16. A pattern made of wildcards only, the empty pattern included,
    clears the whole store and returns the number of keys it held. *)
Theorem clear_pattern_wildcards_only (pattern : string) memory_cache :
  str_remove "*" pattern = "" ->
  clear_pattern pattern memory_cache = (Z.of_nat (size memory_cache), ∅).
Proof.
  intros Hp.
  destruct (clear_pattern_result pattern memory_cache) as (Hlook & Hcount).
  rewrite Hp in Hlook.
  assert (Hempty : snd (clear_pattern pattern memory_cache) = ∅).
  { apply map_eq. intros key. rewrite Hlook, str_contains_empty, lookup_empty.
    reflexivity. }
  rewrite Hempty, map_size_empty in Hcount.
  destruct (clear_pattern pattern memory_cache) as [n cleared].
  cbn in *. subst. f_equal. lia.
Qed.

(** X17. Clearing a pattern a second time finds nothing: it returns 0
    and leaves the store as the first clearing left it. *)
Theorem clear_pattern_twice (pattern : string) memory_cache :
  let cleared := snd (clear_pattern pattern memory_cache) in
  clear_pattern pattern cleared = (0, cleared).
Proof.
  intros cleared.
  destruct (clear_pattern_result pattern memory_cache) as (Hlook & _).
  destruct (clear_pattern_result pattern cleared) as (Hlook2 & Hcount2).
  fold cleared in Hlook.
  assert (Hsame : snd (clear_pattern pattern cleared) = cleared).
  { apply map_eq. intros key. rewrite Hlook2.
    destruct (str_contains (str_remove "*" pattern) key) eqn:Hc; [|reflexivity].
    rewrite Hlook, Hc. reflexivity. }
  rewrite Hsame in Hcount2.
  destruct (clear_pattern pattern cleared) as [n again].
  cbn in *. subst. f_equal. lia.
Qed.

(** X31. An expiry that cannot be built raises nothing: when the time to
    live added to the clock is no datetime, as for a time to live of
    [10 ** 12] seconds, [set] answers [False] and stores nothing, so
    that [get] and [exists] answer for every key as they did before, and
    [expire] with those seconds answers [False] and leaves the entry as
    it was. *)
Theorem unbuildable_expiry_stores_nothing (key : string) (val : V)
  (ttl : option Z) (now : Z) memory_cache :
  is_datetime (now + timedelta_seconds (expire_or_3600 ttl)) = false ->
  set key val ttl now memory_cache = (false, memory_cache) /\
  (forall (other : string) (later : Z),
      get other later (snd (set key val ttl now memory_cache))
        = get other later memory_cache /\
      exists_ other later (snd (set key val ttl now memory_cache))
        = exists_ other later memory_cache) /\
  expire key (expire_or_3600 ttl) now memory_cache = (false, memory_cache).
Proof.
  intros Hsum.
  rewrite (set_out_of_range key val ttl now memory_cache Hsum).
  split; [reflexivity|]. split; [intros other later; split; reflexivity|].
  apply expire_out_of_range. exact Hsum.
Qed.

End Store.

Lemma unbuildable_expiry_stores_nothing_witness :
  let memory_cache : gmap string (CacheEntry nat) :=
    {[ "k" := {| value := 1%nat; expires_at := 63900000000000000 |} ]} in
  set "k" 7%nat (Some (10 ^ 12)) 63800000000000000 memory_cache
    = (false, memory_cache) /\
  expire "k" (10 ^ 12) 63800000000000000 memory_cache = (false, memory_cache).
Proof.
  intros memory_cache.
  destruct (unbuildable_expiry_stores_nothing "k" 7%nat (Some (10 ^ 12))
              63800000000000000 memory_cache) as (Hset & _ & Hexpire).
  - reflexivity.
  - split; [exact Hset | exact Hexpire].
Defined.

Lemma set_then_get_witness :
  let stored := snd (set "k" 7%nat (Some 0) 0 ∅) in
  get "k" 3599999999 stored = (Some 7%nat, stored).
Proof.
  intros stored.
  destruct (set_then_get "k" 7%nat (Some 0) 0 3599999999 ∅) as (_ & Hget & _).
  - reflexivity.
  - reflexivity.
  - reflexivity.
  - exact Hget.
Defined.

Lemma clear_pattern_wildcards_only_witness :
  let memory_cache : gmap string (CacheEntry nat) :=
    {[ "a" := {| value := 1%nat; expires_at := 10 |};
       "b" := {| value := 2%nat; expires_at := 20 |} ]} in
  clear_pattern "**" memory_cache = (Z.of_nat (size memory_cache), ∅).
Proof.
  intros memory_cache.
  apply (clear_pattern_wildcards_only "**" memory_cache). reflexivity.
Defined.

End CacheExtra.

Module StringExtra.
Import StringFacts.

Lemma append_assoc3 (a b c : string) : (a +:+ b) +:+ c = a +:+ (b +:+ c).
Proof.
  induction a as [|x a IH]; [reflexivity|].
  rewrite !append_cons, IH. reflexivity.
Qed.

Lemma chars_append (a b : string) :
  String.list_ascii_of_string (a +:+ b) =
  String.list_ascii_of_string a ++ String.list_ascii_of_string b.
Proof.
  induction a as [|x a IH]; [reflexivity|].
  rewrite append_cons. cbn. rewrite IH. reflexivity.
Qed.

Lemma str_remove_append (c : Ascii.ascii) (a b : string) :
  str_remove c (a +:+ b) = str_remove c a +:+ str_remove c b.
Proof.
  induction a as [|x a IH]; [reflexivity|].
  rewrite append_cons. cbn. destruct (Ascii.eqb x c); rewrite IH; reflexivity.
Qed.

(** Every character of a substring is a character of the string. *)
Lemma str_contains_chars (sub s : string) (c : Ascii.ascii) :
  str_contains sub s = true ->
  In c (String.list_ascii_of_string sub) ->
  In c (String.list_ascii_of_string s).
Proof.
  intros Hc Hin. apply str_contains_spec in Hc as (pre & post & ->).
  rewrite !chars_append, !in_app_iff. tauto.
Qed.

End StringExtra.

Module CacheHelpersExtra.
Import Cache CacheRuns CacheMore CacheFacts StringFacts StringExtra CacheExtra.

Section Helpers.
Context {V : Type}.
Implicit Types (memory_cache : gmap string (CacheEntry V)).

(** X18. A profile stored with [cache_user_profile], with an expiry that
    is a datetime, is returned by [get_cached_user_profile] while it
    lives. [invalidate_user_cache]
    for a user id without wildcard removes the profile of that user and,
    with it, the profile of every user whose id begins with that id, and
    the cached query results of all users; a key that contains none of
    the three patterns keeps its entry. *)
Theorem invalidate_user_cache_reach (user_id : string) memory_cache :
  str_remove "*" user_id = user_id ->
  let cleared := invalidate_user_cache user_id memory_cache in
  (forall (data : V) (expire now later : Z),
      is_datetime now = true ->
      is_datetime (now + timedelta_seconds (expire_or_3600 (Some expire))) = true ->
      later < now + timedelta_seconds (expire_or_3600 (Some expire)) ->
      fst (get_cached_user_profile user_id later
             (snd (cache_user_profile user_id data expire now memory_cache)))
        = Some data) /\
  (forall (rest : string) (now : Z),
      fst (get_cached_user_profile (user_id +:+ rest) now cleared) = None) /\
  (forall (query_hash : string) (now : Z),
      fst (get_cached_query_result query_hash now cleared) = None) /\
  (forall key : string,
      str_contains ("user:profile:" +:+ user_id) key = false ->
      str_contains "query:result:" key = false ->
      str_contains ("session:data:" +:+ user_id) key = false ->
      cleared !! key = memory_cache !! key).
Proof.
  intros Hu cleared.
  assert (Hp1 : str_remove "*" (USER_PROFILE +:+ ":" +:+ user_id)
                = "user:profile:" +:+ user_id).
  { rewrite !str_remove_append, Hu. reflexivity. }
  assert (Hp3 : str_remove "*" (SESSION_DATA +:+ ":" +:+ user_id)
                = "session:data:" +:+ user_id).
  { rewrite !str_remove_append, Hu. reflexivity. }
  assert (Hlook : forall key,
    cleared !! key =
      if str_contains ("user:profile:" +:+ user_id) key then None
      else if str_contains "query:result:" key then None
      else if str_contains ("session:data:" +:+ user_id) key then None
      else memory_cache !! key).
  { intros key. subst cleared. unfold invalidate_user_cache. cbn [fold_left].
    destruct (clear_pattern_result (SESSION_DATA +:+ ":" +:+ user_id)
                (snd (clear_pattern (QUERY_RESULT +:+ ":*")
                   (snd (clear_pattern (USER_PROFILE +:+ ":" +:+ user_id)
                           memory_cache))))) as (H3 & _).
    destruct (clear_pattern_result (QUERY_RESULT +:+ ":*")
                (snd (clear_pattern (USER_PROFILE +:+ ":" +:+ user_id)
                        memory_cache))) as (H2 & _).
    destruct (clear_pattern_result (USER_PROFILE +:+ ":" +:+ user_id)
                memory_cache) as (H1 & _).
    rewrite H3, H2, H1, Hp1, Hp3.
    change (str_remove "*" (QUERY_RESULT +:+ ":*")) with "query:result:".
    destruct (str_contains ("session:data:" +:+ user_id) key),
             (str_contains "query:result:" key),
             (str_contains ("user:profile:" +:+ user_id) key); reflexivity. }
  split; [|split; [|split]].
  - intros data expire now later Hnow Hsum Hlater.
    unfold get_cached_user_profile, cache_user_profile.
    destruct (set_get_live (USER_PROFILE +:+ ":" +:+ user_id) data (Some expire)
                now later memory_cache Hnow Hsum Hlater) as (_ & Hget & _).
    rewrite Hget. reflexivity.
  - intros rest now. unfold get_cached_user_profile, get.
    rewrite Hlook.
    assert (Hc : str_contains ("user:profile:" +:+ user_id)
                   (USER_PROFILE +:+ ":" +:+ user_id +:+ rest) = true).
    { apply str_contains_spec. exists "", rest.
      rewrite append_empty.
      change (USER_PROFILE +:+ ":" +:+ user_id +:+ rest)
        with ("user:profile:" +:+ (user_id +:+ rest)).
      rewrite append_assoc3. reflexivity. }
    rewrite Hc. reflexivity.
  - intros query_hash now. unfold get_cached_query_result, get.
    rewrite Hlook.
    assert (Hc : str_contains "query:result:"
                   (QUERY_RESULT +:+ ":" +:+ query_hash) = true).
    { apply str_contains_spec. exists "", query_hash. reflexivity. }
    rewrite Hc.
    destruct (str_contains ("user:profile:" +:+ user_id)
                (QUERY_RESULT +:+ ":" +:+ query_hash)); reflexivity.
  - intros key H1 H2 H3. rewrite Hlook, H1, H2, H3. reflexivity.
Qed.

(** X20. [clear_pattern] cannot reach a key that is a hexadecimal
    digest, as the keys of [_generate_key] are, with a pattern that has
    any other character than a wildcard or a hexadecimal digit: such a
    key keeps its entry. *)
Theorem clear_pattern_spares_digests (key pattern : string) (c : Ascii.ascii)
  memory_cache :
  Forall (fun a => is_hex_digit a = true) (String.list_ascii_of_string key) ->
  In c (String.list_ascii_of_string (str_remove "*" pattern)) ->
  is_hex_digit c = false ->
  snd (clear_pattern pattern memory_cache) !! key = memory_cache !! key.
Proof.
  intros Hhex Hin Hc.
  destruct (clear_pattern_result pattern memory_cache) as (Hlook & _).
  rewrite Hlook.
  destruct (str_contains (str_remove "*" pattern) key) eqn:Hsub; [|reflexivity].
  exfalso. pose proof (str_contains_chars _ _ c Hsub Hin) as Hkey.
  rewrite Forall_forall in Hhex.
  apply list_elem_of_In in Hkey. specialize (Hhex c Hkey). congruence.
Qed.

End Helpers.

Lemma invalidate_user_cache_reach_witness :
  let memory_cache : gmap string (CacheEntry nat) :=
    {[ "user:profile:12" := {| value := 1%nat; expires_at := 10 |} ]} in
  fst (get_cached_user_profile ("1" +:+ "2") 0
         (invalidate_user_cache "1" memory_cache)) = None.
Proof.
  intros memory_cache.
  destruct (invalidate_user_cache_reach "1" memory_cache) as (_ & Hother & _).
  - reflexivity.
  - exact (Hother "2" 0).
Defined.

Lemma clear_pattern_spares_digests_witness :
  let memory_cache : gmap string (CacheEntry nat) :=
    {[ "0cc175b9c0f1b6a831c399e269772661"
         := {| value := 1%nat; expires_at := 10 |} ]} in
  snd (clear_pattern "query:result:*" memory_cache)
    !! "0cc175b9c0f1b6a831c399e269772661"
  = memory_cache !! "0cc175b9c0f1b6a831c399e269772661".
Proof.
  intros memory_cache.
  apply (clear_pattern_spares_digests "0cc175b9c0f1b6a831c399e269772661"
           "query:result:*" ":"%char memory_cache).
  - repeat constructor.
  - cbn. tauto.
  - reflexivity.
Defined.

End CacheHelpersExtra.

Module DecoratorExtra.
Import Cache CacheMore.

Section Cached.
Context {Args R E W : Type}.
Variable _generate_key : string -> Args -> string.
Variable func : Args -> W -> (E + option R) * W.

(** X19. A function wrapped by [cached], called with arguments whose key
    is not in the store and with a time to live for which the expiry is
    a datetime: when the function returns a value other than [None],
    that value is stored, and a call with the same arguments made before
    the time to live has passed returns it without running the function
    and without touching the store. When the function returns [None],
    the next call runs the function again, however soon it comes. *)
Theorem cached_serves_stored_value (prefix : string) (expire : Z) (args : Args)
  (now_get now_set later_get later_set : Z)
  (memory_cache : gmap string (CacheEntry (option R))) (w w1 w2 : W)
  (result : option R) :
  memory_cache !! _generate_key prefix args = None ->
  func args w = (inr result, w1) ->
  is_datetime now_set = true ->
  is_datetime (now_set + timedelta_seconds (expire_or_3600 (Some expire))) = true ->
  later_get < now_set + timedelta_seconds (expire_or_3600 (Some expire)) ->
  let first :=
    cached _generate_key prefix expire func args now_get now_set memory_cache w in
  let stored := snd (fst first) in
  let second :=
    cached _generate_key prefix expire func args later_get later_set stored w2 in
  first = (inr result,
           snd (set (_generate_key prefix args) result (Some expire) now_set
                  memory_cache), w1) /\
  match result with
  | Some r => second = (inr (Some r), stored, w2)
  | None =>
      fst (fst second) = fst (func args w2) /\ snd second = snd (func args w2)
  end.
Proof.
  intros Hfresh Hfunc Hnow Hsum Hlater first stored second.
  assert (Hfirst : first = (inr result,
             snd (set (_generate_key prefix args) result (Some expire) now_set
                    memory_cache), w1)).
  { subst first. unfold cached, get. rewrite Hfresh, Hfunc.
    destruct (set _ _ _ _ _) as [answer stored']. reflexivity. }
  split; [exact Hfirst|].
  assert (Hstored : stored !! _generate_key prefix args =
            Some {| value := result;
                    expires_at := now_set
                      + timedelta_seconds (expire_or_3600 (Some expire)) |}).
  { subst stored. rewrite Hfirst. cbn [fst snd].
    rewrite (CacheFacts.set_in_range _ _ _ _ _ Hnow Hsum). cbn [snd].
    apply lookup_insert_eq. }
  subst second. unfold cached, get. rewrite Hstored. cbn [expires_at value].
  destruct (Z.gtb_spec
              (now_set + timedelta_seconds (expire_or_3600 (Some expire)))
              later_get); [|lia].
  destruct result as [r|]; [reflexivity|].
  destruct (func args w2) as [[e|res] w3]; [split; reflexivity|].
  destruct (set _ _ _ later_set _) as [answer stored']. split; reflexivity.
Qed.

End Cached.

Lemma cached_serves_stored_value_witness :
  let key : string -> nat -> string := fun _ _ => "0cc175b9c0f1b6a831c399e269772661" in
  let func : nat -> nat -> (string + option nat) * nat :=
    fun n calls => (inr (Some (n + 1)%nat), S calls) in
  let first := cached key "query" 60 func 41%nat 0 0 ∅ 0%nat in
  cached key "query" 60 func 41%nat 59999999 59999999 (snd (fst first)) 1%nat
  = (inr (Some 42%nat), snd (fst first), 1%nat).
Proof.
  intros key func first.
  destruct (cached_serves_stored_value key func "query" 60 41%nat 0 0
              59999999 59999999 ∅ 0%nat 1%nat 1%nat (Some 42%nat))
    as (_ & Hsecond).
  - reflexivity.
  - reflexivity.
  - reflexivity.
  - reflexivity.
  - reflexivity.
  - exact Hsecond.
Defined.

End DecoratorExtra.

(** ** The rate limiter *)

Module SecurityExtra.
Import Cache Security.

(** Storing the entry of a window that fits. *)
Lemma set_window (key : string) (val : Z * Z) (window now_set : Z)
  (memory_cache : gmap string (CacheEntry (Z * Z))) :
  0 < window ->
  window_fits window now_set ->
  set key val (Some window) now_set memory_cache =
    (true,
     <[key := {| value := val;
                 expires_at := now_set + timedelta_seconds window |}]>
       memory_cache).
Proof.
  intros Hw (Hnow & Hsum).
  assert (Hexpire : expire_or_3600 (Some window) = window).
  { cbn. destruct (Z.eqb_spec window 0); [lia | reflexivity]. }
  rewrite CacheFacts.set_in_range by (rewrite ?Hexpire; assumption).
  rewrite Hexpire. reflexivity.
Qed.

(** One request of a client whose window is counting. *)
Lemma check_counting (user_id : option string) (client_ip : string)
  (limit window : Z) (r : Request) (count start alive : Z)
  (memory_cache : gmap string (CacheEntry (Z * Z))) :
  let key := rate_limit_key user_id client_ip in
  counting key count start alive memory_cache ->
  0 < window ->
  window_fits window (at_set r) ->
  at_get r < alive ->
  at_time r - start < window ->
  alive <= at_set r + timedelta_seconds window ->
  let checked :=
    check_rate_limit user_id client_ip limit window (at_time r) (at_get r)
      (at_set r) memory_cache in
  fst checked = (count <? limit) /\
  if count <? limit
  then counting key (count + 1) start alive (snd checked)
  else snd checked = memory_cache.
Proof.
  intros key (entry & Hk & Hv & Halive) Hw Hfits Hget Htime Hset checked.
  subst checked. unfold check_rate_limit. fold key. unfold get. rewrite Hk.
  destruct (Z.gtb_spec (expires_at entry) (at_get r)); [|lia].
  rewrite Hv.
  destruct (Z.ltb_spec (at_time r - start) window); [|lia].
  destruct (Z.leb_spec limit count), (Z.ltb_spec count limit); try lia.
  - split; reflexivity.
  - cbn [fst snd]. split; [reflexivity|].
    rewrite (set_window _ _ _ _ _ Hw Hfits). cbn [snd].
    eexists. rewrite lookup_insert_eq.
    split; [reflexivity|]. split; [reflexivity|]. cbn [expires_at]. exact Hset.
Qed.

(** A series of requests of a client whose window is counting: a
    request is admitted as long as the count is below the limit. *)
Lemma check_requests_counting (user_id : option string) (client_ip : string)
  (limit window start alive : Z) (requests : list Request) :
  0 < window ->
  (forall r : Request, r ∈ requests ->
     window_fits window (at_set r) /\
     at_get r < alive /\ at_time r - start < window /\
     alive <= at_set r + timedelta_seconds window) ->
  forall (count : Z) (memory_cache : gmap string (CacheEntry (Z * Z))),
    counting (rate_limit_key user_id client_ip) count start alive memory_cache ->
    fst (check_requests user_id client_ip limit window requests memory_cache)
    = map (fun j : nat => count + Z.of_nat j <? limit) (seq 0 (length requests)).
Proof.
  intros Hw. induction requests as [|r rest IH]; intros Hall count memory_cache Hc.
  - reflexivity.
  - cbn [check_requests].
    destruct (Hall r) as (Hfits & Hget & Htime & Hset); [left|].
    destruct (check_counting user_id client_ip limit window r count start alive
                memory_cache Hc Hw Hfits Hget Htime Hset) as (Hres & Hafter).
    destruct (check_rate_limit user_id client_ip limit window (at_time r)
                (at_get r) (at_set r) memory_cache) as [allowed mc1].
    cbn [fst snd] in Hres, Hafter.
    assert (Hrest : forall r', r' ∈ rest ->
              window_fits window (at_set r') /\
              at_get r' < alive /\ at_time r' - start < window /\
              alive <= at_set r' + timedelta_seconds window)
      by (intros r' Hr'; apply Hall; right; exact Hr').
    destruct (Z.ltb_spec count limit) as [Hlt|Hge].
    + specialize (IH Hrest (count + 1) mc1 Hafter).
      destruct (check_requests user_id client_ip limit window rest mc1)
        as [others mc2].
      cbn [fst] in *. cbn [length seq map]. rewrite Hres, IH. f_equal.
      * rewrite Z.add_0_r. symmetry. apply Z.ltb_lt. exact Hlt.
      * rewrite <- seq_shift, map_map. apply map_ext. intros j.
        f_equal. lia.
    + subst mc1. specialize (IH Hrest count memory_cache Hc).
      destruct (check_requests user_id client_ip limit window rest memory_cache)
        as [others mc2].
      cbn [fst] in *. cbn [length seq map]. rewrite Hres, IH. f_equal.
      * rewrite Z.add_0_r. symmetry. apply Z.ltb_ge. exact Hge.
      * rewrite <- seq_shift, map_map. apply map_ext. intros j.
        destruct (Z.ltb_spec (count + Z.of_nat j) limit),
                 (Z.ltb_spec (count + Z.of_nat (S j)) limit); try lia; reflexivity.
Qed.

(** X21. A client the limiter has nothing stored for sends a series of
    requests, all within [window] seconds of the first and while the
    entry written for the first has not expired, at times for which the
    entry of the window can be stored: the first request is always
    admitted, and of the following ones exactly those for which fewer
    than [limit] requests have been admitted before. So at most [limit]
    requests pass in the window, or one when [limit] is below one. *)
Theorem rate_limit_admits_up_to_limit (user_id : option string)
  (client_ip : string) (limit window : Z) (first : Request)
  (rest : list Request) (memory_cache : gmap string (CacheEntry (Z * Z))) :
  memory_cache !! rate_limit_key user_id client_ip = None ->
  0 < window ->
  window_fits window (at_set first) ->
  (forall r : Request, r ∈ rest ->
     window_fits window (at_set r) /\
     at_time r - at_time first < window /\
     at_set first <= at_set r /\
     at_get r < at_set first + timedelta_seconds window) ->
  fst (check_requests user_id client_ip limit window (first :: rest) memory_cache)
  = true :: map (fun j : nat => 1 + Z.of_nat j <? limit) (seq 0 (length rest)).
Proof.
  intros Hfresh Hw Hfits Hall. cbn [check_requests].
  unfold check_rate_limit at 1. unfold get at 1. rewrite Hfresh.
  set (mc1 := snd (set (rate_limit_key user_id client_ip) (1, at_time first)
                     (Some window) (at_set first) memory_cache)).
  assert (Hc : counting (rate_limit_key user_id client_ip) 1 (at_time first)
                 (at_set first + timedelta_seconds window) mc1).
  { subst mc1. rewrite (set_window _ _ _ _ _ Hw Hfits). cbn [snd].
    eexists. rewrite lookup_insert_eq.
    split; [reflexivity|]. split; [reflexivity|]. cbn [expires_at]. lia. }
  pose proof (check_requests_counting user_id client_ip limit window
                (at_time first) (at_set first + timedelta_seconds window) rest Hw)
    as Hrest.
  rewrite <- (Hrest) with (memory_cache := mc1); [| |exact Hc].
  - destruct (check_requests user_id client_ip limit window rest mc1)
      as [others mc2]. reflexivity.
  - intros r Hr. destruct (Hall r Hr) as (H0 & H1 & H2 & H3).
    split; [exact H0|]. unfold timedelta_seconds in *. lia.
Qed.

Lemma rate_limit_admits_up_to_limit_witness :
  fst (check_requests (Some "alice") "10.0.0.1" 2 60
         [ {| at_time := 100; at_get := 100000000; at_set := 100000001 |};
           {| at_time := 101; at_get := 101000000; at_set := 101000001 |};
           {| at_time := 102; at_get := 102000000; at_set := 102000001 |} ] ∅)
  = [true; true; false].
Proof.
  apply (rate_limit_admits_up_to_limit (Some "alice") "10.0.0.1" 2 60
           {| at_time := 100; at_get := 100000000; at_set := 100000001 |}
           [ {| at_time := 101; at_get := 101000000; at_set := 101000001 |};
             {| at_time := 102; at_get := 102000000; at_set := 102000001 |} ] ∅).
  - reflexivity.
  - lia.
  - split; reflexivity.
  - intros r Hr. apply list_elem_of_In in Hr.
    destruct Hr as [<-|[<-|[]]];
      (split; [split; reflexivity | unfold timedelta_seconds; cbn; lia]).
Defined.

(** X22. Whatever count is stored for a client, once its entry has
    expired or [window] seconds have passed since the start of its
    window, the next request is admitted and, made at a time for which
    the entry of the window can be stored, starts a new window with the
    count 1 at the time of that request. *)
Theorem rate_limit_new_window (user_id : option string) (client_ip : string)
  (limit window current_time now_get now_set : Z)
  (entry : CacheEntry (Z * Z))
  (memory_cache : gmap string (CacheEntry (Z * Z))) :
  memory_cache !! rate_limit_key user_id client_ip = Some entry ->
  expires_at entry <= now_get \/ window <= current_time - snd (value entry) ->
  window_fits (expire_or_3600 (Some window)) now_set ->
  let checked :=
    check_rate_limit user_id client_ip limit window current_time now_get now_set
      memory_cache in
  fst checked = true /\
  snd checked !! rate_limit_key user_id client_ip =
    Some {| value := (1, current_time);
            expires_at := now_set + timedelta_seconds (expire_or_3600 (Some window)) |}.
Proof.
  intros Hk Hnew (Hnow & Hsum) checked. subst checked.
  unfold check_rate_limit, get.
  rewrite Hk. destruct entry as [[count start] expires].
  cbn [expires_at value snd] in *.
  destruct (Z.gtb_spec expires now_get).
  - destruct Hnew as [?|Hwin]; [lia|].
    destruct (Z.ltb_spec (current_time - start) window); [lia|].
    rewrite (CacheFacts.set_in_range _ _ _ _ _ Hnow Hsum).
    cbn [fst snd]. split; [reflexivity|]. apply lookup_insert_eq.
  - rewrite (CacheFacts.set_in_range _ _ _ _ _ Hnow Hsum).
    cbn [fst snd]. split; [reflexivity|]. apply lookup_insert_eq.
Qed.

Lemma rate_limit_new_window_witness :
  let memory_cache : gmap string (CacheEntry (Z * Z)) :=
    {[ "rate_limit:alice" := {| value := (60, 100); expires_at := 200000000 |} ]} in
  fst (check_rate_limit (Some "alice") "10.0.0.1" 60 60 160 160000000 160000001
         memory_cache) = true.
Proof.
  intros memory_cache.
  destruct (rate_limit_new_window (Some "alice") "10.0.0.1" 60 60 160 160000000
              160000001 {| value := (60, 100); expires_at := 200000000 |}
              memory_cache) as (Hok & _).
  - reflexivity.
  - right. cbn. lia.
  - split; reflexivity.
  - exact Hok.
Defined.

End SecurityExtra.

(** ** More on the request figures *)

Module MetricsExtra.
Import Monitoring MonitoringMore.

Lemma deque_append_length {A : Type} (maxlen : nat) (x : A) (d : list A) :
  (0 < maxlen)%nat -> (length d <= maxlen)%nat ->
  (length (deque_append maxlen x d) <= maxlen)%nat.
Proof.
  intros Hpos Hlen. unfold deque_append.
  destruct (Nat.leb_spec maxlen (length d)).
  - rewrite length_app. destruct d; cbn in *; lia.
  - rewrite length_app. cbn. lia.
Qed.

(** What the calls on the counters keep. *)
Lemma collector_step_keeps (mc : MetricsCollector) (c : collector_call) :
  0 <= error_count mc <= total_requests mc ->
  (length (request_times mc) <= 1000)%nat ->
  0 <= error_count (collector_step mc c) <= total_requests (collector_step mc c) /\
  (length (request_times (collector_step mc c)) <= 1000)%nat.
Proof.
  intros Hc Hl. destruct c as [response_time is_error|now]; cbn.
  - split; [destruct is_error; lia|]. apply deque_append_length; [lia | exact Hl].
  - unfold _calculate_requests_per_minute.
    destruct (timedelta_seconds 60 <=? now - last_reset mc); cbn; split; auto; lia.
Qed.

Lemma error_rate_bounds (mc : MetricsCollector) :
  0 <= error_count mc <= total_requests mc ->
  (0 <= _calculate_error_rate mc)%Q /\ (_calculate_error_rate mc <= 100)%Q.
Proof.
  intros (He & Ht). unfold _calculate_error_rate.
  destruct (Z.eqb_spec (total_requests mc) 0) as [H0|Hne].
  - split; discriminate.
  - assert (Hpos : (0 < inject_Z (total_requests mc))%Q).
    { change 0%Q with (inject_Z 0). rewrite <- Zlt_Qlt. lia. }
    assert (Hlo : (0 <= inject_Z (error_count mc) / inject_Z (total_requests mc))%Q).
    { apply Qle_shift_div_l; [exact Hpos|]. rewrite Qmult_0_l.
      change 0%Q with (inject_Z 0). rewrite <- Zle_Qle. exact He. }
    assert (Hhi : (inject_Z (error_count mc) / inject_Z (total_requests mc) <= 1)%Q).
    { apply Qle_shift_div_r; [exact Hpos|]. rewrite Qmult_1_l.
      rewrite <- Zle_Qle. exact Ht. }
    split; lra.
Qed.

Lemma collector_after_keeps (calls : list collector_call) :
  forall mc : MetricsCollector,
    0 <= error_count mc <= total_requests mc ->
    (length (request_times mc) <= 1000)%nat ->
    0 <= error_count (collector_after calls mc)
      <= total_requests (collector_after calls mc) /\
    (length (request_times (collector_after calls mc)) <= 1000)%nat.
Proof.
  induction calls as [|c calls IH]; intros mc Hc Hl; [split; assumption|].
  change (collector_after (c :: calls) mc)
    with (collector_after calls (collector_step mc c)).
  destruct (collector_step_keeps mc c Hc Hl) as (Hc' & Hl').
  apply IH; assumption.
Qed.

(** X23. On a collector that is new and used through [record_request]
    and the per-minute computation only, the error counter never exceeds
    the request counter and neither is negative, the buffer of response
    times never holds more than 1000 samples, and the error rate is a
    percentage between 0 and 100. *)
Theorem collector_counters_in_range (created : Z) (calls : list collector_call) :
  let mc := collector_after calls (MetricsCollector_init created) in
  0 <= error_count mc <= total_requests mc /\
  (length (request_times mc) <= 1000)%nat /\
  (0 <= _calculate_error_rate mc)%Q /\ (_calculate_error_rate mc <= 100)%Q.
Proof.
  intros mc.
  destruct (collector_after_keeps calls (MetricsCollector_init created))
    as (Hc & Hl); [cbn; lia | cbn; lia |].
  fold mc in Hc, Hl. split; [exact Hc|]. split; [exact Hl|].
  apply error_rate_bounds, Hc.
Qed.

(** X24. The sample taken when the minute rolls over: in
    [collect_metrics] the counters are reset before the error rate is
    computed, so a collection made sixty seconds or more after the last
    reset reports 0 requests per minute and an error rate of 0, whatever
    was counted in the minute that ends; the average response time is
    not affected by the reset. *)
Theorem rollover_sample_reports_nothing (now : Z) (mc : MetricsCollector) :
  timedelta_seconds 60 <= now - last_reset mc ->
  fst (collect_request_metrics now mc)
    = (0, 0%Q, _calculate_avg_response_time mc) /\
  total_requests (snd (collect_request_metrics now mc)) = 0 /\
  error_count (snd (collect_request_metrics now mc)) = 0.
Proof.
  intros H. unfold collect_request_metrics, _calculate_requests_per_minute.
  destruct (Z.leb_spec (timedelta_seconds 60) (now - last_reset mc)); [|lia].
  cbn. repeat split.
Qed.

Lemma rollover_sample_reports_nothing_witness :
  let mc :=
    {| request_times := [1; 3]%Q; error_count := 4; total_requests := 5;
       last_reset := 0 |} in
  fst (collect_request_metrics 60000000 mc)
    = (0, 0%Q, _calculate_avg_response_time mc).
Proof.
  intros mc.
  destruct (rollover_sample_reports_nothing 60000000 mc) as (Hsample & _).
  - vm_compute. discriminate.
  - exact Hsample.
Defined.

End MetricsExtra.

(** ** More on alerts and health checks *)

Module AlertExtra.
Import Monitoring MonitoringRuns MonitoringMore AlertFacts.

Lemma evaluate_condition_error (value : Q) (operator : string)
  (threshold : Q + string) (err : builtin_error) :
  _evaluate_condition value operator threshold = inl err -> err = TypeError.
Proof.
  unfold _evaluate_condition. destruct threshold as [t|t];
    repeat match goal with
           | |- context [String.eqb ?a ?b] => destruct (String.eqb a b)
           end; intros [=]; congruence.
Qed.

Section Services.
Context {W Details E : Type}.
Variable str : E -> string.
Variable is_exception : E -> bool.
Variable utcnow : W -> Z * W.
Variable time_time : W -> Q * W.

(** The alerts on metrics keep what was found before and add, in the
    order of the rules, the names of the rules that are breached. *)
Lemma metric_alerts_default (metrics : SystemMetrics) (found : list Alert) (w : W) :
  exists (added : list Alert) (w' : W),
    metric_alerts utcnow time_time metrics setup_default_rules found w
      = (inr (found ++ added), w') /\
    map alert_rule added =
      (if Qgtb (cpu_usage metrics) 90 then ["high_cpu"] else [])
      ++ (if Qgtb (memory_usage metrics) 90 then ["high_memory"] else [])
      ++ (if Qgtb (disk_usage metrics) 90 then ["high_disk"] else [])
      ++ (if Qgtb (error_rate metrics) 10 then ["high_error_rate"] else []).
Proof.
  unfold setup_default_rules. cbn [metric_alerts]. cbn.
  destruct (Qgtb (cpu_usage metrics) 90).
  all: repeat match goal with
         | |- context [time_time ?x] => destruct (time_time x)
         | |- context [utcnow ?x] => destruct (utcnow x)
         end.
  all: destruct (Qgtb (memory_usage metrics) 90).
  all: repeat match goal with
         | |- context [time_time ?x] => destruct (time_time x)
         | |- context [utcnow ?x] => destruct (utcnow x)
         end.
  all: destruct (Qgtb (disk_usage metrics) 90).
  all: repeat match goal with
         | |- context [time_time ?x] => destruct (time_time x)
         | |- context [utcnow ?x] => destruct (utcnow x)
         end.
  all: destruct (Qgtb (error_rate metrics) 10).
  all: repeat match goal with
         | |- context [time_time ?x] => destruct (time_time x)
         | |- context [utcnow ?x] => destruct (utcnow x)
         end.
  all: rewrite <- ?app_assoc.
  all: first [ eexists _, _; split; [reflexivity | reflexivity]
             | exists [], w; rewrite app_nil_r; split; reflexivity ].
Qed.

(** One alert per unhealthy record, in the order of the records. *)
Lemma service_alerts_added
  (health_status : list (string * ServiceHealth (Details := Details))) :
  forall (found : list Alert) (w : W),
    exists (added : list Alert) (w' : W),
      service_alerts utcnow time_time health_status found w
        = (found ++ added, w') /\
      Forall2
        (fun (alert : Alert) (record : string * ServiceHealth) =>
           alert_service alert = Some (fst record) /\
           alert_rule alert = "service_unhealthy" /\
           alert_severity alert = "critical" /\
           alert_message alert =
             "Service " +:+ fst record +:+ " is unhealthy: "
             +:+ format_optional (error_message (snd record)))
        added
        (List.filter (fun record => String.eqb (status (snd record)) "unhealthy")
           health_status).
Proof.
  induction health_status as [|[service_name health] rest IH]; intros found w.
  - exists [], w. cbn. rewrite app_nil_r. split; [reflexivity | constructor].
  - cbn [service_alerts List.filter snd].
    destruct (String.eqb (status health) "unhealthy").
    + destruct (time_time w) as [t w1]. destruct (utcnow w1) as [now w2].
      destruct (IH (found ++
                    [ServiceAlert ("service_" +:+ service_name +:+ "_"
                                   +:+ pretty (py_int t))
                       "service_unhealthy" "critical"
                       ("Service " +:+ service_name +:+ " is unhealthy: "
                        +:+ format_optional (error_message health))
                       service_name now]) w2)
        as (added & w' & Hrun & Hall).
      eexists (_ :: added), w'. split.
      * rewrite Hrun, <- app_assoc. reflexivity.
      * constructor; [|exact Hall]. cbn. repeat split.
    + apply IH.
Qed.

(** X28. [check_alerts] files exactly one service alert for every
    health record whose status is ["unhealthy"], in the order of the
    records and none for the others; the alert is critical, carries the
    name of the service and has the error message of the record in its
    message. *)
Theorem service_alert_per_unhealthy_record
  (health_status : list (string * ServiceHealth (Details := Details)))
  (w : W) :
  exists added : list Alert,
    fst (service_alerts utcnow time_time health_status [] w) = added /\
    Forall2
      (fun (alert : Alert) (record : string * ServiceHealth) =>
         alert_service alert = Some (fst record) /\
         alert_rule alert = "service_unhealthy" /\
         alert_severity alert = "critical" /\
         alert_message alert =
           "Service " +:+ fst record +:+ " is unhealthy: "
           +:+ format_optional (error_message (snd record)))
      added
      (List.filter (fun record => String.eqb (status (snd record)) "unhealthy")
         health_status).
Proof.
  destruct (service_alerts_added health_status [] w) as (added & w' & Hrun & Hall).
  exists added. rewrite Hrun. split; [reflexivity | exact Hall].
Qed.

(** X26. With the default rules and handlers that raise nothing but
    instances of [Exception], [check_alerts] never raises, whatever the
    metrics are, and files one alert for each of: CPU usage above 90,
    memory usage above 90, disk usage above 90, error rate above 10, in
    that order, followed by the alerts for unhealthy services. *)
Theorem default_rules_alert_on_breaches (metrics : SystemMetrics)
  (health_status : list (string * ServiceHealth (Details := Details)))
  (am : AlertManager (W := W) (E := E)) (w : W) (logged : list LogRecord) :
  alert_rules am = setup_default_rules ->
  handlers_raise_exceptions is_exception (alert_handlers am) ->
  let checked :=
    check_alerts str is_exception utcnow time_time metrics health_status am w
      logged in
  fst (fst (fst checked)) = inr (inr tt) /\
  exists on_metrics on_services : list Alert,
    alerts (snd (fst (fst checked))) = alerts am ++ on_metrics ++ on_services /\
    map alert_rule on_metrics =
      (if Qgtb (cpu_usage metrics) 90 then ["high_cpu"] else [])
      ++ (if Qgtb (memory_usage metrics) 90 then ["high_memory"] else [])
      ++ (if Qgtb (disk_usage metrics) 90 then ["high_disk"] else [])
      ++ (if Qgtb (error_rate metrics) 10 then ["high_error_rate"] else []) /\
    map alert_service on_services =
      map (fun record => Some (fst record))
        (List.filter (fun record => String.eqb (status (snd record)) "unhealthy")
           health_status).
Proof.
  intros Hrules Hcaught checked. subst checked. unfold check_alerts.
  rewrite Hrules.
  destruct (metric_alerts_default metrics [] w)
    as (on_metrics & w1 & Hmetric & Hnames).
  rewrite Hmetric. cbn [app].
  destruct (service_alerts_added health_status on_metrics w1)
    as (on_services & w2 & Hservice & Hall).
  rewrite Hservice.
  destruct (process_alerts_manager str is_exception (on_metrics ++ on_services)
              am w2 logged Hcaught) as (Hnone & Hfiled).
  destruct (process_alerts str is_exception (on_metrics ++ on_services) am w2
              logged) as [[[o am1] w3] log1].
  cbn [fst snd] in *. subst o am1. split; [reflexivity|].
  exists on_metrics, on_services. split; [reflexivity|]. split; [exact Hnames|].
  clear -Hall. induction Hall as [|a r l1 l2 (Hs & _) _ IH]; [reflexivity|].
  cbn. rewrite Hs, IH. reflexivity.
Qed.

(** A rule that orders a scalar metric against a text makes the first
    loop of [check_alerts] raise. *)
Lemma metric_alerts_raises (metrics : SystemMetrics) (rule_name : string)
  (rule : AlertRule) (text : string) (rules : list (string * AlertRule)) :
  In (rule_name, rule) rules ->
  metric_attr metrics (metric rule) <> None ->
  threshold rule = inr text ->
  In (operator rule) [">"; "<"; ">="; "<="] ->
  forall (found : list Alert) (w : W),
    exists w' : W,
      metric_alerts utcnow time_time metrics rules found w = (inl TypeError, w').
Proof.
  intros Hin Hmetric Hth Hop.
  induction rules as [|[name0 rule0] rest IH]; intros found w; [destruct Hin|].
  cbn [metric_alerts].
  destruct Hin as [Heq|Hin].
  - injection Heq as -> ->.
    destruct (metric_attr metrics (metric rule)) as [v|]; [|congruence].
    rewrite Hth. unfold _evaluate_condition.
    cbn in Hop. destruct Hop as [<-|[<-|[<-|[<-|[]]]]]; cbn; eexists; reflexivity.
  - destruct (metric_attr metrics (metric rule0)) as [v|]; [|apply IH, Hin].
    destruct (_evaluate_condition v (operator rule0) (threshold rule0))
      as [err|[|]] eqn:Hev.
    + apply evaluate_condition_error in Hev. subst err. eexists. reflexivity.
    + destruct (time_time w) as [t w1]. destruct (utcnow w1) as [now w2].
      apply IH, Hin.
    + apply IH, Hin.
Qed.

(** X27. A rule on one of the four scalar metrics whose threshold is a
    text and whose operator is an ordering makes [check_alerts] raise
    [TypeError] while it evaluates the rules: no alert is filed, no
    handler is called and nothing is logged, also for the rules that
    are breached. *)
Theorem text_threshold_stops_check_alerts (metrics : SystemMetrics)
  (health_status : list (string * ServiceHealth (Details := Details)))
  (am : AlertManager (W := W) (E := E)) (w : W) (logged : list LogRecord)
  (rule_name : string) (rule : AlertRule) (text : string) :
  In (rule_name, rule) (alert_rules am) ->
  metric_attr metrics (metric rule) <> None ->
  threshold rule = inr text ->
  In (operator rule) [">"; "<"; ">="; "<="] ->
  exists w' : W,
    check_alerts str is_exception utcnow time_time metrics health_status am w
      logged
      = (inl TypeError, am, w', logged).
Proof.
  intros Hin Hmetric Hth Hop. unfold check_alerts.
  destruct (metric_alerts_raises metrics rule_name rule text (alert_rules am)
              Hin Hmetric Hth Hop [] w) as (w' & Hrun).
  rewrite Hrun. exists w'. reflexivity.
Qed.

End Services.

Lemma default_rules_alert_on_breaches_witness :
  let utcnow := fun w : nat => (Z.of_nat w, w) in
  let time_time := fun w : nat => (inject_Z (Z.of_nat w), w) in
  let metrics :=
    {| timestamp := 0; cpu_usage := 95; memory_usage := 10; disk_usage := 10;
       network_io := (0%Q, 0%Q); active_connections := 0;
       requests_per_minute := 0; error_rate := 0; response_time_avg := 0;
       cache_hit_rate := 0 |} in
  let is_exception := fun e : string => negb (String.eqb e "KeyboardInterrupt") in
  let failing : Handler := fun _ _ w => (Some "smtp down", S w) in
  let am := add_alert_handler failing AlertManager_init in
  let checked :=
    check_alerts (Details := unit) id is_exception utcnow time_time metrics []
      am 0%nat [] in
  fst (fst (fst checked)) = inr (inr tt).
Proof.
  intros utcnow time_time metrics is_exception failing am checked.
  destruct (default_rules_alert_on_breaches (Details := unit)
              id is_exception utcnow time_time metrics [] am 0%nat [])
    as (Hreturns & _).
  - reflexivity.
  - intros handler a history w [<-|[]]. reflexivity.
  - exact Hreturns.
Defined.

Lemma text_threshold_stops_check_alerts_witness :
  let utcnow := fun w : nat => (Z.of_nat w, w) in
  let time_time := fun w : nat => (inject_Z (Z.of_nat w), w) in
  let metrics :=
    {| timestamp := 0; cpu_usage := 95; memory_usage := 10; disk_usage := 10;
       network_io := (0%Q, 0%Q); active_connections := 0;
       requests_per_minute := 0; error_rate := 0; response_time_avg := 0;
       cache_hit_rate := 0 |} in
  let bad :=
    {| metric := "disk_usage"; threshold := inr "90"; operator := ">";
       severity := "critical"; message := "Disk usage is above 90%" |} in
  let am : AlertManager (W := nat) (E := string) :=
    {| alerts := []; alert_rules := setup_default_rules ++ [("disk", bad)];
       alert_handlers := [] |} in
  exists w' : nat,
    check_alerts (Details := unit) id (fun _ => true) utcnow time_time metrics
      [] am 0%nat []
      = (inl TypeError, am, w', []).
Proof.
  intros utcnow time_time metrics bad am.
  apply (text_threshold_stops_check_alerts (Details := unit) (E := string)
           id (fun _ => true) utcnow time_time metrics [] am 0%nat [] "disk"
           bad "90").
  - apply in_or_app. right. left. reflexivity.
  - discriminate.
  - reflexivity.
  - left. reflexivity.
Defined.

End AlertExtra.

Module HealthExtra.
Import Monitoring MonitoringRuns MonitoringMore MonitoringFacts.

Lemma dict_get_set_eq {A : Type} (k : string) (v : A) (d : list (string * A)) :
  dict_get k (dict_set k v d) = Some v.
Proof.
  induction d as [|[k' v'] d IH]; cbn.
  - rewrite String.eqb_refl. reflexivity.
  - destruct (String.eqb k' k) eqn:Hk; cbn; rewrite Hk; [reflexivity | exact IH].
Qed.

Lemma dict_get_set_ne {A : Type} (k k' : string) (v : A) (d : list (string * A)) :
  k <> k' -> dict_get k' (dict_set k v d) = dict_get k' d.
Proof.
  intros Hne. induction d as [|[k0 v0] d IH]; cbn.
  - destruct (String.eqb_spec k k'); [congruence | reflexivity].
  - destruct (String.eqb_spec k0 k) as [->|Hk0]; cbn.
    + destruct (String.eqb_spec k k'); [congruence | reflexivity].
    + destruct (String.eqb k0 k'); [reflexivity | exact IH].
Qed.

(** In a dict the value at a position is the value of its key. *)
Lemma dict_get_lookup {A : Type} (d : list (string * A)) :
  NoDup (map fst d) ->
  forall (i : nat) (k : string) (v : A),
    d !! i = Some (k, v) -> dict_get k d = Some v.
Proof.
  induction d as [|[k0 v0] d IH]; intros Hnd i k v Hi.
  - destruct i; discriminate.
  - cbn [map fst] in Hnd. apply NoDup_cons in Hnd as (Hk & Hnd).
    destruct i as [|i]; cbn in Hi.
    + injection Hi as -> ->. cbn. rewrite String.eqb_refl. reflexivity.
    + cbn. destruct (String.eqb_spec k0 k) as [->|Hne].
      * exfalso. apply Hk. apply list_elem_of_fmap.
        exists (k, v). split; [reflexivity|].
        apply list_elem_of_lookup. exists i. exact Hi.
      * apply (IH Hnd i k v Hi).
Qed.

Section Services.
Context {W Details E : Type}.
Variable str : E -> string.
Variable is_exception : E -> bool.
Variable utcnow : W -> Z * W.

Abbreviation CheckRun := (CheckRun (W := W) (Details := Details)).
Abbreviation CheckFunc := (CheckFunc (W := W) (Details := Details) (E := E)).
Abbreviation run_check := (run_check str is_exception utcnow).
Abbreviation run_checks := (run_checks str is_exception utcnow).

(** Checks under other names leave the stored status of a name alone. *)
Lemma run_checks_other_names (name : string) (items : list (string * CheckFunc)) :
  name ∉ map fst items ->
  forall st : CheckRun,
    dict_get name (statuses (snd (run_checks items st)))
    = dict_get name (statuses st).
Proof.
  induction items as [|[name0 f0] items IH]; intros Hnot st; [reflexivity|].
  cbn [map fst] in Hnot. apply not_elem_of_cons in Hnot as (Hne & Hnot).
  cbn [Monitoring.run_checks].
  pose proof (run_check_statuses str is_exception utcnow st name0 f0) as Hst.
  destruct (run_check st (name0, f0)) as [[e|] st1]; cbn [snd] in *;
    rewrite ?(IH Hnot), Hst;
    (destruct (f0 (world st)) as [[e'|record] w]; [reflexivity|]);
    apply dict_get_set_ne; congruence.
Qed.

Lemma run_checks_status (items : list (string * CheckFunc)) :
  NoDup (map fst items) ->
  forall st : CheckRun,
    (forall (i : nat) (name : string) (check_func : CheckFunc)
            (e : E) (after : W),
        items !! i = Some (name, check_func) ->
        check_func (world (snd (run_checks (take i items) st))) = (inl e, after) ->
        is_exception e = true) ->
    forall (i : nat) (name : string) (check_func : CheckFunc),
      items !! i = Some (name, check_func) ->
      dict_get name (statuses (snd (run_checks items st))) =
        match check_func (world (snd (run_checks (take i items) st))) with
        | (inr record, _) => Some record
        | (inl _, _) => dict_get name (statuses st)
        end.
Proof.
  induction items as [|[name0 f0] items IH]; intros Hnd st Hcaught i name f Hi.
  - destruct i; discriminate.
  - cbn [map fst] in Hnd. apply NoDup_cons in Hnd as (Hname & Hnd).
    destruct (run_check_caught str is_exception utcnow st name0 f0) as (Hgo & _).
    { intros e after He. exact (Hcaught 0%nat name0 f0 e after eq_refl He). }
    assert (Hstep : forall rest : list (string * CheckFunc),
               run_checks ((name0, f0) :: rest) st
               = run_checks rest (snd (run_check st (name0, f0)))).
    { intros rest. apply run_checks_cons. exact Hgo. }
    pose proof (run_check_statuses str is_exception utcnow st name0 f0) as Hst.
    destruct i as [|i].
    + cbn in Hi. injection Hi as -> ->. cbn [take].
      rewrite Hstep, (run_checks_other_names name items Hname), Hst.
      cbn [Monitoring.run_checks snd].
      destruct (f (world st)) as [[e|record] w]; [reflexivity|].
      apply dict_get_set_eq.
    + cbn in Hi. cbn [take]. rewrite !Hstep.
      rewrite (IH Hnd) with (i := i) (name := name) (check_func := f);
        [|intros j n g e after Hj He;
          apply (Hcaught (S j) n g e after Hj); cbn [take]; rewrite Hstep; exact He
         |exact Hi].
      destruct (f (world (snd (run_checks (take i items)
                                 (snd (run_check st (name0, f0)))))))
        as [[e|record] w]; [|reflexivity].
      rewrite Hst.
      destruct (f0 (world st)) as [[e0|record0] w0]; [reflexivity|].
      apply dict_get_set_ne. intros ->. apply Hname.
      apply list_elem_of_fmap. exists (name, f). split; [reflexivity|].
      apply list_elem_of_lookup. exists i. exact Hi.
Qed.

(** X29. The statuses the checker keeps between runs follow the checks
    that return only. For checks that raise nothing but instances of
    [Exception]: after [run_all_checks], the status kept under the name
    of a check that returned is the record it returned, while for a
    check that raised the status kept is still the one from before the
    run, or none, although the dict returned by the run has an
    unhealthy record for it. The registered checks are unchanged. *)
Theorem kept_status_skips_failed_checks
  (hc : HealthChecker (W := W) (Details := Details) (E := E))
  (w : W) (logged : list LogRecord) (i : nat) (name : string)
  (check_func : CheckFunc) :
  NoDup (map fst (health_checks hc)) ->
  checks_raise_exceptions str is_exception utcnow hc w logged ->
  health_checks hc !! i = Some (name, check_func) ->
  let run := run_all_checks str is_exception utcnow hc w logged in
  let after := snd (fst (fst run)) in
  health_checks after = health_checks hc /\
  exists found : list (string * ServiceHealth),
    fst (fst (fst run)) = inr found /\
    match check_func (checks_prefix_world str is_exception utcnow hc w logged i) with
    | (inr record, _) =>
        dict_get name (health_status after) = Some record /\
        dict_get name found = Some record
    | (inl e, failed) =>
        dict_get name (health_status after) = dict_get name (health_status hc) /\
        dict_get name found =
          Some (failed_check_record str name e (fst (utcnow failed)))
    end.
Proof.
  intros Hnd Hcaught Hi run after. split; [reflexivity|].
  set (st0 := {| results := []; statuses := health_status hc; world := w;
                 log := logged |} : CheckRun).
  pose proof (run_checks_status (health_checks hc) Hnd st0 Hcaught i name
                check_func Hi) as Hkept.
  destruct (run_checks_append str is_exception utcnow (health_checks hc) st0 Hnd)
    as (new & Hend & Hnew & Hkeys & Hat).
  { intros k _ Hk. inversion Hk. }
  { exact Hcaught. }
  specialize (Hat i name check_func Hi).
  cbn [results app] in Hnew.
  exists new. split.
  { subst run. unfold run_all_checks. cbn [fst]. fold st0.
    rewrite Hend, Hnew. reflexivity. }
  assert (Hres : dict_get name new =
                   Some (filed str utcnow name check_func
                           (checks_prefix_world str is_exception utcnow hc w
                              logged i))).
  { unfold checks_prefix_world. fold st0.
    rewrite <- Hkeys in Hnd. exact (dict_get_lookup new Hnd i name _ Hat). }
  unfold checks_prefix_world. fold st0.
  unfold checks_prefix_world in Hres. fold st0 in Hres.
  unfold filed in Hres.
  change (health_status after)
    with (statuses (snd (run_checks (health_checks hc) st0))).
  destruct (check_func (world (snd (run_checks (take i (health_checks hc)) st0))))
    as [[e|record] failed]; split; assumption.
Qed.

(** X30. The overall status is ["unhealthy"] exactly when some record
    is unhealthy and ["healthy"] exactly when no record is unhealthy or
    degraded; so, among checks that raise nothing but instances of
    [Exception], one registered check that raises makes the overall
    status of the run unhealthy. *)
Theorem overall_status_of_run
  (hc : HealthChecker (W := W) (Details := Details) (E := E))
  (w : W) (logged : list LogRecord) :
  NoDup (map fst (health_checks hc)) ->
  checks_raise_exceptions str is_exception utcnow hc w logged ->
  (forall records : list (string * ServiceHealth (Details := Details)),
      (overall_status records = "unhealthy" <->
       exists record, In record records /\ status (snd record) = "unhealthy") /\
      (overall_status records = "healthy" <->
       forall record, In record records ->
                      status (snd record) <> "unhealthy" /\
                      status (snd record) <> "degraded")) /\
  exists found : list (string * ServiceHealth),
    fst (fst (fst (run_all_checks str is_exception utcnow hc w logged)))
      = inr found /\
    forall (i : nat) (name : string) (check_func : CheckFunc) (e : E) (failed : W),
      health_checks hc !! i = Some (name, check_func) ->
      check_func (checks_prefix_world str is_exception utcnow hc w logged i)
        = (inl e, failed) ->
      overall_status found = "unhealthy".
Proof.
  intros Hnd Hcaught.
  assert (Hgen : forall records : list (string * ServiceHealth (Details := Details)),
      (overall_status records = "unhealthy" <->
       exists record, In record records /\ status (snd record) = "unhealthy") /\
      (overall_status records = "healthy" <->
       forall record, In record records ->
                      status (snd record) <> "unhealthy" /\
                      status (snd record) <> "degraded")).
  { intros records. unfold overall_status.
    destruct (existsb (fun check => String.eqb (status (snd check)) "unhealthy")
                records) eqn:Hu.
    - apply existsb_exists in Hu as (r & Hr & Hs). apply String.eqb_eq in Hs.
      split.
      + split; [intros _; exists r; auto | reflexivity].
      + split; [discriminate|]. intros Hall. destruct (Hall r Hr). congruence.
    - assert (Hnone : forall r, In r records -> status (snd r) <> "unhealthy").
      { intros r Hr Hs. assert (Ht : existsb (fun check =>
                 String.eqb (status (snd check)) "unhealthy") records = true).
        { apply existsb_exists. exists r. split; [exact Hr|].
          apply String.eqb_eq. exact Hs. }
        congruence. }
      destruct (existsb (fun check => String.eqb (status (snd check)) "degraded")
                  records) eqn:Hd.
      + apply existsb_exists in Hd as (r & Hr & Hs). apply String.eqb_eq in Hs.
        split.
        * split; [discriminate|]. intros (r' & Hr' & Hs'). destruct (Hnone r' Hr' Hs').
        * split; [discriminate|]. intros Hall. destruct (Hall r Hr). congruence.
      + split.
        * split; [discriminate|]. intros (r' & Hr' & Hs'). destruct (Hnone r' Hr' Hs').
        * split; [|reflexivity]. intros _ r Hr. split; [apply Hnone, Hr|].
          intros Hs. assert (Ht : existsb (fun check =>
                 String.eqb (status (snd check)) "degraded") records = true).
          { apply existsb_exists. exists r. split; [exact Hr|].
            apply String.eqb_eq. exact Hs. }
          congruence. }
  split; [exact Hgen|].
  destruct (run_checks_append str is_exception utcnow (health_checks hc)
              {| results := []; statuses := health_status hc; world := w;
                 log := logged |} Hnd)
    as (new & Hend & Hnew & _ & Hat).
  { intros k _ Hk. inversion Hk. }
  { exact Hcaught. }
  cbn [results app] in Hnew.
  exists new. split.
  { unfold run_all_checks. cbn [fst]. rewrite Hend, Hnew. reflexivity. }
  intros i name check_func e failed Hi Hraise.
  apply Hgen.
  specialize (Hat i name check_func Hi).
  fold (checks_prefix_world str is_exception utcnow hc w logged i) in Hat.
  unfold filed in Hat. rewrite Hraise in Hat.
  eexists. split.
  - apply list_elem_of_In, list_elem_of_lookup. exists i. exact Hat.
  - reflexivity.
Qed.

End Services.

Lemma kept_status_skips_failed_checks_witness :
  let utcnow := fun w : nat => (Z.of_nat w, S w) in
  let is_exception := fun e : string => negb (String.eqb e "KeyboardInterrupt") in
  let database : CheckFunc (Details := unit) :=
    fun w => (inl "connection refused", (w + 10)%nat) in
  let earlier : ServiceHealth (Details := unit) :=
    {| name := "database"; status := "healthy"; response_time := 0;
       last_check := 0; error_message := None; details := None |} in
  let hc := {| health_checks := [("database", database)];
               health_status := [("database", earlier)] |} in
  let run := run_all_checks id is_exception utcnow hc 0%nat [] in
  exists found : list (string * ServiceHealth),
    fst (fst (fst run)) = inr found /\
    dict_get "database" (health_status (snd (fst (fst run)))) = Some earlier /\
    dict_get "database" found =
      Some (failed_check_record id "database" "connection refused" 10).
Proof.
  intros utcnow is_exception database earlier hc run.
  destruct (kept_status_skips_failed_checks id is_exception utcnow hc 0%nat []
              0%nat "database" database) as (_ & found & Hrun & Hkept & Hfound).
  - apply NoDup_ListNoDup. repeat constructor. cbn. tauto.
  - intros i name check_func e after Hi He.
    destruct i as [|i]; cbn in Hi; try discriminate.
    injection Hi as <- <-. vm_compute in He. injection He as <- _. reflexivity.
  - reflexivity.
  - exists found. split; [exact Hrun|]. split; [exact Hkept | exact Hfound].
Defined.

Lemma overall_status_of_run_witness :
  let utcnow := fun w : nat => (Z.of_nat w, S w) in
  let is_exception := fun e : string => negb (String.eqb e "KeyboardInterrupt") in
  let database : CheckFunc (Details := unit) :=
    fun w => (inl "connection refused", (w + 10)%nat) in
  let cache : CheckFunc (Details := unit) :=
    fun w =>
      (inr {| name := "cache"; status := "healthy"; response_time := 0;
              last_check := Z.of_nat w; error_message := None;
              details := None |}, S w) in
  let hc := {| health_checks := [("cache", cache); ("database", database)];
               health_status := [] |} in
  exists found : list (string * ServiceHealth),
    fst (fst (fst (run_all_checks id is_exception utcnow hc 0%nat []))) = inr found /\
    overall_status found = "unhealthy".
Proof.
  intros utcnow is_exception database cache hc.
  destruct (overall_status_of_run id is_exception utcnow hc 0%nat [])
    as (_ & found & Hrun & Hraised).
  - apply NoDup_ListNoDup. repeat constructor; cbn; intuition discriminate.
  - intros i name check_func e after Hi He.
    destruct i as [|[|i]]; cbn in Hi; try discriminate;
      injection Hi as <- <-; vm_compute in He;
      first [discriminate | injection He as <- _; reflexivity].
  - exists found. split; [exact Hrun|].
    apply (Hraised 1%nat "database" database "connection refused" 11%nat);
      reflexivity.
Defined.

End HealthExtra.
